(** * Merkle roots and inclusion proofs of the settlement batching scripts

    A shallow embedding of the four Python scripts under
    [contracts/script/merkle]:

    - [batch/generateBatchRoot.py]               (module [BatchRoot])
    - [batch/generateBatchRootDeploy.py]         (module [BatchRootDeploy])
    - [whitelist/generateRoot.py]                (module [WhitelistRoot])
    - [whitelist/generateWhitelistRootDeploy.py] (module [WhitelistRootDeploy])

    together with the part of the Python runtime ([Py]) and of the
    [web3] / [eth_utils] libraries ([Web3]) these scripts call.  The hash
    function is a parameter of every definition; [Keccak.keccak256] is the
    concrete Keccak-256 the scripts import, used to run the definitions on
    concrete inputs. *)

From Stdlib Require Import String Ascii.
From Stdlib.Strings Require Import Byte.
From Stdlib Require Import ZArith List Lia Bool Arith Sorted Permutation.
Import ListNotations.
Local Open Scope Z_scope.

(* ================================================================= *)
(** ** The Python values the scripts manipulate *)

Module Py.

(** [bytes] objects and [str] objects (code points below 256). *)
Definition bytes := list byte.
Definition str := list ascii.

Definition byte_of_Z (z : Z) : byte :=
  match Byte.of_N (Z.to_N (z mod 256)) with Some b => b | None => x00 end.
Definition Z_of_byte (b : byte) : Z := Z.of_N (Byte.to_N b).

(** Exceptions.  [LibraryError] stands for the exception classes that
    [web3] defines itself, named by the class.  [LoopBound] is not a Python
    exception: it is what a [while] loop of the model returns when its
    iteration bound is used up; the bounds chosen below are never reached
    (lemmas [build_loop_spec] and [layers_loop_spec]). *)
Inductive exn : Type :=
| IndexError
| ValueError (msg : string)
| LibraryError (class : string)
| LoopBound.

Inductive result (A : Type) : Type :=
| Ok (a : A)
| Raise (e : exn).
Arguments Ok {A} a.
Arguments Raise {A} e.

Definition bind {A B : Type} (m : result A) (k : A -> result B) : result B :=
  match m with
  | Ok a => k a
  | Raise e => Raise e
  end.

(** [len(l)] as a Python integer. *)
Definition len {A : Type} (l : list A) : Z := Z.of_nat (length l).

(** [l[i]]: negative indices count from the end, anything else outside
    the list raises [IndexError]. *)
Definition getitem {A : Type} (l : list A) (i : Z) : result A :=
  let j := if i <? 0 then i + len l else i in
  if (0 <=? j) && (j <? len l)
  then match nth_error l (Z.to_nat j) with
       | Some x => Ok x
       | None => Raise IndexError
       end
  else Raise IndexError.

(** Comparison of [bytes] objects: lexicographic on the unsigned byte
    values, a proper prefix being smaller. *)
Fixpoint bytes_compare (a b : bytes) : comparison :=
  match a, b with
  | [], [] => Eq
  | [], _ :: _ => Lt
  | _ :: _, [] => Gt
  | x :: a', y :: b' =>
      match N.compare (Byte.to_N x) (Byte.to_N y) with
      | Eq => bytes_compare a' b'
      | c => c
      end
  end.

Definition bytes_lt (a b : bytes) : bool :=
  match bytes_compare a b with Lt => true | _ => false end.
Definition bytes_gt (a b : bytes) : bool :=
  match bytes_compare a b with Gt => true | _ => false end.
Definition bytes_le (a b : bytes) : bool := negb (bytes_gt a b).
Definition bytes_eqb (a b : bytes) : bool :=
  match bytes_compare a b with Eq => true | _ => false end.

(** A list comprehension [[f(x) for x in l]] whose [f] may raise. *)
Fixpoint map_result {A B : Type} (f : A -> result B) (l : list A)
  : result (list B) :=
  match l with
  | [] => Ok []
  | x :: l' =>
      match f x with
      | Ok y => bind (map_result f l') (fun ys => Ok (y :: ys))
      | Raise e => Raise e
      end
  end.

(** [l.index(x)] on a list of [bytes]: the first position holding a value
    equal to [x], ValueError when there is none. *)
Fixpoint list_index (l : list bytes) (x : bytes) : result Z :=
  match l with
  | [] => Raise (ValueError "x is not in list")
  | y :: l' =>
      if bytes_eqb y x then Ok 0
      else bind (list_index l' x) (fun i => Ok (i + 1))
  end.

(** [b'\x00' * n] *)
Definition zeros (n : nat) : bytes := repeat x00 n.

(** *** Strings *)

Definition code (c : ascii) : nat := nat_of_ascii c.

(** [str.isspace] on one character. *)
Definition is_space (c : ascii) : bool :=
  let n := code c in
  ((9 <=? n) && (n <=? 13) || (28 <=? n) && (n <=? 32)
   || (n =? 133) || (n =? 160))%nat.

Fixpoint lstrip (s : str) : str :=
  match s with
  | c :: r => if is_space c then lstrip r else s
  | [] => []
  end.
Definition strip (s : str) : str := rev (lstrip (rev (lstrip s))).

(** [c.lower()] and [c.upper()] on the ASCII letters; the scripts apply
    them to hexadecimal address strings only. *)
Definition lower_char (c : ascii) : ascii :=
  let n := code c in
  if ((65 <=? n) && (n <=? 90))%nat then ascii_of_nat (n + 32) else c.
Definition upper_char (c : ascii) : ascii :=
  let n := code c in
  if ((97 <=? n) && (n <=? 122))%nat then ascii_of_nat (n - 32) else c.
Definition lower (s : str) : str := map lower_char s.

(** [s.startswith("0x")] *)
(** Comparison of [str] objects, by code point, and [sorted]. *)
Fixpoint str_compare (a b : str) : comparison :=
  match a, b with
  | [], [] => Eq
  | [], _ :: _ => Lt
  | _ :: _, [] => Gt
  | x :: a', y :: b' =>
      match Nat.compare (code x) (code y) with
      | Eq => str_compare a' b'
      | c => c
      end
  end.
Fixpoint insert_sorted (x : str) (l : list str) : list str :=
  match l with
  | [] => [x]
  | y :: l' =>
      match str_compare x y with
      | Lt => x :: l
      | _ => y :: insert_sorted x l'
      end
  end.
Definition sorted (l : list str) : list str :=
  fold_left (fun acc x => insert_sorted x acc) l [].

Definition startswith_0x (s : str) : bool :=
  match s with
  | a :: b :: _ => (a =? "0")%char && (b =? "x")%char
  | _ => false
  end.

(** Value of a hexadecimal digit, either case. *)
Definition hex_val (c : ascii) : option Z :=
  let n := code c in
  if ((48 <=? n) && (n <=? 57))%nat then Some (Z.of_nat (n - 48))
  else if ((97 <=? n) && (n <=? 102))%nat then Some (Z.of_nat (n - 87))
  else if ((65 <=? n) && (n <=? 70))%nat then Some (Z.of_nat (n - 55))
  else None.
Definition is_hex_digit (c : ascii) : bool :=
  match hex_val c with Some _ => true | None => false end.

(** The lowercase hexadecimal digit of a value in [0, 16). *)
Definition hex_char (n : Z) : ascii :=
  nth (Z.to_nat n) (list_ascii_of_string "0123456789abcdef") "0"%char.

(** [b.hex()] *)
Definition hex_of_bytes (b : bytes) : str :=
  flat_map (fun x => [hex_char (Z_of_byte x / 16); hex_char (Z_of_byte x mod 16)]) b.

(** [bytes.fromhex(s)] on a string of hexadecimal digits. *)
Fixpoint fromhex (s : str) : result bytes :=
  match s with
  | [] => Ok []
  | h :: l :: r =>
      match hex_val h, hex_val l with
      | Some a, Some b =>
          bind (fromhex r) (fun bs => Ok (byte_of_Z (16 * a + b) :: bs))
      | _, _ => Raise (ValueError "non-hexadecimal number found in fromhex() arg")
      end
  | [_] => Raise (ValueError "non-hexadecimal number found in fromhex() arg")
  end.

(** [hex(v)] without its [0x], for [v >= 0]: the shortest big-endian
    digit string. *)
Fixpoint be_hex (n : nat) (v : Z) : str :=
  match n with
  | O => []
  | S k => hex_char ((v / 16 ^ Z.of_nat k) mod 16) :: be_hex k v
  end.
Definition ndigits (v : Z) : nat :=
  if v =? 0 then 1%nat else Z.to_nat (Z.log2 v / 4 + 1).
Definition hex_digits (v : Z) : str := be_hex (ndigits v) v.

(** [s.zfill(w)] on a string without sign. *)
Definition zfill (w : nat) (s : str) : str := repeat "0"%char (w - length s) ++ s.

(** [v.to_bytes(n, 'big')]: the big-endian [n]-byte representation. *)
Fixpoint be_bytes (n : nat) (v : Z) : bytes :=
  match n with
  | O => []
  | S k => byte_of_Z (v / 256 ^ Z.of_nat k) :: be_bytes k v
  end.

End Py.

Import Py.

Declare Scope py_scope.
Notation "x <- m ;; k" := (Py.bind m (fun x => k))
  (at level 61, m at next level, right associativity) : py_scope.
Local Open Scope py_scope.

(* ================================================================= *)
(** ** Keccak-256, as [eth_utils.keccak] and [Web3.keccak] compute it *)

Module Keccak.

Definition mask64 : Z := 18446744073709551615.
Definition rotl64 (x n : Z) : Z :=
  Z.land (Z.lor (Z.shiftl x n) (Z.shiftr x (64 - n))) mask64.
Definition lane (s : list Z) (i : nat) : Z := nth i s 0.

Definition rho_offsets : list Z :=
  [0; 1; 62; 28; 27; 36; 44; 6; 55; 20; 3; 10; 43; 25; 39;
   41; 45; 15; 21; 8; 18; 2; 61; 56; 14].

Definition round_constants : list Z :=
  [0x0000000000000001; 0x0000000000008082; 0x800000000000808A;
   0x8000000080008000; 0x000000000000808B; 0x0000000080000001;
   0x8000000080008081; 0x8000000000008009; 0x000000000000008A;
   0x0000000000000088; 0x0000000080008009; 0x000000008000000A;
   0x000000008000808B; 0x800000000000008B; 0x8000000000008089;
   0x8000000000008003; 0x8000000000008002; 0x8000000000000080;
   0x000000000000800A; 0x800000008000000A; 0x8000000080008081;
   0x8000000000008080; 0x0000000080000001; 0x8000000080008008].

Definition theta (s : list Z) : list Z :=
  let c := map (fun x => Z.lxor (lane s x) (Z.lxor (lane s (x + 5))
             (Z.lxor (lane s (x + 10)) (Z.lxor (lane s (x + 15)) (lane s (x + 20))))))
             (seq 0 5) in
  let d := map (fun x => Z.lxor (lane c ((x + 4) mod 5))
                                (rotl64 (lane c ((x + 1) mod 5)) 1))
             (seq 0 5) in
  map (fun i => Z.lxor (lane s i) (lane d (i mod 5))) (seq 0 25).

Definition rho_pi (s : list Z) : list Z :=
  map (fun j => let x := (j mod 5)%nat in
                let y := (j / 5)%nat in
                let src := (((x + 3 * y) mod 5) + 5 * x)%nat in
                rotl64 (lane s src) (nth src rho_offsets 0))
      (seq 0 25).

Definition chi (s : list Z) : list Z :=
  map (fun i => let x := (i mod 5)%nat in
                let y := (i / 5)%nat in
                Z.lxor (lane s i)
                  (Z.land (Z.lxor (lane s (((x + 1) mod 5) + 5 * y)) mask64)
                          (lane s (((x + 2) mod 5) + 5 * y))))
      (seq 0 25).

Definition iota (rc : Z) (s : list Z) : list Z :=
  match s with
  | [] => []
  | a :: r => Z.lxor a rc :: r
  end.

Definition round (s : list Z) (rc : Z) : list Z :=
  iota rc (chi (rho_pi (theta s))).
Definition keccak_f (s : list Z) : list Z := fold_left round round_constants s.

Definition rate : nat := 136.

Definition pad (m : bytes) : bytes :=
  let q := (rate - (length m mod rate))%nat in
  match q with
  | 1%nat => m ++ [x81]
  | _ => m ++ [x01] ++ repeat x00 (q - 2) ++ [x80]
  end.

Fixpoint le_lane (bs : bytes) : Z :=
  match bs with
  | [] => 0
  | b :: r => Z_of_byte b + 256 * le_lane r
  end.

Fixpoint lanes_of (n : nat) (bs : bytes) : list Z :=
  match n with
  | O => []
  | S n' => le_lane (firstn 8 bs) :: lanes_of n' (skipn 8 bs)
  end.

Fixpoint xor_into (s ls : list Z) : list Z :=
  match s, ls with
  | a :: s', l :: ls' => Z.lxor a l :: xor_into s' ls'
  | _, _ => s
  end.

Fixpoint absorb (n : nat) (s : list Z) (m : bytes) : list Z :=
  match n with
  | O => s
  | S n' =>
      absorb n' (keccak_f (xor_into s (lanes_of 17 (firstn rate m)))) (skipn rate m)
  end.

Definition lane_bytes (z : Z) : bytes :=
  [byte_of_Z z; byte_of_Z (Z.shiftr z 8); byte_of_Z (Z.shiftr z 16);
   byte_of_Z (Z.shiftr z 24); byte_of_Z (Z.shiftr z 32); byte_of_Z (Z.shiftr z 40);
   byte_of_Z (Z.shiftr z 48); byte_of_Z (Z.shiftr z 56)].

Definition keccak256 (m : bytes) : bytes :=
  let p := pad m in
  let s := absorb (length p / rate) (repeat 0 25) p in
  lane_bytes (lane s 0) ++ lane_bytes (lane s 1)
    ++ lane_bytes (lane s 2) ++ lane_bytes (lane s 3).

End Keccak.

(* ================================================================= *)
(** ** The calls into [eth_utils] and [web3]

    Library code, not part of the repository, modelled on what the
    libraries do: [is_hex_address], [to_checksum_address] (EIP-55), and
    [Web3.solidity_keccak], which hex-encodes every value by its ABI type as
    [abi.encodePacked] lays it out (an address as its 40 digits, a [uintN]
    zero-filled to [N / 4] digits, [bytes32] as the bytes given), joins the
    hex strings and hashes the decoded bytes.  An unsigned integer is
    checked for its sign only: a value wider than its type keeps all its
    digits.  Only the ABI types and Python values the scripts pass are
    covered. *)

Module Web3.

Inductive abi_type : Type :=
| address
| uint (bits : nat)
| bytes32.

Inductive pyval : Type :=
| PStr (s : str)
| PInt (z : Z)
| PBytes (b : bytes).

(** [s.startswith(("0x", "0X"))] *)
Definition is_0x_prefixed (s : str) : bool :=
  match s with
  | a :: b :: _ => (a =? "0")%char && ((b =? "x")%char || (b =? "X")%char)
  | _ => false
  end.
Definition remove_0x_prefix (s : str) : str :=
  if is_0x_prefixed s then skipn 2 s else s.

(** Forty hexadecimal digits. *)
Definition is_hex40 (s : str) : bool :=
  (length s =? 40)%nat && forallb is_hex_digit s.

(** [(0x)?[0-9a-f]{40}], ignoring case. *)
Definition is_hex_address (s : str) : bool :=
  is_hex40 s || (is_0x_prefixed s && is_hex40 (skipn 2 s)).

(** [to_normalized_address]: the lowercase form with [0x], or ValueError.
    The library's message quotes the value; its text is not reproduced
    here, and no statement below depends on it. *)
Definition to_normalized_address (s : str) : result str :=
  if is_hex_address s
  then Ok ("0"%char :: "x"%char :: lower (remove_0x_prefix s))
  else Raise (ValueError "Unknown format, attempted to normalize").

(** [norm[i].upper() if int(address_hash[i], 16) > 7 else norm[i]] for the
    40 digits of the address. *)
Fixpoint checksum_chars (norm address_hash : str) : result str :=
  match norm with
  | [] => Ok []
  | c :: norm' =>
      match address_hash with
      | [] => Raise IndexError
      | h :: hash' =>
          match hex_val h with
          | None => Raise (ValueError "invalid literal for int() with base 16")
          | Some d =>
              r <- checksum_chars norm' hash';;
              Ok ((if 7 <? d then upper_char c else c) :: r)
          end
      end
  end.

(** [v.zfill(bits / 4)] of the hex digits of [v]: [to_hex_with_size]. *)
Definition to_hex_with_size (v : Z) (bits : nat) : str :=
  zfill (bits / 4) (hex_digits v).

(** [to_bytes(hexstr=h)]: an odd number of digits gets a leading [0]. *)
Definition to_bytes_hexstr (h : str) : result bytes :=
  fromhex (if Nat.odd (length h) then "0"%char :: h else h).

Section WithHash.

Variable keccak : bytes -> bytes.

(** EIP-55: a digit is put in upper case when the digit at its position
    in the hex form of the hash of the lowercase digits is above 7. *)
Definition to_checksum_address (value : str) : result str :=
  norm <- to_normalized_address value;;
  let body := skipn 2 norm in
  let address_hash := hex_of_bytes (keccak (map byte_of_ascii body)) in
  r <- checksum_chars body address_hash;;
  Ok ("0"%char :: "x"%char :: r).

Definition is_checksum_address (value : str) : bool :=
  is_hex_address value &&
  match to_checksum_address value with
  | Ok c => if list_eq_dec ascii_dec value c then true else false
  | Raise _ => false
  end.

(** [validate_abi_value] followed by the encoding of one value: an
    address must carry its checksum, an unsigned integer must not be
    negative. *)
Definition hex_encode_abi_type (t : abi_type) (v : pyval) : result str :=
  match t, v with
  | uint bits, PInt z =>
      if 0 <=? z then Ok (to_hex_with_size z bits)
      else Raise (LibraryError "Web3TypeError")
  | address, PStr s =>
      if is_hex_address s && is_checksum_address s
      then Ok (zfill 40 (remove_0x_prefix s))
      else Raise (LibraryError "InvalidAddress")
  | bytes32, PBytes b => Ok (hex_of_bytes b)
  | _, _ => Raise (LibraryError "Web3TypeError")
  end.

Fixpoint hex_encode_all (types : list abi_type) (values : list pyval)
  : result str :=
  match types, values with
  | t :: types', v :: values' =>
      h <- hex_encode_abi_type t v;;
      r <- hex_encode_all types' values';;
      Ok (h ++ r)
  | _, _ => Ok []
  end.

Definition solidity_keccak (types : list abi_type) (values : list pyval)
  : result bytes :=
  if (length types =? length values)%nat
  then h <- hex_encode_all types values;;
       b <- to_bytes_hexstr h;;
       Ok (keccak b)
  else Raise (ValueError "Length mismatch between provided abi types and values").

End WithHash.

End Web3.

(* ================================================================= *)
(** ** batch/generateBatchRoot.py *)

Module BatchRoot.

Import Web3.

Record TransferData : Type := {
  from_address : str;
  to_address : str;
  amount : Z;
  nonce : Z;
  timestamp : Z;
  recipient_count : Z;
  batch_id : Z;
  tx_type : Z;
  batch_salt : Z
}.

Record MerkleTree : Type := {
  leaves : list bytes;
  tree : list (list bytes)
}.

(** [class TxType(IntEnum)] *)
Definition DELAYED : Z := 0.
Definition INSTANT : Z := 1.
Definition BATCHED : Z := 2.
Definition FREE_TIER : Z := 3.

(** The dictionaries [generate_merkle_data] builds: one entry of
    ['proofs_data'], and the result. *)
Record proof_entry : Type := {
  entry_index : Z;
  entry_transaction : TransferData;
  entry_tx_hash : str;
  entry_proof : list str;
  entry_valid : bool
}.

Record merkle_data : Type := {
  data_merkle_root : str;
  data_tx_count : Z;
  data_transactions : list TransferData;
  data_leaves : list str;
  data_proofs_data : list proof_entry
}.

Section WithHash.

Variable keccak : bytes -> bytes.

Definition calculate_tx_hash (tx : TransferData) : result bytes :=
  f <- to_checksum_address keccak (from_address tx);;
  t <- to_checksum_address keccak (to_address tx);;
  solidity_keccak keccak
    [address; address; uint 256; uint 64; uint 48; uint 32; uint 8; uint 64]
    [PStr f; PStr t; PInt (amount tx); PInt (nonce tx); PInt (timestamp tx);
     PInt (recipient_count tx); PInt (tx_type tx); PInt (batch_salt tx)].

(** Lines 62-67: the two children of a pair, sorted, then hashed. *)
Definition combined_pair (left_ right_ : bytes) : result bytes :=
  let '(left_, right_) :=
    if bytes_gt left_ right_ then (right_, left_) else (left_, right_) in
  solidity_keccak keccak [bytes32; bytes32] [PBytes left_; PBytes right_].

(** The [for i in range(0, len(current), 2)] loop: one pass over
    [current], two elements at a time. *)
Fixpoint next_level (current : list bytes) : result (list bytes) :=
  match current with
  | [] => Ok []
  | [promoted] => Ok [promoted]
  | left_ :: right_ :: rest =>
      combined <- combined_pair left_ right_;;
      nxt <- next_level rest;;
      Ok (combined :: nxt)
  end.

(** The [while len(current) > 1] loop, at most [fuel] iterations. *)
Fixpoint build_loop (fuel : nat) (tree : list (list bytes))
  (current : list bytes) : result (list (list bytes)) :=
  if 1 <? len current
  then match fuel with
       | O => Raise LoopBound
       | S fuel' =>
           nxt <- next_level current;;
           build_loop fuel' (tree ++ [nxt]) nxt
       end
  else Ok tree.

Definition _build_tree (leaves : list bytes) : result (list (list bytes)) :=
  match leaves with
  | [] => Ok [[]]
  | _ :: _ => build_loop (length leaves) [leaves] leaves
  end.

Definition __init__ (leaves : list bytes) : result MerkleTree :=
  t <- _build_tree leaves;;
  Ok {| leaves := leaves; tree := t |}.

Definition get_root (self : MerkleTree) : bytes :=
  match tree self with
  | [] => zeros 32
  | _ :: _ =>
      match last (tree self) [] with
      | [] => zeros 32
      | root :: _ => root
      end
  end.

(** The body of [get_proof]'s loop for the levels still to visit. *)
Fixpoint get_proof_loop (levels : list (list bytes)) (idx : Z)
  (proof : list bytes) : result (list bytes) :=
  match levels with
  | [] => Ok proof
  | curr :: levels' =>
      proof' <-
        (if idx mod 2 =? 0
         then if idx + 1 <? len curr
              then x <- getitem curr (idx + 1);; Ok (proof ++ [x])
              else Ok proof
         else x <- getitem curr (idx - 1);; Ok (proof ++ [x]));;
      get_proof_loop levels' (idx / 2) proof'
  end.

(** [range(len(self.tree) - 1)] visits every level but the last. *)
Definition get_proof (self : MerkleTree) (index : Z) : result (list bytes) :=
  get_proof_loop (removelast (tree self)) index [].

Fixpoint verify_loop (computed : bytes) (proof : list bytes) : result bytes :=
  match proof with
  | [] => Ok computed
  | p :: proof' =>
      computed' <-
        (if bytes_le computed p
         then solidity_keccak keccak [bytes32; bytes32] [PBytes computed; PBytes p]
         else solidity_keccak keccak [bytes32; bytes32] [PBytes p; PBytes computed]);;
      verify_loop computed' proof'
  end.

Definition verify_proof (self : MerkleTree) (leaf : bytes)
  (proof : list bytes) (root : bytes) : result bool :=
  computed <- verify_loop leaf proof;;
  Ok (bytes_eqb computed root).

(** [generate_merkle_data], lines 142-149: the tree of [leaves], its
    root, and [is_valid] for position [i]. *)
Definition is_valid (leaves : list bytes) (i : Z) : result bool :=
  tree <- __init__ leaves;;
  let root := get_root tree in
  leaf <- getitem leaves i;;
  proof <- get_proof tree i;;
  verify_proof tree leaf proof root.

(** The [for i, tx in enumerate(transactions)] loop of
    [generate_merkle_data], from position [i] on. *)
Fixpoint proofs_data_loop (tree : MerkleTree) (root : bytes)
  (leaves : list bytes) (i : Z) (transactions : list TransferData)
  : result (list proof_entry) :=
  match transactions with
  | [] => Ok []
  | tx :: transactions' =>
      leaf <- getitem leaves i;;
      proof <- get_proof tree i;;
      is_valid <- verify_proof tree leaf proof root;;
      rest <- proofs_data_loop tree root leaves (i + 1) transactions';;
      Ok ({| entry_index := i;
             entry_transaction := tx;
             entry_tx_hash := "0"%char :: "x"%char :: hex_of_bytes leaf;
             entry_proof :=
               map (fun p => "0"%char :: "x"%char :: hex_of_bytes p) proof;
             entry_valid := is_valid |} :: rest)
  end.

Definition generate_merkle_data (transactions : list TransferData)
  : result merkle_data :=
  leaves <- map_result calculate_tx_hash transactions;;
  tree <- __init__ leaves;;
  let root := get_root tree in
  proofs_data <- proofs_data_loop tree root leaves 0 transactions;;
  Ok {| data_merkle_root := "0"%char :: "x"%char :: hex_of_bytes root;
        data_tx_count := len transactions;
        data_transactions := transactions;
        data_leaves :=
          map (fun l => "0"%char :: "x"%char :: hex_of_bytes l) leaves;
        data_proofs_data := proofs_data |}.

End WithHash.

End BatchRoot.

(* ================================================================= *)
(** ** batch/generateBatchRootDeploy.py *)

Module BatchRootDeploy.

Import Web3.

Record TransferData : Type := {
  from_address : str;
  to_address : str;
  original_tron_from : str;
  original_tron_to : str;
  amount : Z;
  nonce : Z;
  timestamp : Z;
  recipient_count : Z;
  batch_id : Z;
  tx_type : Z;
  batch_salt : Z
}.

(** [class TxType(IntEnum)] *)
Definition DELAYED : Z := 0.
Definition INSTANT : Z := 1.
Definition BATCHED : Z := 2.
Definition FREE_TIER : Z := 3.

Definition ensure_uint_bounds (nonce timestamp recipient_count : Z) : result unit :=
  if negb ((0 <=? nonce) && (nonce <=? 2 ^ 64 - 1))
  then Raise (ValueError "nonce exceeds uint64")
  else if negb ((0 <=? timestamp) && (timestamp <=? 2 ^ 48 - 1))
  then Raise (ValueError "timestamp exceeds uint48")
  else if negb ((0 <=? recipient_count) && (recipient_count <=? 2 ^ 32 - 1))
  then Raise (ValueError "recipient_count exceeds uint32")
  else Ok tt.

Section WithHash.

Variable keccak : bytes -> bytes.

Definition calculate_tx_hash (tx : TransferData) : result bytes :=
  _ <- ensure_uint_bounds (nonce tx) (timestamp tx) (recipient_count tx);;
  f <- to_checksum_address keccak (from_address tx);;
  t <- to_checksum_address keccak (to_address tx);;
  solidity_keccak keccak
    [address; address; uint 256; uint 64; uint 48; uint 32; uint 8; uint 64]
    [PStr f; PStr t; PInt (amount tx); PInt (nonce tx); PInt (timestamp tx);
     PInt (recipient_count tx); PInt (tx_type tx); PInt (batch_salt tx)].

(** Lines 82-87. *)
Definition combined_pair (left_ right_ : bytes) : result bytes :=
  let '(left_, right_) :=
    if bytes_gt left_ right_ then (right_, left_) else (left_, right_) in
  solidity_keccak keccak [bytes32; bytes32] [PBytes left_; PBytes right_].

Fixpoint next_level (current_level : list bytes) : result (list bytes) :=
  match current_level with
  | [] => Ok []
  | [promoted] => Ok [promoted]
  | left_ :: right_ :: rest =>
      combined <- combined_pair left_ right_;;
      next <- next_level rest;;
      Ok (combined :: next)
  end.

Fixpoint build_loop (fuel : nat) (tree : list (list bytes))
  (current_level : list bytes) : result (list (list bytes)) :=
  if 1 <? len current_level
  then match fuel with
       | O => Raise LoopBound
       | S fuel' =>
           next <- next_level current_level;;
           build_loop fuel' (tree ++ [next]) next
       end
  else Ok tree.

Definition _build_tree (leaves : list bytes) : result (list (list bytes)) :=
  match leaves with
  | [] => Ok [[]]
  | _ :: _ => build_loop (length leaves) [leaves] leaves
  end.

(** [base58.b58decode_check], an external decoder. *)
Variable b58decode_check : str -> result bytes.

Definition tron_to_evm_address (tron_addr : str) : result str :=
  decoded <- b58decode_check tron_addr;;
  if (len decoded <? 21)
     || negb (match decoded with
              | first :: _ => Z_of_byte first =? 65
              | [] => false
              end)
  then Raise (ValueError ("Invalid Tron address: " ++ string_of_list_ascii tron_addr))
  else
    let evm_hex := hex_of_bytes (skipn 1 decoded) in
    to_checksum_address keccak ("0"%char :: "x"%char :: evm_hex).

End WithHash.

End BatchRootDeploy.

(* ================================================================= *)
(** ** whitelist/generateRoot.py *)

Module WhitelistRoot.

Import Web3.

Definition normalize (addr : str) : result str :=
  let addr := strip addr in
  let addr := if startswith_0x addr then addr else "0"%char :: "x"%char :: addr in
  if negb (is_hex_address addr)
  then Raise (ValueError ("Invalid address: " ++ string_of_list_ascii addr))
  else Ok (lower addr).

Section WithHash.

Variable keccak : bytes -> bytes.

Definition leaf_hash (addr : str) : result bytes :=
  a <- normalize addr;;
  b20 <- fromhex (skipn 2 a);;
  Ok (keccak (zeros 12 ++ b20)).

Definition hash_pair (a b : bytes) : bytes :=
  if bytes_lt a b then keccak (a ++ b) else keccak (b ++ a).

(** The [for i in range(0, len(cur), 2)] loop of [build_tree]. *)
Fixpoint next_layer (cur : list bytes) : list bytes :=
  match cur with
  | [] => []
  | [l] => [hash_pair l l]
  | l :: r :: rest => hash_pair l r :: next_layer rest
  end.

(** The [while len(layers[-1]) > 1] loop, at most [fuel] iterations. *)
Fixpoint layers_loop (fuel : nat) (layers : list (list bytes))
  : result (list (list bytes)) :=
  let cur := last layers [] in
  if 1 <? len cur
  then match fuel with
       | O => Raise LoopBound
       | S fuel' => layers_loop fuel' (layers ++ [next_layer cur])
       end
  else Ok layers.

Definition build_tree (leaves : list bytes) : result (list (list bytes)) :=
  layers_loop (length leaves) [leaves].

(** The loop of [proof] over [layers[:-1]]. *)
Fixpoint proof_loop (layers : list (list bytes)) (idx : Z) (pf : list bytes)
  : result (list bytes) :=
  match layers with
  | [] => Ok pf
  | layer :: layers' =>
      let sib := Z.lxor idx 1 in
      pf' <- (if sib <? len layer
              then x <- getitem layer sib;; Ok (pf ++ [x])
              else Ok pf);;
      proof_loop layers' (idx / 2) pf'
  end.

Definition proof (layers : list (list bytes)) (idx : Z) : result (list bytes) :=
  proof_loop (removelast layers) idx [].

Fixpoint verify_loop (h : bytes) (pf : list bytes) : bytes :=
  match pf with
  | [] => h
  | p :: pf' =>
      verify_loop (if bytes_lt h p then keccak (h ++ p) else keccak (p ++ h)) pf'
  end.

Definition verify_sorted (leaf : bytes) (pf : list bytes) (rt : bytes) : bool :=
  bytes_eqb (verify_loop leaf pf) rt.

Definition build_leaves (addrs : list str) : result (list bytes * list str) :=
  normalized <- map_result normalize addrs;;
  let addrs_sorted := sorted normalized in
  leaves <- map_result leaf_hash addrs_sorted;;
  Ok (leaves, addrs_sorted).

(** The script's main part, lines 66-75, for the leaf at [idx]: the
    tree, its root [layers[-1][0]], the proof and [ok]. *)
Definition ok (leaves : list bytes) (idx : Z) : result bool :=
  layers <- build_tree leaves;;
  top <- getitem layers (-1);;
  rt <- getitem top 0;;
  lf <- getitem leaves idx;;
  pf <- proof layers idx;;
  Ok (verify_sorted lf pf rt).

End WithHash.

End WhitelistRoot.

(* ================================================================= *)
(** ** whitelist/generateWhitelistRootDeploy.py *)

Module WhitelistRootDeploy.

Section WithHash.

Variable keccak : bytes -> bytes.
(** [base58.b58decode_check], an external decoder. *)
Variable b58decode_check : str -> result bytes.

Definition tron_to_evm_bytes32 (tron_addr : str) : result bytes :=
  raw <- b58decode_check tron_addr;;
  let addr20 := skipn 1 raw in
  Ok (zeros 12 ++ addr20).

(** [keccak(tron_to_evm_bytes32(addr))], the leaf of lines 57 and 66. *)
Definition leaf (tron_addr : str) : result bytes :=
  b <- tron_to_evm_bytes32 tron_addr;;
  Ok (keccak b).

(** Lines 15-20. *)
Definition combined_pair (left_ right_ : bytes) : bytes :=
  let '(left_, right_) :=
    if bytes_gt left_ right_ then (right_, left_) else (left_, right_) in
  keccak (left_ ++ right_).

Fixpoint next_layer (layer : list bytes) : list bytes :=
  match layer with
  | [] => []
  | [left_] => [combined_pair left_ left_]
  | left_ :: right_ :: rest => combined_pair left_ right_ :: next_layer rest
  end.

Fixpoint tree_loop (fuel : nat) (tree : list (list bytes))
  : result (list (list bytes)) :=
  let layer := last tree [] in
  if 1 <? len layer
  then match fuel with
       | O => Raise LoopBound
       | S fuel' => tree_loop fuel' (tree ++ [next_layer layer])
       end
  else Ok tree.

Definition merkle_tree (leaves : list bytes) : result (list (list bytes)) :=
  tree_loop (length leaves) [leaves].

(** [tree[-1][0] if tree else None] *)
Definition merkle_root (tree : list (list bytes)) : result (option bytes) :=
  match tree with
  | [] => Ok None
  | _ :: _ =>
      top <- getitem tree (-1);;
      root <- getitem top 0;;
      Ok (Some root)
  end.

(** The loop of [merkle_proof] over [tree[:-1]]; [node = layer[index]] is
    read, though not used. *)
Fixpoint merkle_proof_loop (layers : list (list bytes)) (index : Z)
  (proof : list bytes) : result (list bytes) :=
  match layers with
  | [] => Ok proof
  | layer :: layers' =>
      let pair_index := Z.lxor index 1 in
      proof' <- (if pair_index <? len layer
                 then sibling <- getitem layer pair_index;;
                      node <- getitem layer index;;
                      Ok (proof ++ [sibling])
                 else Ok proof);;
      merkle_proof_loop layers' (index / 2) proof'
  end.

Definition merkle_proof (tree : list (list bytes)) (index : Z)
  : result (list bytes) :=
  merkle_proof_loop (removelast tree) index [].

Fixpoint verify_loop (computed_hash : bytes) (proof : list bytes) : bytes :=
  match proof with
  | [] => computed_hash
  | sibling :: proof' =>
      verify_loop (if bytes_gt computed_hash sibling
                   then keccak (sibling ++ computed_hash)
                   else keccak (computed_hash ++ sibling)) proof'
  end.

Definition verify_proof (leaf : bytes) (proof : list bytes) (root : bytes) : bool :=
  bytes_eqb (verify_loop leaf proof) root.

(** [get_proof_for_address], with the module's [leaves] and [tree] as
    arguments; [(None, None)] when the leaf is not among the leaves. *)
Definition get_proof_for_address (leaves : list bytes)
  (tree : list (list bytes)) (tron_addr : str)
  : result (option bytes * option (list bytes)) :=
  leaf <- leaf tron_addr;;
  match list_index leaves leaf with
  | Raise (ValueError _) => Ok (None, None)
  | Raise e => Raise e
  | Ok index =>
      proof <- merkle_proof tree index;;
      Ok (Some leaf, Some proof)
  end.

(** The module's [leaves], [tree] and [root] for a [whitelist], and what
    the main part then finds for one address: [None] when it prints that
    the address is not in the whitelist, else [is_valid]. *)
Definition is_whitelisted (whitelist : list str) (addr : str)
  : result (option bool) :=
  leaves <- map_result leaf whitelist;;
  tree <- merkle_tree leaves;;
  root <- merkle_root tree;;
  found <- get_proof_for_address leaves tree addr;;
  match found, root with
  | (Some leaf, Some proof), Some root => Ok (Some (verify_proof leaf proof root))
  | (Some leaf, Some proof), None => Ok (Some false)
  | _, _ => Ok None
  end.

End WithHash.

End WhitelistRootDeploy.

(* ================================================================= *)
(** ** The engine and the encodings in the specification's words

    What the theorems below compare the scripts with: the sorted-pair
    combine rule, one reduction step of a layer under either rule for a
    trailing unpaired node, and the packed layout of a transfer record. *)

Module Spec.

Definition bytes_min (a b : bytes) : bytes := if bytes_le a b then a else b.
Definition bytes_max (a b : bytes) : bytes := if bytes_le a b then b else a.

(** The value of a byte string read as a big-endian number. *)
Definition be_value (b : bytes) : Z :=
  fold_left (fun acc x => 256 * acc + Z_of_byte x) b 0.

(** The 20 bytes a hexadecimal address string denotes. *)
Definition address20 (s : str) : bytes :=
  match fromhex (Web3.remove_0x_prefix s) with
  | Ok b => b
  | Raise _ => []
  end.

(** fromAddress(20) || toAddress(20) || amount(32) || nonce(8) ||
    timestamp(6) || recipientCount(4) || txType(1) || batchSalt(8) *)
Definition packed_transfer (from_address to_address : str)
  (amount nonce timestamp recipient_count tx_type batch_salt : Z) : bytes :=
  address20 from_address ++ address20 to_address ++ be_bytes 32 amount
    ++ be_bytes 8 nonce ++ be_bytes 6 timestamp ++ be_bytes 4 recipient_count
    ++ be_bytes 1 tx_type ++ be_bytes 8 batch_salt.

Definition in_uint (bits : Z) (v : Z) : Prop := 0 <= v < 2 ^ bits.

(** The packed layout of a record of generateBatchRoot.py. *)
Definition packed_batch (tx : BatchRoot.TransferData) : bytes :=
  packed_transfer (BatchRoot.from_address tx) (BatchRoot.to_address tx)
    (BatchRoot.amount tx) (BatchRoot.nonce tx) (BatchRoot.timestamp tx)
    (BatchRoot.recipient_count tx) (BatchRoot.tx_type tx) (BatchRoot.batch_salt tx).

(** What makes the hashed fields those of a TransferRecord: two
    hexadecimal addresses and numbers within their declared widths. *)
Definition transfer_record (from_address to_address : str)
  (amount nonce timestamp recipient_count tx_type batch_salt : Z) : Prop :=
  Web3.is_hex_address from_address = true
  /\ Web3.is_hex_address to_address = true
  /\ in_uint 256 amount /\ in_uint 64 nonce /\ in_uint 48 timestamp
  /\ in_uint 32 recipient_count /\ in_uint 8 tx_type /\ in_uint 64 batch_salt.

Definition batch_record (tx : BatchRoot.TransferData) : Prop :=
  transfer_record (BatchRoot.from_address tx) (BatchRoot.to_address tx)
    (BatchRoot.amount tx) (BatchRoot.nonce tx) (BatchRoot.timestamp tx)
    (BatchRoot.recipient_count tx) (BatchRoot.tx_type tx) (BatchRoot.batch_salt tx).

(** [a <= b] on [str] objects. *)
Definition str_le (a b : str) : Prop := str_compare a b <> Gt.

(** How a digit of a checksummed address relates to the digit it came
    from: a digit again, of the same value and the same lowercase form. *)
Definition same_digit (c c' : ascii) : Prop :=
  is_hex_digit c' = true /\ hex_val c' = hex_val c
  /\ lower_char c' = lower_char c.

Section WithHash.

Variable keccak : bytes -> bytes.

Definition combine (a b : bytes) : bytes :=
  keccak (bytes_min a b ++ bytes_max a b).

(** One layer reduction; a trailing unpaired node is promoted. *)
Fixpoint reduce_promote (layer : list bytes) : list bytes :=
  match layer with
  | [] => []
  | [x] => [x]
  | a :: b :: rest => combine a b :: reduce_promote rest
  end.

(** One layer reduction; a trailing unpaired node is paired with itself. *)
Fixpoint reduce_duplicate (layer : list bytes) : list bytes :=
  match layer with
  | [] => []
  | [x] => [combine x x]
  | a :: b :: rest => combine a b :: reduce_duplicate rest
  end.

(** The layers that follow [cur] when [reduce] is repeated until one
    node is left (at most [n] times). *)
Fixpoint layers_after (reduce : list bytes -> list bytes) (n : nat)
  (cur : list bytes) : list (list bytes) :=
  match n with
  | O => []
  | S n' =>
      if (1 <? length cur)%nat
      then reduce cur :: layers_after reduce n' (reduce cur)
      else []
  end.

(** [rest] is what repeated reduction makes of [prev]: each layer has
    more than one node and is followed by its reduction, until a layer
    of at most one node ends the list. *)
Fixpoint reduces (reduce : list bytes -> list bytes) (prev : list bytes)
  (rest : list (list bytes)) : Prop :=
  match rest with
  | [] => (length prev <= 1)%nat
  | l :: rest' =>
      (1 < length prev)%nat /\ l = reduce prev /\ reduces reduce l rest'
  end.

(** Folding [combine] over a proof, starting from the leaf. *)
Definition fold_proof (leaf : bytes) (proof : list bytes) : bytes :=
  fold_left combine proof leaf.

(** The object [MerkleTree(leaves)] of the batch script for non-empty
    [leaves], in these words. *)
Definition batch_tree_of (leaves : list bytes) : BatchRoot.MerkleTree :=
  {| BatchRoot.leaves := leaves;
     BatchRoot.tree := leaves :: layers_after reduce_promote (length leaves) leaves |}.

End WithHash.

End Spec.

(* ================================================================= *)
(** ** Inputs taken from the scripts *)

Module Sample.

Definition keccak256 : bytes -> bytes := Keccak.keccak256.

Definition s (x : string) : str := list_ascii_of_string x.
Definition unhex (x : string) : bytes :=
  match fromhex (s x) with
  | Ok b => b
  | Raise _ => []
  end.

(** whitelist/generateRoot.py, lines 59-63. *)
Definition user1 : str := s "0x70997970C51812dc3A010C7d01b50e0d17dc79C8".
Definition user2 : str := s "0xBD26367c4B23A6D3713A1e1a50B2D67E8748cB98".
Definition user3 : str := s "0xf39Fd6e51aad88F6F4ce6aB8827279cffFb92266".
Definition whitelist : list str := [user1; user2; user3].

(** The leaves of that whitelist. *)
Definition leaf1 : bytes :=
  unhex "7ceb58780fb137bb02223b79c88bc6404f736f8bb4d1f0895d9884122804fb73".
Definition leaf2 : bytes :=
  unhex "6a65260b54e189b9d496c6e25ab6e91aef04672387dc6e4b559dd6f6335197a6".
Definition leaf3 : bytes :=
  unhex "d9c5115d8ca09413513b0348ccd4aa5d5d2b8183823763b527bfd81f40d86f2a".

(** batch/generateBatchRoot.py, the first transfer of
    [generate_test_transactions], at a fixed [base_timestamp]. *)
Definition SENDER : str := s "0xf39Fd6e51aad88F6F4ce6aB8827279cffFb92266".
Definition RECIPIENT_1 : str := s "0x70997970C51812dc3A010C7d01b50e0d17dc79C8".
Definition ONE_TRX : Z := 1000000.
Definition base_timestamp : Z := 1700000000.

Definition transfer (nonce batch_id : Z) : BatchRoot.TransferData :=
  {| BatchRoot.from_address := SENDER;
     BatchRoot.to_address := RECIPIENT_1;
     BatchRoot.amount := 100 * ONE_TRX;
     BatchRoot.nonce := nonce;
     BatchRoot.timestamp := base_timestamp;
     BatchRoot.recipient_count := 1;
     BatchRoot.batch_id := batch_id;
     BatchRoot.tx_type := BatchRoot.DELAYED;
     BatchRoot.batch_salt := 1 |}.

(** batch/generateBatchRootDeploy.py, the first transfer of
    [generate_batch]; the two addresses are what [tron_to_evm_address]
    gives for [TRON_SENDER] and [TRON_RECIPIENT]. *)
Definition TRON_SENDER : str := s "TKWvD71EMFTpFVGZyqqX9fC6MQgcR9H76M".
Definition TRON_RECIPIENT : str := s "TFZMxv9HUzvsL3M7obrvikSQkuvJsopgMU".

Definition deploy_transfer (nonce batch_id : Z) : BatchRootDeploy.TransferData :=
  {| BatchRootDeploy.from_address := s "0x68b86Ce0e9E72367e20a0e144bECE5e2Bb61f403";
     BatchRootDeploy.to_address := s "0x3D4e40ecD81BADC2aEE1e62E694a6c969F29586e";
     BatchRootDeploy.original_tron_from := TRON_SENDER;
     BatchRootDeploy.original_tron_to := TRON_RECIPIENT;
     BatchRootDeploy.amount := 10 * 10 ^ 6;
     BatchRootDeploy.nonce := nonce;
     BatchRootDeploy.timestamp := base_timestamp;
     BatchRootDeploy.recipient_count := 1;
     BatchRootDeploy.batch_id := batch_id;
     BatchRootDeploy.tx_type := BatchRootDeploy.DELAYED;
     BatchRootDeploy.batch_salt := 1 |}.

(** [base58.b58decode_check] on the two addresses of
    whitelist/generateWhitelistRootDeploy.py, lines 51-54. *)
(** What [Web3.solidity_keccak] hashes for [transfer (2 ^ 64) 1]: 199
    hexadecimal digits, a [0] put in front. *)
Definition oversized_nonce_buffer : bytes :=
  unhex ("0f39fd6e51aad88f6f4ce6ab8827279cfffb92266"
         ++ "70997970c51812dc3a010c7d01b50e0d17dc79c8"
         ++ "0000000000000000000000000000000000000000000000000000000005f5e100"
         ++ "10000000000000000" ++ "00006553f100" ++ "00000001" ++ "00"
         ++ "0000000000000001").

Definition b58decode_check (a : str) : result bytes :=
  if list_eq_dec ascii_dec a (s "TKWvD71EMFTpFVGZyqqX9fC6MQgcR9H76M")
  then Ok (unhex "4168b86ce0e9e72367e20a0e144bece5e2bb61f403")
  else if list_eq_dec ascii_dec a (s "TVKAAcqpQxz3J4waayePr8dQjSQ2XHkdbF")
  then Ok (unhex "41d43057aa40d69cf6281db374f1acaafd904329c1")
  else Raise (ValueError "Invalid checksum").

End Sample.

(* ================================================================= *)
(** ** Facts about the Python values *)

Section PyFacts.

Lemma byte_of_Z_of_byte (b : byte) : byte_of_Z (Z_of_byte b) = b.
Proof.
  unfold byte_of_Z, Z_of_byte.
  pose proof (Byte.to_N_bounded b) as Hb.
  rewrite Z.mod_small by lia.
  rewrite N2Z.id, Byte.of_to_N. reflexivity.
Qed.

Lemma Z_of_byte_range (b : byte) : 0 <= Z_of_byte b < 256.
Proof.
  unfold Z_of_byte. pose proof (Byte.to_N_bounded b). lia.
Qed.

Lemma Z_of_byte_of_Z (z : Z) : Z_of_byte (byte_of_Z z) = z mod 256.
Proof.
  unfold byte_of_Z, Z_of_byte.
  pose proof (Z.mod_pos_bound z 256 ltac:(lia)) as Hz.
  destruct (Byte.of_N (Z.to_N (z mod 256))) as [b|] eqn:E.
  - apply Byte.to_of_N in E. rewrite E. lia.
  - apply Byte.of_N_None_iff in E. lia.
Qed.

Lemma to_N_inj (x y : byte) : Byte.to_N x = Byte.to_N y -> x = y.
Proof.
  intros H. pose proof (Byte.of_to_N x) as Hx.
  rewrite H, Byte.of_to_N in Hx. congruence.
Qed.

Lemma bytes_compare_refl (a : bytes) : bytes_compare a a = Eq.
Proof.
  induction a as [|x a IH]; simpl; [reflexivity|].
  rewrite N.compare_refl. exact IH.
Qed.

Lemma bytes_compare_eq (a b : bytes) : bytes_compare a b = Eq -> a = b.
Proof.
  revert b. induction a as [|x a IH]; intros [|y b]; simpl; try discriminate.
  - reflexivity.
  - destruct (N.compare (Byte.to_N x) (Byte.to_N y)) eqn:E; try discriminate.
    intros H. apply N.compare_eq in E. apply to_N_inj in E.
    f_equal; auto.
Qed.

Lemma bytes_compare_antisym (a b : bytes) :
  bytes_compare b a = CompOpp (bytes_compare a b).
Proof.
  revert b. induction a as [|x a IH]; intros [|y b]; simpl; try reflexivity.
  rewrite (N.compare_antisym (Byte.to_N x) (Byte.to_N y)).
  destruct (N.compare (Byte.to_N x) (Byte.to_N y)); simpl; auto.
Qed.

Lemma bytes_eqb_refl (a : bytes) : bytes_eqb a a = true.
Proof. unfold bytes_eqb. now rewrite bytes_compare_refl. Qed.

Lemma bytes_eqb_eq (a b : bytes) : bytes_eqb a b = true <-> a = b.
Proof.
  split.
  - unfold bytes_eqb. destruct (bytes_compare a b) eqn:E; try discriminate.
    intros _. now apply bytes_compare_eq.
  - intros ->. apply bytes_eqb_refl.
Qed.

(** On strings of one length the lexicographic order is the order of the
    big-endian values. *)
Lemma be_value_step (b : bytes) (acc : Z) :
  fold_left (fun acc x => 256 * acc + Z_of_byte x) b acc
  = acc * 256 ^ Z.of_nat (length b) + Spec.be_value b.
Proof.
  unfold Spec.be_value. revert acc.
  induction b as [|x b IH]; intros acc.
  - simpl. lia.
  - cbn [fold_left length]. rewrite IH, (IH (256 * 0 + Z_of_byte x)).
    rewrite Nat2Z.inj_succ, Z.pow_succ_r by lia. ring.
Qed.

Lemma be_value_cons (x : byte) (b : bytes) :
  Spec.be_value (x :: b) = Z_of_byte x * 256 ^ Z.of_nat (length b) + Spec.be_value b.
Proof.
  unfold Spec.be_value at 1. cbn [fold_left].
  rewrite be_value_step. f_equal. 
Qed.

Lemma be_value_range (b : bytes) : 0 <= Spec.be_value b < 256 ^ Z.of_nat (length b).
Proof.
  induction b as [|x b IH].
  - cbn. lia.
  - rewrite be_value_cons. cbn [length].
    rewrite Nat2Z.inj_succ, Z.pow_succ_r by lia.
    pose proof (Z_of_byte_range x). nia.
Qed.

Lemma bytes_compare_big_endian (a b : bytes) :
  length a = length b ->
  bytes_compare a b = Z.compare (Spec.be_value a) (Spec.be_value b).
Proof.
  revert b. induction a as [|x a IH]; intros [|y b] Hlen; try discriminate.
  - reflexivity.
  - injection Hlen as Hlen. simpl bytes_compare.
    rewrite !be_value_cons, <- Hlen.
    pose proof (be_value_range a) as Ha.
    pose proof (be_value_range b) as Hb. rewrite <- Hlen in Hb.
    pose proof (Z_of_byte_range x) as Hx.
    pose proof (Z_of_byte_range y) as Hy.
    unfold Z_of_byte in *.
    destruct (N.compare_spec (Byte.to_N x) (Byte.to_N y)) as [E|E|E].
    + rewrite E, (IH b Hlen).
      destruct (Z.compare_spec (Spec.be_value a) (Spec.be_value b));
        symmetry; [apply Z.compare_eq_iff|apply Z.compare_lt_iff|apply Z.compare_gt_iff]; lia.
    + symmetry. apply Z.compare_lt_iff. nia.
    + symmetry. apply Z.compare_gt_iff. nia.
Qed.

End PyFacts.

(* ================================================================= *)
(** ** Facts about hexadecimal strings *)

Section HexFacts.

Lemma pair_ind {A : Type} (P : list A -> Prop) :
  P [] -> (forall x, P [x]) -> (forall x y l, P l -> P (x :: y :: l)) ->
  forall l, P l.
Proof.
  intros H0 H1 H2.
  assert (H : forall l, P l /\ forall x, P (x :: l)).
  { induction l as [|y l [IH1 IH2]]; split; auto. }
  intros l. apply H.
Qed.

Lemma hex_val_hex_char (n : Z) : 0 <= n < 16 -> hex_val (hex_char n) = Some n.
Proof.
  intros H. rewrite <- (Z2Nat.id n) at 2 by lia.
  unfold hex_char.
  assert (Hlt : (Z.to_nat n < 16)%nat) by lia.
  revert Hlt. generalize (Z.to_nat n) as m. intros m Hlt.
  do 16 (destruct m as [|m]; [reflexivity|]). lia.
Qed.

Lemma is_hex_digit_hex_char (n : Z) : 0 <= n < 16 -> is_hex_digit (hex_char n) = true.
Proof. intros H. unfold is_hex_digit. now rewrite hex_val_hex_char. Qed.

Lemma length_hex_of_bytes (b : bytes) : length (hex_of_bytes b) = (2 * length b)%nat.
Proof.
  unfold hex_of_bytes. induction b as [|x b IH]; simpl; [reflexivity|].
  rewrite IH. lia.
Qed.

Lemma hex_of_bytes_app (a b : bytes) :
  hex_of_bytes (a ++ b) = hex_of_bytes a ++ hex_of_bytes b.
Proof. unfold hex_of_bytes. apply flat_map_app. Qed.

Lemma hex_of_bytes_digits (b : bytes) :
  Forall (fun c => is_hex_digit c = true) (hex_of_bytes b).
Proof.
  unfold hex_of_bytes. induction b as [|x b IH]; simpl; [constructor|].
  pose proof (Z_of_byte_range x) as Hx.
  constructor; [|constructor; [|exact IH]]; apply is_hex_digit_hex_char.
  - split; [apply Z.div_pos; lia | apply Z.div_lt_upper_bound; lia].
  - apply Z.mod_pos_bound; lia.
Qed.

Lemma fromhex_app (s1 s2 : str) (b1 : bytes) :
  fromhex s1 = Ok b1 ->
  fromhex (s1 ++ s2) = (b2 <- fromhex s2;; Ok (b1 ++ b2)).
Proof.
  revert b1. induction s1 as [| x | x y s1 IH] using pair_ind; intros b1 H.
  - injection H as <-. simpl. destruct (fromhex s2); reflexivity.
  - discriminate.
  - cbn [fromhex app] in *.
    destruct (hex_val x); [|discriminate].
    destruct (hex_val y); [|discriminate].
    destruct (fromhex s1) as [b|e] eqn:E; [|discriminate].
    injection H as <-. rewrite (IH b eq_refl).
    destruct (fromhex s2); reflexivity.
Qed.

Lemma fromhex_hex_of_bytes (b : bytes) : fromhex (hex_of_bytes b) = Ok b.
Proof.
  induction b as [|x b IH]; [reflexivity|].
  change (hex_of_bytes (x :: b))
    with (hex_char (Z_of_byte x / 16) :: hex_char (Z_of_byte x mod 16) :: hex_of_bytes b).
  cbn [fromhex].
  pose proof (Z_of_byte_range x) as Hx.
  rewrite !hex_val_hex_char.
  - rewrite IH. cbn [bind]. rewrite <- Z.div_mod by lia.
    now rewrite byte_of_Z_of_byte.
  - apply Z.mod_pos_bound; lia.
  - split; [apply Z.div_pos; lia | apply Z.div_lt_upper_bound; lia].
Qed.

(** A string of an even number of digits decodes, to half as many bytes. *)
Lemma fromhex_digits (s : str) :
  forallb is_hex_digit s = true -> Nat.even (length s) = true ->
  exists b, fromhex s = Ok b /\ (2 * length b = length s)%nat.
Proof.
  induction s as [| x | x y s IH] using pair_ind; intros Hd He.
  - exists []. split; reflexivity.
  - discriminate.
  - cbn [forallb] in Hd. apply andb_prop in Hd as [Hx Hd].
    apply andb_prop in Hd as [Hy Hd].
    destruct (IH Hd He) as (b & Hb & Hl).
    unfold is_hex_digit in Hx, Hy. cbn [fromhex].
    destruct (hex_val x) as [vx|]; [|discriminate].
    destruct (hex_val y) as [vy|]; [|discriminate].
    rewrite Hb. eexists. split; [reflexivity|]. simpl. lia.
Qed.

(** Digits with the same values decode to the same bytes. *)
Lemma fromhex_same_values (s s' : str) :
  Forall2 (fun c c' => hex_val c' = hex_val c) s s' -> fromhex s' = fromhex s.
Proof.
  revert s'. induction s as [| x | x y s IH] using pair_ind; intros s' H.
  - inversion H. reflexivity.
  - inversion H as [|? x' ? t' Hx Ht]; subst. inversion Ht; subst.
    reflexivity.
  - inversion H as [|? x' ? t' Hx Ht]; subst.
    inversion Ht as [|? y' ? t'' Hy Ht']; subst.
    cbn [fromhex]. rewrite Hx, Hy, (IH _ Ht'). reflexivity.
Qed.

(** *** [to_hex_with_size] on a value that fits *)

Lemma length_be_hex (n : nat) (v : Z) : length (be_hex n v) = n.
Proof. induction n; simpl; auto. Qed.

Lemma length_be_bytes (n : nat) (v : Z) : length (be_bytes n v) = n.
Proof. induction n; simpl; auto. Qed.

Lemma be_hex_leading_zero (n : nat) (v : Z) :
  0 <= v < 16 ^ Z.of_nat n -> be_hex (S n) v = "0"%char :: be_hex n v.
Proof.
  intros H. cbn [be_hex]. rewrite Z.div_small by lia. reflexivity.
Qed.

Lemma be_hex_zeros (n d : nat) (v : Z) :
  0 <= v < 16 ^ Z.of_nat n ->
  be_hex (d + n) v = repeat "0"%char d ++ be_hex n v.
Proof.
  intros H. induction d as [|d IH]; [reflexivity|].
  change (S d + n)%nat with (S (d + n)).
  rewrite be_hex_leading_zero, IH; [reflexivity|].
  split; [lia|].
  apply Z.lt_le_trans with (16 ^ Z.of_nat n); [lia|].
  apply Z.pow_le_mono_r; lia.
Qed.

Lemma ndigits_bound (v : Z) : 0 <= v -> v < 16 ^ Z.of_nat (ndigits v).
Proof.
  intros H. unfold ndigits.
  destruct (Z.eqb_spec v 0) as [->|Hv]; [reflexivity|].
  pose proof (Z.log2_nonneg v) as Hl.
  assert (Hq : 0 <= Z.log2 v / 4) by (apply Z.div_pos; lia).
  rewrite Z2Nat.id by lia.
  change 16 with (2 ^ 4). rewrite <- Z.pow_mul_r by lia.
  apply Z.log2_lt_pow2; [lia|].
  pose proof (Z.mod_pos_bound (Z.log2 v) 4 ltac:(lia)).
  pose proof (Z.div_mod (Z.log2 v) 4 ltac:(lia)). lia.
Qed.

Lemma ndigits_le (v : Z) (w : nat) :
  0 <= v < 16 ^ Z.of_nat w -> (1 <= w)%nat -> (ndigits v <= w)%nat.
Proof.
  intros H Hw. unfold ndigits.
  destruct (Z.eqb_spec v 0) as [->|Hv]; [exact Hw|].
  assert (Hl : Z.log2 v < 4 * Z.of_nat w).
  { apply Z.log2_lt_pow2; [lia|].
    rewrite Z.pow_mul_r by lia. exact (proj2 H). }
  pose proof (Z.log2_nonneg v).
  assert (Z.log2 v / 4 < Z.of_nat w) by (apply Z.div_lt_upper_bound; lia).
  assert (0 <= Z.log2 v / 4) by (apply Z.div_pos; lia).
  lia.
Qed.

Lemma zfill_hex_digits (w : nat) (v : Z) :
  0 <= v < 16 ^ Z.of_nat w -> (1 <= w)%nat ->
  zfill w (hex_digits v) = be_hex w v.
Proof.
  intros H Hw. unfold zfill, hex_digits.
  pose proof (ndigits_le v w H Hw) as Hn.
  rewrite length_be_hex.
  replace w with ((w - ndigits v) + ndigits v)%nat at 2 by lia.
  rewrite be_hex_zeros; [reflexivity|].
  split; [lia | apply ndigits_bound; lia].
Qed.

Lemma be_hex_be_bytes (n : nat) (v : Z) :
  be_hex (2 * n) v = hex_of_bytes (be_bytes n v).
Proof.
  induction n as [|k IH]; [reflexivity|].
  replace (2 * S k)%nat with (S (S (2 * k))) by lia.
  cbn [be_hex be_bytes].
  change (hex_of_bytes (?x :: ?b))
    with (hex_char (Z_of_byte x / 16) :: hex_char (Z_of_byte x mod 16) :: hex_of_bytes b).
  rewrite IH, Z_of_byte_of_Z.
  assert (Hp : 16 ^ Z.of_nat (2 * k) = 256 ^ Z.of_nat k).
  { rewrite Nat2Z.inj_mul, Z.pow_mul_r by lia. reflexivity. }
  assert (Hpos : 0 < 256 ^ Z.of_nat k) by (apply Z.pow_pos_nonneg; lia).
  rewrite Nat2Z.inj_succ, Z.pow_succ_r, Hp by lia.
  set (p := 256 ^ Z.of_nat k) in *.
  rewrite Z.mul_comm, <- Z.div_div by lia.
  set (q := v / p).
  change 256 with (16 * 16).
  rewrite Z.rem_mul_r by lia.
  f_equal; [|f_equal]; f_equal; symmetry.
  - rewrite (Z.mul_comm 16), Z.div_add by lia.
    rewrite (Z.div_small (q mod 16)) by (apply Z.mod_pos_bound; lia).
    reflexivity.
  - rewrite (Z.mul_comm 16), Z.mod_add by lia.
    apply Z.mod_mod; lia.
Qed.

Lemma to_hex_with_size_fits (k : nat) (v : Z) :
  (1 <= k)%nat -> 0 <= v < 2 ^ Z.of_nat (8 * k) ->
  Web3.to_hex_with_size v (8 * k) = hex_of_bytes (be_bytes k v).
Proof.
  intros Hk H. unfold Web3.to_hex_with_size.
  replace (8 * k / 4)%nat with (2 * k)%nat.
  2:{ replace (8 * k)%nat with ((2 * k) * 4)%nat by lia.
      now rewrite Nat.div_mul. }
  rewrite zfill_hex_digits, be_hex_be_bytes; [reflexivity| |lia].
  split; [lia|].
  change 16 with (2 ^ 4). rewrite <- Z.pow_mul_r by lia.
  replace (4 * Z.of_nat (2 * k)) with (Z.of_nat (8 * k)) by lia.
  lia.
Qed.

End HexFacts.

(* ================================================================= *)
(** ** Facts about the library calls *)

Section Web3Facts.

Import Web3 Spec.

Variable keccak : bytes -> bytes.
Hypothesis keccak_length : forall m, length (keccak m) = 32%nat.

Lemma solidity_keccak_pair (a b : bytes) :
  solidity_keccak keccak [bytes32; bytes32] [PBytes a; PBytes b]
  = Ok (keccak (a ++ b)).
Proof.
  unfold solidity_keccak. cbn [length Nat.eqb hex_encode_all hex_encode_abi_type bind].
  rewrite app_nil_r, <- hex_of_bytes_app.
  unfold to_bytes_hexstr. rewrite length_hex_of_bytes.
  replace (Nat.odd (2 * length (a ++ b))) with false.
  2:{ symmetry. rewrite <- Nat.negb_even, Nat.even_mul. reflexivity. }
  rewrite fromhex_hex_of_bytes. reflexivity.
Qed.

Lemma hex_digit_cases (c : ascii) :
  is_hex_digit c = true ->
  same_digit c (lower_char c) /\ same_digit c (upper_char (lower_char c)).
Proof.
  unfold same_digit.
  destruct c as [[] [] [] [] [] [] [] []]; vm_compute; intros H;
    try discriminate H; repeat split.
Qed.

Lemma not_hex_x (c : ascii) :
  ((c =? "x")%char || (c =? "X")%char) = true -> is_hex_digit c = false.
Proof.
  intros H. apply orb_prop in H as [H|H]; apply Ascii.eqb_eq in H; subst;
    reflexivity.
Qed.

Lemma is_hex_address_body (s : str) :
  is_hex_address s = true -> is_hex40 (remove_0x_prefix s) = true.
Proof.
  unfold is_hex_address, remove_0x_prefix. intros H.
  destruct (is_0x_prefixed s) eqn:E.
  - apply orb_prop in H as [H|H]; [|exact H].
    exfalso. unfold is_hex40 in H. apply andb_prop in H as [_ H].
    destruct s as [|a [|b s]]; try discriminate.
    cbn [is_0x_prefixed] in E. apply andb_prop in E as [_ E].
    apply not_hex_x in E. cbn [forallb] in H.
    rewrite E in H. rewrite andb_false_r in H. simpl in H. discriminate.
  - rewrite orb_false_r in H. exact H.
Qed.

Lemma checksum_chars_spec (body address_hash : str) :
  (length body <= length address_hash)%nat ->
  Forall (fun h => is_hex_digit h = true) address_hash ->
  forallb is_hex_digit body = true ->
  exists r, checksum_chars (lower body) address_hash = Ok r
            /\ Forall2 same_digit body r.
Proof.
  revert address_hash.
  induction body as [|c body IH]; intros [|h hash] Hlen Hh Hb.
  - exists []. split; [reflexivity|constructor].
  - exists []. split; [reflexivity|constructor].
  - simpl in Hlen. lia.
  - cbn [forallb] in Hb. apply andb_prop in Hb as [Hc Hb].
    inversion Hh as [|? ? Hh1 Hh2]; subst.
    destruct (IH hash) as (r & Hr & HR); [simpl in Hlen; lia|assumption|assumption|].
    cbn [lower map checksum_chars].
    unfold is_hex_digit in Hh1.
    destruct (hex_val h) as [d|]; [|discriminate].
    fold (lower body). rewrite Hr. cbn [bind].
    eexists. split; [reflexivity|].
    constructor; [|exact HR].
    destruct (hex_digit_cases c Hc) as [Hl Hu].
    destruct (7 <? d); assumption.
Qed.

Lemma same_digit_lower (body r : str) :
  Forall2 same_digit body r -> lower r = lower body.
Proof.
  induction 1 as [|c c' body r (_ & _ & Hl) _ IH]; [reflexivity|].
  cbn [lower map]. fold (lower r) (lower body). now rewrite Hl, IH.
Qed.

Lemma same_digit_digits (body r : str) :
  Forall2 same_digit body r -> forallb is_hex_digit r = true.
Proof.
  induction 1 as [|c c' body r (Hd & _ & _) _ IH]; [reflexivity|].
  cbn [forallb]. now rewrite Hd, IH.
Qed.

Lemma same_digit_fromhex (body r : str) :
  Forall2 same_digit body r -> fromhex r = fromhex body.
Proof.
  intros H. apply fromhex_same_values.
  induction H as [|c c' body r (_ & Hv & _) _ IH]; constructor; assumption.
Qed.

Lemma to_checksum_address_unfold (s : str) :
  is_hex_address s = true ->
  to_checksum_address keccak s
  = (r <- checksum_chars (lower (remove_0x_prefix s))
           (hex_of_bytes (keccak (map byte_of_ascii (lower (remove_0x_prefix s)))));;
     Ok ("0"%char :: "x"%char :: r)).
Proof.
  intros H. unfold to_checksum_address, to_normalized_address.
  rewrite H. reflexivity.
Qed.

Lemma to_checksum_address_spec (s : str) :
  is_hex_address s = true ->
  exists r, to_checksum_address keccak s = Ok ("0"%char :: "x"%char :: r)
            /\ Forall2 same_digit (remove_0x_prefix s) r
            /\ length r = 40%nat.
Proof.
  intros H. rewrite (to_checksum_address_unfold s H).
  pose proof (is_hex_address_body s H) as Hb.
  unfold is_hex40 in Hb. apply andb_prop in Hb as [Hl Hd].
  apply Nat.eqb_eq in Hl.
  destruct (checksum_chars_spec (remove_0x_prefix s)
              (hex_of_bytes (keccak (map byte_of_ascii (lower (remove_0x_prefix s))))))
    as (r & Hr & HR).
  - rewrite length_hex_of_bytes, keccak_length, Hl. lia.
  - apply hex_of_bytes_digits.
  - exact Hd.
  - exists r. rewrite Hr. split; [reflexivity|]. split; [exact HR|].
    rewrite <- (Forall2_length HR). exact Hl.
Qed.

(** The hex encoding [solidity_keccak] gives a checksummed address is
    its 40 digits. *)
Lemma hex_encode_checksummed (s r : str) :
  is_hex_address s = true ->
  to_checksum_address keccak s = Ok ("0"%char :: "x"%char :: r) ->
  Forall2 same_digit (remove_0x_prefix s) r ->
  length r = 40%nat ->
  hex_encode_abi_type keccak address (PStr ("0"%char :: "x"%char :: r)) = Ok r.
Proof.
  intros Hs Hc HR Hl.
  assert (Ha : is_hex_address ("0"%char :: "x"%char :: r) = true).
  { unfold is_hex_address. apply orb_true_iff. right.
    cbn [is_0x_prefixed skipn]. rewrite !Ascii.eqb_refl. cbn [andb orb].
    unfold is_hex40. rewrite Hl, (same_digit_digits _ _ HR). reflexivity. }
  assert (Hr : remove_0x_prefix ("0"%char :: "x"%char :: r) = r).
  { unfold remove_0x_prefix. cbn [is_0x_prefixed].
    rewrite !Ascii.eqb_refl. reflexivity. }
  cbn [hex_encode_abi_type]. unfold is_checksum_address.
  rewrite Ha. cbn [andb].
  rewrite (to_checksum_address_unfold _ Ha), Hr, (same_digit_lower _ _ HR).
  rewrite (to_checksum_address_unfold _ Hs) in Hc.
  destruct (checksum_chars _ _) as [r'|e]; [|discriminate].
  cbn [bind] in *. injection Hc as ->.
  destruct (list_eq_dec ascii_dec _ _) as [_|Hne]; [|now elim Hne].
  unfold zfill. rewrite Hl. reflexivity.
Qed.

(** A hexadecimal address string denotes 20 bytes. *)
Lemma address20_spec (s : str) :
  is_hex_address s = true ->
  fromhex (remove_0x_prefix s) = Ok (Spec.address20 s)
  /\ length (Spec.address20 s) = 20%nat.
Proof.
  intros H. pose proof (is_hex_address_body s H) as Hb.
  unfold is_hex40 in Hb. apply andb_prop in Hb as [Hl Hd].
  apply Nat.eqb_eq in Hl.
  destruct (fromhex_digits _ Hd) as (b & Hb & Hlen).
  { rewrite Hl. reflexivity. }
  unfold Spec.address20. rewrite Hb. split; [reflexivity|lia].
Qed.

End Web3Facts.

(* ================================================================= *)
(** ** The transfer leaf hash *)

Section TransferHash.

Import Web3 Spec.

Variable keccak : bytes -> bytes.
Hypothesis keccak_length : forall m, length (keccak m) = 32%nat.

Lemma hex_encode_uint (bits k : nat) (v : Z) :
  bits = (8 * k)%nat -> (1 <= k)%nat -> in_uint (Z.of_nat bits) v ->
  hex_encode_abi_type keccak (uint bits) (PInt v)
  = Ok (hex_of_bytes (be_bytes k v)).
Proof.
  intros -> Hk [H0 H1]. cbn [hex_encode_abi_type].
  destruct (Z.leb_spec 0 v) as [_|]; [|lia].
  rewrite to_hex_with_size_fits; [reflexivity|exact Hk|split; assumption].
Qed.

(** The packed encoding of the eight hashed fields of a record whose
    fields fit their ABI types. *)
Lemma solidity_keccak_transfer (from_ to_ f t : str)
  (amount nonce timestamp recipient_count tx_type batch_salt : Z) :
  is_hex_address from_ = true -> is_hex_address to_ = true ->
  to_checksum_address keccak from_ = Ok f ->
  to_checksum_address keccak to_ = Ok t ->
  in_uint 256 amount -> in_uint 64 nonce -> in_uint 48 timestamp ->
  in_uint 32 recipient_count -> in_uint 8 tx_type -> in_uint 64 batch_salt ->
  solidity_keccak keccak
    [address; address; uint 256; uint 64; uint 48; uint 32; uint 8; uint 64]
    [PStr f; PStr t; PInt amount; PInt nonce; PInt timestamp;
     PInt recipient_count; PInt tx_type; PInt batch_salt]
  = Ok (keccak (packed_transfer from_ to_ amount nonce timestamp
                  recipient_count tx_type batch_salt)).
Proof.
  intros Hf Ht Hcf Hct Ha Hn Hts Hrc Hty Hs.
  destruct (to_checksum_address_spec keccak keccak_length from_ Hf)
    as (rf & Ef & Rf & Lf).
  destruct (to_checksum_address_spec keccak keccak_length to_ Ht)
    as (rt & Et & Rt & Lt).
  rewrite Hcf in Ef. injection Ef as ->.
  rewrite Hct in Et. injection Et as ->.
  destruct (address20_spec from_ Hf) as [Bf _].
  destruct (address20_spec to_ Ht) as [Bt _].
  unfold solidity_keccak.
  cbn [length Nat.eqb hex_encode_all].
  rewrite (hex_encode_checksummed keccak from_ rf Hf Hcf Rf Lf).
  rewrite (hex_encode_checksummed keccak to_ rt Ht Hct Rt Lt).
  rewrite (hex_encode_uint 256 32 amount eq_refl) by (try exact Ha; lia).
  rewrite (hex_encode_uint 64 8 nonce eq_refl) by (try exact Hn; lia).
  rewrite (hex_encode_uint 48 6 timestamp eq_refl) by (try exact Hts; lia).
  rewrite (hex_encode_uint 32 4 recipient_count eq_refl) by (try exact Hrc; lia).
  rewrite (hex_encode_uint 8 1 tx_type eq_refl) by (try exact Hty; lia).
  rewrite (hex_encode_uint 64 8 batch_salt eq_refl) by (try exact Hs; lia).
  cbn [bind]. rewrite app_nil_r, <- !hex_of_bytes_app.
  unfold to_bytes_hexstr.
  rewrite !length_app, Lf, Lt, length_hex_of_bytes.
  replace (Nat.odd _) with false.
  2:{ symmetry. rewrite <- Nat.negb_even, !Nat.even_add, Nat.even_mul.
      reflexivity. }
  rewrite (fromhex_app rf _ (address20 from_)).
  2:{ rewrite (same_digit_fromhex _ _ Rf). exact Bf. }
  rewrite (fromhex_app rt _ (address20 to_)).
  2:{ rewrite (same_digit_fromhex _ _ Rt). exact Bt. }
  rewrite fromhex_hex_of_bytes. reflexivity.
Qed.

Lemma length_packed_transfer (from_ to_ : str)
  (amount nonce timestamp recipient_count tx_type batch_salt : Z) :
  is_hex_address from_ = true -> is_hex_address to_ = true ->
  length (packed_transfer from_ to_ amount nonce timestamp
            recipient_count tx_type batch_salt) = 99%nat.
Proof.
  intros Hf Ht. unfold packed_transfer.
  rewrite !length_app, !length_be_bytes.
  rewrite (proj2 (address20_spec from_ Hf)), (proj2 (address20_spec to_ Ht)).
  reflexivity.
Qed.

End TransferHash.

(* ================================================================= *)
(** ** The combine rule and the layer reductions *)

Section EngineFacts.

Import Web3 Spec.

Variable keccak : bytes -> bytes.

Local Abbreviation combine := (Spec.combine keccak).

Lemma bytes_min_comm (a b : bytes) : bytes_min a b = bytes_min b a.
Proof.
  unfold bytes_min, bytes_le, bytes_gt.
  rewrite (bytes_compare_antisym a b).
  destruct (bytes_compare a b) eqn:E; simpl; try reflexivity.
  now apply bytes_compare_eq.
Qed.

Lemma bytes_max_comm (a b : bytes) : bytes_max a b = bytes_max b a.
Proof.
  unfold bytes_max, bytes_le, bytes_gt.
  rewrite (bytes_compare_antisym a b).
  destruct (bytes_compare a b) eqn:E; simpl; try reflexivity.
  symmetry. now apply bytes_compare_eq.
Qed.

Lemma combine_comm (a b : bytes) : combine a b = combine b a.
Proof.
  unfold Spec.combine. now rewrite (bytes_min_comm a b), (bytes_max_comm a b).
Qed.

Lemma combine_same (a : bytes) : combine a a = keccak (a ++ a).
Proof.
  unfold Spec.combine, bytes_min, bytes_max. destruct (bytes_le a a); reflexivity.
Qed.

(** Each script's way of hashing a pair is [combine]. *)

Lemma hash_pair_combine (a b : bytes) :
  WhitelistRoot.hash_pair keccak a b = combine a b.
Proof.
  unfold WhitelistRoot.hash_pair, Spec.combine, bytes_min, bytes_max,
    bytes_lt, bytes_le, bytes_gt.
  destruct (bytes_compare a b) eqn:E; simpl; try reflexivity.
  apply bytes_compare_eq in E. now subst.
Qed.

Lemma whitelist_verify_step_combine (h p : bytes) :
  (if bytes_lt h p then keccak (h ++ p) else keccak (p ++ h)) = combine h p.
Proof. exact (hash_pair_combine h p). Qed.

Lemma deploy_combined_pair_combine (a b : bytes) :
  WhitelistRootDeploy.combined_pair keccak a b = combine a b.
Proof.
  unfold WhitelistRootDeploy.combined_pair, Spec.combine, bytes_min, bytes_max,
    bytes_le.
  destruct (bytes_gt a b); reflexivity.
Qed.

Lemma combined_pair_combine (a b : bytes) :
  BatchRoot.combined_pair keccak a b = Ok (combine a b).
Proof.
  unfold BatchRoot.combined_pair, Spec.combine, bytes_min, bytes_max, bytes_le.
  destruct (bytes_gt a b); cbn [negb]; apply solidity_keccak_pair.
Qed.

Lemma verify_step_combine (computed p : bytes) :
  (if bytes_le computed p
   then solidity_keccak keccak [bytes32; bytes32] [PBytes computed; PBytes p]
   else solidity_keccak keccak [bytes32; bytes32] [PBytes p; PBytes computed])
  = Ok (combine computed p).
Proof.
  unfold Spec.combine, bytes_min, bytes_max.
  destruct (bytes_le computed p); apply solidity_keccak_pair.
Qed.

(** The loops over a layer are the two reductions. *)

Lemma next_level_reduce (current : list bytes) :
  BatchRoot.next_level keccak current = Ok (reduce_promote keccak current).
Proof.
  induction current as [| x | x y rest IH] using pair_ind; try reflexivity.
  cbn [BatchRoot.next_level reduce_promote].
  rewrite combined_pair_combine, IH. reflexivity.
Qed.

Lemma deploy_next_level_same (current : list bytes) :
  BatchRootDeploy.next_level keccak current = BatchRoot.next_level keccak current.
Proof. reflexivity. Qed.

Lemma deploy_build_tree_same (leaves : list bytes) :
  BatchRootDeploy._build_tree keccak leaves = BatchRoot._build_tree keccak leaves.
Proof. reflexivity. Qed.

Lemma next_layer_reduce (cur : list bytes) :
  WhitelistRoot.next_layer keccak cur = reduce_duplicate keccak cur.
Proof.
  induction cur as [| x | x y rest IH] using pair_ind; cbn; try reflexivity.
  - now rewrite hash_pair_combine.
  - now rewrite hash_pair_combine, <- IH.
Qed.

Lemma deploy_next_layer_reduce (layer : list bytes) :
  WhitelistRootDeploy.next_layer keccak layer = reduce_duplicate keccak layer.
Proof.
  induction layer as [| x | x y rest IH] using pair_ind;
    cbn [WhitelistRootDeploy.next_layer reduce_duplicate]; try reflexivity.
  - now rewrite deploy_combined_pair_combine.
  - now rewrite deploy_combined_pair_combine, IH.
Qed.

(** *** Shape of a reduced layer *)

Lemma reduce_promote_length (l : list bytes) :
  (length l <= 2 * length (reduce_promote keccak l) <= length l + 1)%nat.
Proof.
  induction l as [| x | x y rest IH] using pair_ind; cbn [reduce_promote length]; lia.
Qed.

Lemma reduce_duplicate_length (l : list bytes) :
  (length l <= 2 * length (reduce_duplicate keccak l) <= length l + 1)%nat.
Proof.
  induction l as [| x | x y rest IH] using pair_ind; cbn [reduce_duplicate length]; lia.
Qed.

Lemma reduce_promote_nth (l : list bytes) (k : nat) :
  nth_error (reduce_promote keccak l) k
  = match nth_error l (2 * k), nth_error l (2 * k + 1) with
    | Some a, Some b => Some (combine a b)
    | Some a, None => Some a
    | None, _ => None
    end.
Proof.
  revert l. induction k as [|k IH]; intros [|a [|b rest]]; try reflexivity.
  - destruct k; reflexivity.
  - replace (2 * S k)%nat with (S (S (2 * k))) by lia.
    cbn [reduce_promote nth_error Nat.add]. apply IH.
Qed.

Lemma reduce_duplicate_nth (l : list bytes) (k : nat) :
  nth_error (reduce_duplicate keccak l) k
  = match nth_error l (2 * k), nth_error l (2 * k + 1) with
    | Some a, Some b => Some (combine a b)
    | Some a, None => Some (combine a a)
    | None, _ => None
    end.
Proof.
  revert l. induction k as [|k IH]; intros [|a [|b rest]]; try reflexivity.
  - destruct k; reflexivity.
  - replace (2 * S k)%nat with (S (S (2 * k))) by lia.
    cbn [reduce_duplicate nth_error Nat.add]. apply IH.
Qed.

(** The last node of an odd layer: promoted by one reduction, hashed
    with itself by the other. *)
Lemma reduce_promote_last (l : list bytes) :
  Nat.odd (length l) = true ->
  last (reduce_promote keccak l) [] = last l [].
Proof.
  induction l as [| x | x y rest IH] using pair_ind; intros Ho.
  - discriminate.
  - reflexivity.
  - cbn [length] in Ho. rewrite Nat.odd_succ_succ in Ho.
    specialize (IH Ho). cbn [reduce_promote].
    destruct rest as [|z rest]; [discriminate|].
    assert (Hne : reduce_promote keccak (z :: rest) <> []).
    { destruct rest; discriminate. }
    destruct (reduce_promote keccak (z :: rest)) as [|w ws] eqn:E; [now elim Hne|].
    cbn [last] in *. exact IH.
Qed.

Lemma reduce_duplicate_last (l : list bytes) :
  Nat.odd (length l) = true ->
  last (reduce_duplicate keccak l) [] = keccak (last l [] ++ last l []).
Proof.
  induction l as [| x | x y rest IH] using pair_ind; intros Ho.
  - discriminate.
  - cbn. apply combine_same.
  - cbn [length] in Ho. rewrite Nat.odd_succ_succ in Ho.
    specialize (IH Ho). cbn [reduce_duplicate].
    destruct rest as [|z rest]; [discriminate|].
    assert (Hne : reduce_duplicate keccak (z :: rest) <> []).
    { destruct rest; discriminate. }
    destruct (reduce_duplicate keccak (z :: rest)) as [|w ws] eqn:E; [now elim Hne|].
    cbn [last] in *. exact IH.
Qed.

(** *** The [while] loops *)

Lemma layers_after_reduces (reduce : list bytes -> list bytes) :
  (forall l, (length l <= 2 * length (reduce l) <= length l + 1)%nat) ->
  forall n cur, (length cur <= n)%nat ->
    reduces reduce cur (layers_after reduce n cur).
Proof.
  intros Hred. induction n as [|n IH]; intros cur Hn.
  - simpl. lia.
  - cbn [layers_after]. destruct (Nat.ltb_spec 1 (length cur)) as [H1|H1].
    + cbn [reduces]. split; [exact H1|]. split; [reflexivity|].
      apply IH. specialize (Hred cur). lia.
    + simpl. lia.
Qed.

Lemma len_gt_1 {A : Type} (l : list A) : (1 <? len l) = (1 <? length l)%nat.
Proof.
  unfold len. destruct (Z.ltb_spec 1 (Z.of_nat (length l)));
    destruct (Nat.ltb_spec 1 (length l)); try reflexivity; lia.
Qed.

Lemma build_loop_spec (n : nat) (tree : list (list bytes)) (cur : list bytes) :
  (length cur <= n)%nat ->
  BatchRoot.build_loop keccak n tree cur
  = Ok (tree ++ layers_after (reduce_promote keccak) n cur).
Proof.
  revert tree cur. induction n as [|n IH]; intros tree cur Hn.
  - cbn [BatchRoot.build_loop layers_after]. rewrite len_gt_1.
    destruct (Nat.ltb_spec 1 (length cur)); [lia|].
    now rewrite app_nil_r.
  - cbn [BatchRoot.build_loop layers_after]. rewrite len_gt_1.
    destruct (Nat.ltb_spec 1 (length cur)) as [H1|H1].
    + rewrite next_level_reduce. cbn [bind].
      rewrite IH.
      * now rewrite <- app_assoc.
      * pose proof (reduce_promote_length cur). lia.
    + now rewrite app_nil_r.
Qed.

Lemma build_tree_spec (leaves : list bytes) :
  leaves <> [] ->
  BatchRoot._build_tree keccak leaves
  = Ok (leaves :: layers_after (reduce_promote keccak) (length leaves) leaves).
Proof.
  intros Hne. destruct leaves as [|x leaves]; [now elim Hne|].
  unfold BatchRoot._build_tree. now rewrite build_loop_spec.
Qed.

Lemma layers_loop_spec (n : nat) (layers : list (list bytes)) (cur : list bytes) :
  (length cur <= n)%nat ->
  WhitelistRoot.layers_loop keccak n (layers ++ [cur])
  = Ok (layers ++ cur :: layers_after (reduce_duplicate keccak) n cur).
Proof.
  revert layers cur. induction n as [|n IH]; intros layers cur Hn.
  - cbn [WhitelistRoot.layers_loop layers_after].
    rewrite last_last, len_gt_1.
    destruct (Nat.ltb_spec 1 (length cur)); [lia|reflexivity].
  - cbn [WhitelistRoot.layers_loop layers_after].
    rewrite last_last, len_gt_1.
    destruct (Nat.ltb_spec 1 (length cur)) as [H1|H1]; [|reflexivity].
    rewrite next_layer_reduce, IH.
    + now rewrite <- app_assoc.
    + pose proof (reduce_duplicate_length cur). lia.
Qed.

Lemma whitelist_build_tree_spec (leaves : list bytes) :
  WhitelistRoot.build_tree keccak leaves
  = Ok (leaves :: layers_after (reduce_duplicate keccak) (length leaves) leaves).
Proof.
  unfold WhitelistRoot.build_tree.
  exact (layers_loop_spec (length leaves) [] leaves (le_n _)).
Qed.

Lemma tree_loop_spec (n : nat) (tree : list (list bytes)) (cur : list bytes) :
  (length cur <= n)%nat ->
  WhitelistRootDeploy.tree_loop keccak n (tree ++ [cur])
  = Ok (tree ++ cur :: layers_after (reduce_duplicate keccak) n cur).
Proof.
  revert tree cur. induction n as [|n IH]; intros tree cur Hn.
  - cbn [WhitelistRootDeploy.tree_loop layers_after].
    rewrite last_last, len_gt_1.
    destruct (Nat.ltb_spec 1 (length cur)); [lia|reflexivity].
  - cbn [WhitelistRootDeploy.tree_loop layers_after].
    rewrite last_last, len_gt_1.
    destruct (Nat.ltb_spec 1 (length cur)) as [H1|H1]; [|reflexivity].
    rewrite deploy_next_layer_reduce, IH.
    + now rewrite <- app_assoc.
    + pose proof (reduce_duplicate_length cur). lia.
Qed.

Lemma merkle_tree_spec (leaves : list bytes) :
  WhitelistRootDeploy.merkle_tree keccak leaves
  = Ok (leaves :: layers_after (reduce_duplicate keccak) (length leaves) leaves).
Proof.
  unfold WhitelistRootDeploy.merkle_tree.
  exact (tree_loop_spec (length leaves) [] leaves (le_n _)).
Qed.

End EngineFacts.

(* ================================================================= *)
(** ** Trees as chains of reductions, and the proofs read off them *)

Section TreeFacts.

Import Web3 Spec.

Variable keccak : bytes -> bytes.
Variable reduce : list bytes -> list bytes.
Hypothesis reduce_length :
  forall l, (length l <= 2 * length (reduce l) <= length l + 1)%nat.

Lemma reduces_step (rest : list (list bytes)) (prev : list bytes) (k : nat)
  (a b : list bytes) :
  reduces reduce prev rest ->
  nth_error (prev :: rest) k = Some a ->
  nth_error (prev :: rest) (S k) = Some b ->
  (1 < length a)%nat /\ b = reduce a.
Proof.
  revert prev k. induction rest as [|l rest IH]; intros prev k Hr Ha Hb.
  - destruct k; discriminate.
  - cbn [reduces] in Hr. destruct Hr as (H1 & -> & Hr).
    destruct k as [|k].
    + cbn in Ha, Hb. injection Ha as <-. injection Hb as <-. auto.
    + apply (IH (reduce prev) k Hr); assumption.
Qed.

Lemma reduces_nonempty (rest : list (list bytes)) (prev : list bytes) :
  reduces reduce prev rest -> prev <> [] ->
  Forall (fun layer => layer <> []) (prev :: rest).
Proof.
  revert prev. induction rest as [|l rest IH]; intros prev Hr Hne.
  - constructor; [exact Hne|constructor].
  - cbn [reduces] in Hr. destruct Hr as (H1 & -> & Hr).
    constructor; [exact Hne|]. apply IH; [exact Hr|].
    intros E. pose proof (reduce_length prev) as Hl. rewrite E in Hl.
    simpl in Hl. lia.
Qed.

Lemma reduces_last (rest : list (list bytes)) (prev : list bytes) :
  reduces reduce prev rest -> prev <> [] ->
  length (last (prev :: rest) []) = 1%nat.
Proof.
  revert prev. induction rest as [|l rest IH]; intros prev Hr Hne.
  - cbn in *. destruct prev; [now elim Hne|]. simpl in *. lia.
  - cbn [reduces] in Hr. destruct Hr as (H1 & -> & Hr).
    change (last (prev :: reduce prev :: rest) [])
      with (last (reduce prev :: rest) []).
    apply IH; [exact Hr|].
    intros E. pose proof (reduce_length prev) as Hl. rewrite E in Hl.
    simpl in Hl. lia.
Qed.

Lemma reduces_forall (P : list bytes -> Prop) (rest : list (list bytes))
  (prev : list bytes) :
  (forall l, P l -> P (reduce l)) ->
  reduces reduce prev rest -> P prev -> Forall P (prev :: rest).
Proof.
  intros HP. revert prev. induction rest as [|l rest IH]; intros prev Hr Hp.
  - constructor; [exact Hp|constructor].
  - cbn [reduces] in Hr. destruct Hr as (H1 & -> & Hr).
    constructor; [exact Hp|]. apply IH; auto.
Qed.

End TreeFacts.

Section ProofFacts.

Import Web3 Spec.

Variable keccak : bytes -> bytes.

Lemma getitem_nth {A : Type} (l : list A) (n : nat) (x : A) :
  nth_error l n = Some x -> getitem l (Z.of_nat n) = Ok x.
Proof.
  intros H. assert (Hn : (n < length l)%nat).
  { apply nth_error_Some. congruence. }
  unfold getitem, len.
  destruct (Z.ltb_spec (Z.of_nat n) 0) as [|_]; [lia|].
  destruct (Z.leb_spec 0 (Z.of_nat n)) as [_|]; [|lia].
  destruct (Z.ltb_spec (Z.of_nat n) (Z.of_nat (length l))) as [_|]; [|lia].
  cbn [andb]. rewrite Nat2Z.id, H. reflexivity.
Qed.

Lemma getitem_raise {A : Type} (l : list A) (i : Z) (e : exn) :
  getitem l i = Raise e -> e = IndexError.
Proof.
  unfold getitem.
  destruct (_ && _); [destruct (nth_error _ _)|]; congruence.
Qed.

Lemma nth_error_lt {A : Type} (l : list A) (n : nat) :
  (n < length l)%nat -> exists x, nth_error l n = Some x.
Proof.
  intros H. destruct (nth_error l n) eqn:E; [eauto|].
  apply nth_error_None in E. lia.
Qed.

Lemma even_index (k : nat) :
  Z.of_nat (2 * k) mod 2 = 0 /\ Z.of_nat (2 * k) / 2 = Z.of_nat k
  /\ Z.of_nat (2 * k) + 1 = Z.of_nat (2 * k + 1).
Proof.
  rewrite Nat2Z.inj_mul. change (Z.of_nat 2) with 2.
  rewrite Z.mul_comm, Z.mod_mul, Z.div_mul by lia. lia.
Qed.

Lemma odd_index (k : nat) :
  Z.of_nat (2 * k + 1) mod 2 = 1 /\ Z.of_nat (2 * k + 1) / 2 = Z.of_nat k
  /\ Z.of_nat (2 * k + 1) - 1 = Z.of_nat (2 * k).
Proof.
  rewrite Nat2Z.inj_add, Nat2Z.inj_mul. change (Z.of_nat 2) with 2.
  change (Z.of_nat 1) with 1.
  rewrite Z.add_comm, Z.mul_comm, Z.mod_add, Z.div_add by lia.
  repeat split; try reflexivity. lia.
Qed.

Lemma index_parity (i : nat) : exists k, i = (2 * k)%nat \/ i = (2 * k + 1)%nat.
Proof.
  destruct (Nat.Even_or_Odd i) as [[k Hk]|[k Hk]]; exists k; auto.
Qed.

Lemma verify_loop_fold (leaf : bytes) (proof : list bytes) :
  BatchRoot.verify_loop keccak leaf proof = Ok (fold_proof keccak leaf proof).
Proof.
  revert leaf. induction proof as [|p proof IH]; intros leaf; [reflexivity|].
  cbn [BatchRoot.verify_loop]. rewrite verify_step_combine. cbn [bind].
  apply IH.
Qed.

Lemma whitelist_verify_loop_fold (leaf : bytes) (pf : list bytes) :
  WhitelistRoot.verify_loop keccak leaf pf = fold_proof keccak leaf pf.
Proof.
  revert leaf. induction pf as [|p pf IH]; intros leaf; [reflexivity|].
  cbn [WhitelistRoot.verify_loop]. rewrite whitelist_verify_step_combine.
  apply IH.
Qed.

(** In a tree reduced with promotion, the proof collected for a position
    folds to the root. *)
Lemma get_proof_loop_folds (rest : list (list bytes)) :
  forall (cur : list bytes) (i : nat) (acc : list bytes) (x : bytes),
    reduces (reduce_promote keccak) cur rest ->
    nth_error cur i = Some x ->
    exists pf,
      BatchRoot.get_proof_loop (removelast (cur :: rest)) (Z.of_nat i) acc
      = Ok (acc ++ pf)
      /\ nth_error (last (cur :: rest) []) 0 = Some (fold_proof keccak x pf).
Proof.
  induction rest as [|l rest IH]; intros cur i acc x Hr Hx.
  - exists []. cbn in *. rewrite app_nil_r. split; [reflexivity|].
    assert (i < length cur)%nat by (apply nth_error_Some; congruence).
    replace i with 0%nat in Hx by lia. exact Hx.
  - cbn [reduces] in Hr. destruct Hr as (H1 & -> & Hr).
    change (removelast (cur :: reduce_promote keccak cur :: rest))
      with (cur :: removelast (reduce_promote keccak cur :: rest)).
    change (last (cur :: reduce_promote keccak cur :: rest) [])
      with (last (reduce_promote keccak cur :: rest) []).
    cbn [BatchRoot.get_proof_loop].
    pose proof (reduce_promote_nth keccak cur) as Hnth.
    destruct (index_parity i) as [k [-> | ->]].
    + destruct (even_index k) as (Hm & Hd & Hs). rewrite Hm, Hd, Hs.
      cbn [Z.eqb]. specialize (Hnth k). rewrite Hx in Hnth.
      unfold len.
      destruct (Z.ltb_spec (Z.of_nat (2 * k + 1)) (Z.of_nat (length cur))) as [Hlt|Hge].
      * destruct (nth_error_lt cur (2 * k + 1)) as [y Hy]; [lia|].
        rewrite Hy in Hnth. rewrite (getitem_nth _ _ _ Hy). cbn [bind].
        destruct (IH _ k (acc ++ [y]) _ Hr Hnth) as (pf & Hpf & Hroot).
        exists (y :: pf). rewrite Hpf, <- app_assoc. split; [reflexivity|].
        exact Hroot.
      * assert (Hy : nth_error cur (2 * k + 1) = None)
          by (apply nth_error_None; lia).
        rewrite Hy in Hnth. cbn [bind].
        destruct (IH _ k acc _ Hr Hnth) as (pf & Hpf & Hroot).
        exists pf. split; assumption.
    + destruct (odd_index k) as (Hm & Hd & Hs). rewrite Hm, Hd, Hs.
      cbn [Z.eqb]. specialize (Hnth k). rewrite Hx in Hnth.
      assert (Hi : (2 * k + 1 < length cur)%nat)
        by (apply nth_error_Some; congruence).
      destruct (nth_error_lt cur (2 * k)) as [y Hy]; [lia|].
      rewrite Hy in Hnth. rewrite (getitem_nth _ _ _ Hy). cbn [bind].
      destruct (IH _ k (acc ++ [y]) _ Hr Hnth) as (pf & Hpf & Hroot).
      exists (y :: pf). rewrite Hpf, <- app_assoc. split; [reflexivity|].
      unfold fold_proof in *. cbn [fold_left].
      rewrite (combine_comm keccak x y). exact Hroot.
Qed.

(** No index up to and including the number of leaves makes the loop of
    [get_proof] fail. *)
Lemma get_proof_loop_total (rest : list (list bytes)) :
  forall (cur : list bytes) (i : nat) (acc : list bytes),
    reduces (reduce_promote keccak) cur rest ->
    (i <= length cur)%nat ->
    exists pf,
      BatchRoot.get_proof_loop (removelast (cur :: rest)) (Z.of_nat i) acc = Ok pf.
Proof.
  induction rest as [|l rest IH]; intros cur i acc Hr Hi.
  - exists acc. reflexivity.
  - cbn [reduces] in Hr. destruct Hr as (H1 & -> & Hr).
    change (removelast (cur :: reduce_promote keccak cur :: rest))
      with (cur :: removelast (reduce_promote keccak cur :: rest)).
    cbn [BatchRoot.get_proof_loop].
    pose proof (reduce_promote_length keccak cur) as Hlen.
    destruct (index_parity i) as [k [-> | ->]].
    + destruct (even_index k) as (Hm & Hd & Hs). rewrite Hm, Hd, Hs.
      cbn [Z.eqb]. unfold len.
      destruct (Z.ltb_spec (Z.of_nat (2 * k + 1)) (Z.of_nat (length cur))) as [Hlt|Hge].
      * destruct (nth_error_lt cur (2 * k + 1)) as [y Hy]; [lia|].
        rewrite (getitem_nth _ _ _ Hy). cbn [bind].
        apply IH; [exact Hr|lia].
      * cbn [bind]. apply IH; [exact Hr|lia].
    + destruct (odd_index k) as (Hm & Hd & Hs). rewrite Hm, Hd, Hs.
      cbn [Z.eqb].
      destruct (nth_error_lt cur (2 * k)) as [y Hy]; [lia|].
      rewrite (getitem_nth _ _ _ Hy). cbn [bind].
      apply IH; [exact Hr|lia].
Qed.

(** When the loop of [get_proof] fails, a list access failed. *)
Lemma get_proof_loop_raise (levels : list (list bytes)) :
  forall (idx : Z) (acc : list bytes) (e : exn),
    BatchRoot.get_proof_loop levels idx acc = Raise e -> e = IndexError.
Proof.
  induction levels as [|curr levels IH]; intros idx acc e H; [discriminate|].
  cbn [BatchRoot.get_proof_loop] in H.
  destruct (idx mod 2 =? 0).
  - destruct (idx + 1 <? len curr).
    + destruct (getitem curr (idx + 1)) as [x|e'] eqn:E; cbn [bind] in H.
      * eapply IH; eassumption.
      * injection H as <-. eapply getitem_raise; eassumption.
    + cbn [bind] in H. eapply IH; eassumption.
  - destruct (getitem curr (idx - 1)) as [x|e'] eqn:E; cbn [bind] in H.
    + eapply IH; eassumption.
    + injection H as <-. eapply getitem_raise; eassumption.
Qed.

(** The loop of the whitelist [proof] never fails on an index that is not
    negative, whatever the layers. *)
Lemma proof_loop_total (layers : list (list bytes)) :
  forall (idx : Z) (pf : list bytes),
    0 <= idx -> exists pf', WhitelistRoot.proof_loop layers idx pf = Ok pf'.
Proof.
  induction layers as [|layer layers IH]; intros idx pf Hidx.
  - exists pf. reflexivity.
  - cbn [WhitelistRoot.proof_loop].
    assert (Hs : 0 <= Z.lxor idx 1) by (apply Z.lxor_nonneg; lia).
    assert (Hd : 0 <= idx / 2) by (apply Z.div_pos; lia).
    destruct (Z.ltb_spec (Z.lxor idx 1) (len layer)) as [Hlt|Hge].
    + destruct (nth_error_lt layer (Z.to_nat (Z.lxor idx 1))) as [y Hy].
      { unfold len in Hlt. lia. }
      apply getitem_nth in Hy. rewrite Z2Nat.id in Hy by lia.
      rewrite Hy. cbn [bind]. apply IH. exact Hd.
    + cbn [bind]. apply IH. exact Hd.
Qed.

End ProofFacts.

(* ================================================================= *)
(** ** The concrete hash function *)

Section KeccakFacts.

Lemma keccak256_length (m : bytes) : length (Sample.keccak256 m) = 32%nat.
Proof.
  unfold Sample.keccak256, Keccak.keccak256, Keccak.lane_bytes.
  rewrite !length_app. reflexivity.
Qed.

(** The two classical test vectors of Keccak-256: the empty string and
    ["abc"]. *)
Example keccak256_empty :
  Sample.keccak256 []
  = Sample.unhex "c5d2460186f7233c927e7db2dcc703c0e500b653ca82273b7bfad8045d85a470".
Proof. vm_compute. reflexivity. Qed.

Example keccak256_abc :
  Sample.keccak256 (map byte_of_ascii (Sample.s "abc"))
  = Sample.unhex "4e03657aea45a94fc7d47ba826c8d667c0d1e6e33a64a036ec44f58fa12d6c45".
Proof. vm_compute. reflexivity. Qed.

(** The addresses written in the scripts carry their EIP-55 checksum. *)
Example sender_is_checksummed :
  Web3.to_checksum_address Sample.keccak256
    (Sample.s "0xf39fd6e51aad88f6f4ce6ab8827279cfffb92266")
  = Ok Sample.SENDER.
Proof. vm_compute. reflexivity. Qed.

Example sample_leaves :
  map_result (WhitelistRoot.leaf_hash Sample.keccak256) Sample.whitelist
  = Ok [Sample.leaf1; Sample.leaf2; Sample.leaf3].
Proof. vm_compute. reflexivity. Qed.

End KeccakFacts.

(* ================================================================= *)
(** ** Transfer leaves: layout, batch id, bounds *)

Section TransferClaims.

Import Web3 Spec.

(** C3, amended.  For every TransferRecord (two hexadecimal addresses and
    numbers within their declared widths) the transfer leaf hash of either
    batch script is one keccak256 pass over from(20) || to(20) ||
    amount(32) || nonce(8) || timestamp(6) || recipientCount(4) ||
    txType(1) || batchSalt(8), big-endian, without padding or separators;
    this concatenation is 99 bytes long. *)
Theorem transfer_leaf_hash_packed (keccak : bytes -> bytes)
  (from_ to_ tron_from tron_to : str)
  (amount nonce timestamp recipient_count batch_id tx_type batch_salt : Z) :
  (forall m, length (keccak m) = 32%nat) ->
  transfer_record from_ to_ amount nonce timestamp recipient_count tx_type
    batch_salt ->
  let packed :=
    address20 from_ ++ address20 to_ ++ be_bytes 32 amount ++ be_bytes 8 nonce
      ++ be_bytes 6 timestamp ++ be_bytes 4 recipient_count
      ++ be_bytes 1 tx_type ++ be_bytes 8 batch_salt in
  BatchRoot.calculate_tx_hash keccak
    (BatchRoot.Build_TransferData from_ to_ amount nonce timestamp
       recipient_count batch_id tx_type batch_salt)
  = Ok (keccak packed)
  /\ BatchRootDeploy.calculate_tx_hash keccak
       (BatchRootDeploy.Build_TransferData from_ to_ tron_from tron_to amount
          nonce timestamp recipient_count batch_id tx_type batch_salt)
     = Ok (keccak packed)
  /\ length (address20 from_) = 20%nat
  /\ length (address20 to_) = 20%nat
  /\ length packed = 99%nat.
Proof.
  intros Hk (Hf & Ht & Ha & Hn & Hts & Hrc & Hty & Hs) packed.
  destruct (to_checksum_address_spec keccak Hk from_ Hf) as (rf & Ef & _).
  destruct (to_checksum_address_spec keccak Hk to_ Ht) as (rt & Et & _).
  assert (Hsol :
    solidity_keccak keccak
      [address; address; uint 256; uint 64; uint 48; uint 32; uint 8; uint 64]
      [PStr ("0"%char :: "x"%char :: rf); PStr ("0"%char :: "x"%char :: rt);
       PInt amount; PInt nonce; PInt timestamp; PInt recipient_count;
       PInt tx_type; PInt batch_salt]
    = Ok (keccak packed)).
  { apply (solidity_keccak_transfer keccak Hk from_ to_); assumption. }
  split; [|split; [|split; [|split]]].
  - unfold BatchRoot.calculate_tx_hash.
    cbn [BatchRoot.from_address BatchRoot.to_address BatchRoot.amount
         BatchRoot.nonce BatchRoot.timestamp BatchRoot.recipient_count
         BatchRoot.tx_type BatchRoot.batch_salt].
    rewrite Ef, Et. cbn [bind]. exact Hsol.
  - unfold BatchRootDeploy.calculate_tx_hash, BatchRootDeploy.ensure_uint_bounds.
    cbn [BatchRootDeploy.from_address BatchRootDeploy.to_address
         BatchRootDeploy.amount BatchRootDeploy.nonce BatchRootDeploy.timestamp
         BatchRootDeploy.recipient_count BatchRootDeploy.tx_type
         BatchRootDeploy.batch_salt].
    unfold in_uint in Hn, Hts, Hrc.
    destruct (Z.leb_spec 0 nonce); [|lia].
    destruct (Z.leb_spec nonce (2 ^ 64 - 1)); [|lia].
    destruct (Z.leb_spec 0 timestamp); [|lia].
    destruct (Z.leb_spec timestamp (2 ^ 48 - 1)); [|lia].
    destruct (Z.leb_spec 0 recipient_count); [|lia].
    destruct (Z.leb_spec recipient_count (2 ^ 32 - 1)); [|lia].
    cbn [andb negb bind]. rewrite Ef, Et. cbn [bind]. exact Hsol.
  - apply (address20_spec from_ Hf).
  - apply (address20_spec to_ Ht).
  - apply (length_packed_transfer from_ to_); assumption.
Qed.

Lemma sample_transfer_record :
  transfer_record Sample.SENDER Sample.RECIPIENT_1 (100 * Sample.ONE_TRX) 1
    Sample.base_timestamp 1 BatchRoot.DELAYED 1.
Proof.
  unfold transfer_record, in_uint.
  split; [vm_compute; reflexivity|]. split; [vm_compute; reflexivity|].
  repeat (split; [split; [vm_compute; discriminate | vm_compute; reflexivity]|]).
  split; [vm_compute; discriminate | vm_compute; reflexivity].
Defined.

Lemma transfer_leaf_hash_packed_witness :
  BatchRoot.calculate_tx_hash Sample.keccak256 (Sample.transfer 1 1)
  = Ok (Sample.keccak256 (packed_batch (Sample.transfer 1 1)))
  /\ length (packed_batch (Sample.transfer 1 1)) = 99%nat.
Proof.
  destruct (transfer_leaf_hash_packed Sample.keccak256
              Sample.SENDER Sample.RECIPIENT_1 [] []
              (100 * Sample.ONE_TRX) 1 Sample.base_timestamp 1 1
              BatchRoot.DELAYED 1 keccak256_length sample_transfer_record)
    as (Hb & _ & _ & _ & Hl).
  split; [exact Hb | exact Hl].
Defined.

(** C3 as stated fails on the length: the packed encoding of the first
    transfer of the test batch is hashed as the claim lays it out, and it
    is 99 bytes long, not 100. *)
Lemma packed_transfer_is_not_100_bytes :
  BatchRoot.calculate_tx_hash Sample.keccak256 (Sample.transfer 1 1)
  = Ok (Sample.keccak256 (packed_batch (Sample.transfer 1 1)))
  /\ length (packed_batch (Sample.transfer 1 1)) <> 100%nat.
Proof.
  split; [vm_compute; reflexivity | vm_compute; discriminate].
Qed.

(** C4.  Two transfer records that differ in batch_id only have the same
    leaf hash, in both batch scripts: the hashing function never reads
    batch_id. *)
Theorem batch_id_not_hashed (keccak : bytes -> bytes)
  (from_ to_ tron_from tron_to : str)
  (amount nonce timestamp recipient_count tx_type batch_salt : Z)
  (batch_id batch_id' : Z) :
  BatchRoot.calculate_tx_hash keccak
    (BatchRoot.Build_TransferData from_ to_ amount nonce timestamp
       recipient_count batch_id tx_type batch_salt)
  = BatchRoot.calculate_tx_hash keccak
      (BatchRoot.Build_TransferData from_ to_ amount nonce timestamp
         recipient_count batch_id' tx_type batch_salt)
  /\ BatchRootDeploy.calculate_tx_hash keccak
       (BatchRootDeploy.Build_TransferData from_ to_ tron_from tron_to amount
          nonce timestamp recipient_count batch_id tx_type batch_salt)
     = BatchRootDeploy.calculate_tx_hash keccak
         (BatchRootDeploy.Build_TransferData from_ to_ tron_from tron_to amount
            nonce timestamp recipient_count batch_id' tx_type batch_salt).
Proof. split; reflexivity. Qed.

(** The deploy script checks the three bounds, in the order nonce,
    timestamp, recipient_count, before anything is encoded. *)
Theorem deploy_bounds_checked (keccak : bytes -> bytes)
  (tx : BatchRootDeploy.TransferData) :
  (~ in_uint 64 (BatchRootDeploy.nonce tx) ->
   BatchRootDeploy.calculate_tx_hash keccak tx
   = Raise (ValueError "nonce exceeds uint64"))
  /\ (in_uint 64 (BatchRootDeploy.nonce tx) ->
      ~ in_uint 48 (BatchRootDeploy.timestamp tx) ->
      BatchRootDeploy.calculate_tx_hash keccak tx
      = Raise (ValueError "timestamp exceeds uint48"))
  /\ (in_uint 64 (BatchRootDeploy.nonce tx) ->
      in_uint 48 (BatchRootDeploy.timestamp tx) ->
      ~ in_uint 32 (BatchRootDeploy.recipient_count tx) ->
      BatchRootDeploy.calculate_tx_hash keccak tx
      = Raise (ValueError "recipient_count exceeds uint32")).
Proof.
  unfold BatchRootDeploy.calculate_tx_hash, BatchRootDeploy.ensure_uint_bounds,
    in_uint.
  repeat split; intros;
    destruct (Z.leb_spec 0 (BatchRootDeploy.nonce tx));
    destruct (Z.leb_spec (BatchRootDeploy.nonce tx) (2 ^ 64 - 1));
    destruct (Z.leb_spec 0 (BatchRootDeploy.timestamp tx));
    destruct (Z.leb_spec (BatchRootDeploy.timestamp tx) (2 ^ 48 - 1));
    destruct (Z.leb_spec 0 (BatchRootDeploy.recipient_count tx));
    destruct (Z.leb_spec (BatchRootDeploy.recipient_count tx) (2 ^ 32 - 1));
    cbn [andb negb bind]; try reflexivity; lia.
Qed.

(** C8 at the failing input.  A transfer whose nonce is 2^64:
    [calculate_tx_hash] of generateBatchRoot.py checks nothing and returns
    the hash of a shifted 100-byte buffer, where that of
    generateBatchRootDeploy.py raises the error naming the nonce. *)
Theorem oversized_nonce_is_hashed :
  ~ in_uint 64 (2 ^ 64)
  /\ BatchRoot.calculate_tx_hash Sample.keccak256 (Sample.transfer (2 ^ 64) 1)
     = Ok (Sample.keccak256 Sample.oversized_nonce_buffer)
  /\ length Sample.oversized_nonce_buffer = 100%nat
  /\ BatchRootDeploy.calculate_tx_hash Sample.keccak256
       (Sample.deploy_transfer (2 ^ 64) 40)
     = Raise (ValueError "nonce exceeds uint64").
Proof.
  split; [unfold in_uint; lia|].
  split; [|split]; vm_compute; reflexivity.
Qed.

End TransferClaims.

(* ================================================================= *)
(** ** The combine rule *)

Section CombineClaims.

Import Web3 Spec.

Lemma bytes_le_big_endian (a b : bytes) :
  length a = length b ->
  bytes_le a b = (be_value a <=? be_value b).
Proof.
  intros H. unfold bytes_le, bytes_gt, Z.leb.
  rewrite (bytes_compare_big_endian a b H).
  destruct (be_value a ?= be_value b); reflexivity.
Qed.

(** C5.  On 32-byte values every script combines a pair by hashing the
    smaller value followed by the larger one, smaller and larger in the
    byte-wise lexicographic order, which is the order of the big-endian
    values; each of the three combine operations is symmetric. *)
Theorem combine_sorted_pair_symmetric (keccak : bytes -> bytes) (a b : bytes) :
  length a = 32%nat -> length b = 32%nat ->
  let lo := if be_value a <=? be_value b then a else b in
  let hi := if be_value a <=? be_value b then b else a in
  lo = bytes_min a b /\ hi = bytes_max a b
  /\ WhitelistRoot.hash_pair keccak a b = keccak (lo ++ hi)
  /\ BatchRoot.combined_pair keccak a b = Ok (keccak (lo ++ hi))
  /\ BatchRoot.verify_loop keccak a [b] = Ok (keccak (lo ++ hi))
  /\ WhitelistRoot.hash_pair keccak a b = WhitelistRoot.hash_pair keccak b a
  /\ BatchRoot.combined_pair keccak a b = BatchRoot.combined_pair keccak b a
  /\ BatchRoot.verify_loop keccak a [b] = BatchRoot.verify_loop keccak b [a].
Proof.
  intros Ha Hb lo hi.
  assert (Hlo : lo = bytes_min a b).
  { unfold lo, bytes_min. rewrite bytes_le_big_endian by congruence. reflexivity. }
  assert (Hhi : hi = bytes_max a b).
  { unfold hi, bytes_max. rewrite bytes_le_big_endian by congruence. reflexivity. }
  rewrite Hlo, Hhi. fold (combine keccak a b).
  repeat split.
  - apply hash_pair_combine.
  - apply combined_pair_combine.
  - rewrite verify_loop_fold. reflexivity.
  - rewrite !hash_pair_combine. apply combine_comm.
  - rewrite !combined_pair_combine. f_equal. apply combine_comm.
  - rewrite !verify_loop_fold. unfold fold_proof. cbn [fold_left].
    f_equal. apply combine_comm.
Qed.

Lemma combine_sorted_pair_symmetric_witness :
  WhitelistRoot.hash_pair Sample.keccak256 Sample.leaf1 Sample.leaf2
  = Sample.keccak256 (Sample.leaf2 ++ Sample.leaf1)
  /\ WhitelistRoot.hash_pair Sample.keccak256 Sample.leaf1 Sample.leaf2
     = WhitelistRoot.hash_pair Sample.keccak256 Sample.leaf2 Sample.leaf1.
Proof.
  destruct (combine_sorted_pair_symmetric Sample.keccak256
              Sample.leaf1 Sample.leaf2 eq_refl eq_refl)
    as (_ & _ & Hh & _ & _ & Hs & _).
  split; [exact Hh | exact Hs].
Defined.

End CombineClaims.

(* ================================================================= *)
(** ** The layers of a tree *)

Section LayerClaims.

Import Web3 Spec.

Lemma reduce_promote_32 (keccak : bytes -> bytes) :
  (forall m, length (keccak m) = 32%nat) ->
  forall l, Forall (fun node => length node = 32%nat) l ->
            Forall (fun node => length node = 32%nat) (reduce_promote keccak l).
Proof.
  intros Hk. induction l as [| x | x y rest IH] using pair_ind; intros H.
  - constructor.
  - exact H.
  - inversion H as [|? ? _ H']; subst. inversion H' as [|? ? _ H'']; subst.
    cbn [reduce_promote]. constructor; [apply Hk | apply IH; exact H''].
Qed.

(** C10.  The tree the batch scripts build from a non-empty list of
    32-byte leaves (keccak256 returning 32 bytes): layer 0 is the input,
    no layer is empty, every layer after the first is strictly shorter
    than the one before, the last layer has exactly one element, and every
    node of every layer is 32 bytes long. *)
Theorem batch_tree_shape (keccak : bytes -> bytes) (leaves : list bytes) :
  (forall m, length (keccak m) = 32%nat) ->
  leaves <> [] ->
  Forall (fun leaf => length leaf = 32%nat) leaves ->
  exists tree,
    BatchRoot._build_tree keccak leaves = Ok tree
    /\ BatchRootDeploy._build_tree keccak leaves = Ok tree
    /\ nth_error tree 0 = Some leaves
    /\ Forall (fun layer => layer <> []) tree
    /\ (forall k a b, nth_error tree k = Some a -> nth_error tree (S k) = Some b ->
                      (length b < length a)%nat)
    /\ length (last tree []) = 1%nat
    /\ Forall (Forall (fun node => length node = 32%nat)) tree.
Proof.
  intros Hk Hne H32.
  pose proof (layers_after_reduces (reduce_promote keccak)
                (reduce_promote_length keccak) (length leaves) leaves (le_n _))
    as Hr.
  exists (leaves :: layers_after (reduce_promote keccak) (length leaves) leaves).
  split; [apply build_tree_spec; exact Hne|].
  split; [rewrite deploy_build_tree_same; apply build_tree_spec; exact Hne|].
  split; [reflexivity|].
  split; [apply (reduces_nonempty _ (reduce_promote_length keccak) _ _ Hr Hne)|].
  split.
  { intros k a b Ha Hb.
    destruct (reduces_step _ _ _ _ _ _ Hr Ha Hb) as [H1 ->].
    pose proof (reduce_promote_length keccak a). lia. }
  split; [apply (reduces_last _ (reduce_promote_length keccak) _ _ Hr Hne)|].
  apply (reduces_forall (reduce_promote keccak)
           (Forall (fun node => length node = 32%nat)) _ _
           (reduce_promote_32 keccak Hk) Hr H32).
Qed.

Lemma sample_leaves_32 :
  Forall (fun leaf => length leaf = 32%nat) [Sample.leaf1; Sample.leaf2; Sample.leaf3].
Proof. repeat constructor. Defined.

Lemma batch_tree_shape_witness :
  exists tree,
    BatchRoot._build_tree Sample.keccak256 [Sample.leaf1; Sample.leaf2; Sample.leaf3]
    = Ok tree
    /\ nth_error tree 0 = Some [Sample.leaf1; Sample.leaf2; Sample.leaf3]
    /\ length (last tree []) = 1%nat.
Proof.
  destruct (batch_tree_shape Sample.keccak256
              [Sample.leaf1; Sample.leaf2; Sample.leaf3] keccak256_length
              ltac:(discriminate) sample_leaves_32)
    as (tree & Hb & _ & H0 & _ & _ & Hl & _).
  exists tree. split; [exact Hb|]. split; [exact H0 | exact Hl].
Defined.

(** C2, amended.  At every layer of a tree, the last node of a layer of
    odd length is promoted unchanged into the next layer by the two batch
    scripts, and enters the next layer hashed with a copy of itself in the
    two whitelist scripts. *)
Theorem odd_node_rule (keccak : bytes -> bytes) (leaves : list bytes)
  (tree : list (list bytes)) (k : nat) (a b : list bytes) :
  nth_error tree k = Some a ->
  nth_error tree (S k) = Some b ->
  Nat.odd (length a) = true ->
  (BatchRoot._build_tree keccak leaves = Ok tree -> last b [] = last a [])
  /\ (BatchRootDeploy._build_tree keccak leaves = Ok tree -> last b [] = last a [])
  /\ (WhitelistRoot.build_tree keccak leaves = Ok tree ->
      last b [] = keccak (last a [] ++ last a []))
  /\ (WhitelistRootDeploy.merkle_tree keccak leaves = Ok tree ->
      last b [] = keccak (last a [] ++ last a [])).
Proof.
  intros Ha Hb Ho.
  assert (Hbatch : BatchRoot._build_tree keccak leaves = Ok tree ->
                   last b [] = last a []).
  { intros Ht. destruct leaves as [|x leaves].
    - injection Ht as <-. destruct k; discriminate.
    - rewrite build_tree_spec in Ht by discriminate. injection Ht as <-.
      pose proof (layers_after_reduces (reduce_promote keccak)
                    (reduce_promote_length keccak) _ (x :: leaves) (le_n _)) as Hr.
      destruct (reduces_step _ _ _ _ _ _ Hr Ha Hb) as [_ ->].
      apply reduce_promote_last. exact Ho. }
  assert (Hdup : forall t,
             t = leaves :: layers_after (reduce_duplicate keccak) (length leaves) leaves ->
             nth_error t k = Some a -> nth_error t (S k) = Some b ->
             last b [] = keccak (last a [] ++ last a [])).
  { intros t -> Ha' Hb'.
    pose proof (layers_after_reduces (reduce_duplicate keccak)
                  (reduce_duplicate_length keccak) _ leaves (le_n _)) as Hr.
    destruct (reduces_step _ _ _ _ _ _ Hr Ha' Hb') as [_ ->].
    apply reduce_duplicate_last. exact Ho. }
  split; [exact Hbatch|]. split; [exact Hbatch|]. split.
  - rewrite whitelist_build_tree_spec. intros Ht. injection Ht as Ht.
    apply (Hdup tree); auto.
  - rewrite merkle_tree_spec. intros Ht. injection Ht as Ht.
    apply (Hdup tree); auto.
Qed.

Lemma odd_node_rule_witness :
  exists tree layers a b,
    BatchRoot._build_tree Sample.keccak256 [Sample.leaf1; Sample.leaf2; Sample.leaf3]
    = Ok tree
    /\ nth_error tree 1 = Some a /\ last a [] = Sample.leaf3
    /\ WhitelistRoot.build_tree Sample.keccak256
         [Sample.leaf1; Sample.leaf2; Sample.leaf3] = Ok layers
    /\ nth_error layers 1 = Some b
    /\ last b [] = Sample.keccak256 (Sample.leaf3 ++ Sample.leaf3).
Proof.
  set (leaves := [Sample.leaf1; Sample.leaf2; Sample.leaf3]).
  set (a := reduce_promote Sample.keccak256 leaves).
  set (b := reduce_duplicate Sample.keccak256 leaves).
  exists [leaves; a; reduce_promote Sample.keccak256 a],
         [leaves; b; reduce_duplicate Sample.keccak256 b], a, b.
  assert (Hb : BatchRoot._build_tree Sample.keccak256 leaves
               = Ok [leaves; a; reduce_promote Sample.keccak256 a]).
  { rewrite build_tree_spec by discriminate. reflexivity. }
  assert (Hw : WhitelistRoot.build_tree Sample.keccak256 leaves
               = Ok [leaves; b; reduce_duplicate Sample.keccak256 b]).
  { rewrite whitelist_build_tree_spec. reflexivity. }
  split; [exact Hb|]. split; [reflexivity|]. split.
  - exact (proj1 (odd_node_rule Sample.keccak256 leaves
                    [leaves; a; reduce_promote Sample.keccak256 a] 0 leaves a
                    eq_refl eq_refl eq_refl) Hb).
  - split; [exact Hw|]. split; [reflexivity|].
    exact (proj1 (proj2 (proj2
             (odd_node_rule Sample.keccak256 leaves
                [leaves; b; reduce_duplicate Sample.keccak256 b] 0 leaves b
                eq_refl eq_refl eq_refl))) Hw).
Defined.

(** C2 as stated fails on the whitelist script: in the tree of the three
    whitelist leaves, the last node of layer 1 is not the unpaired third
    leaf but the hash of that leaf followed by itself. *)
Lemma whitelist_odd_node_not_promoted :
  exists layers a b,
    WhitelistRoot.build_tree Sample.keccak256
      [Sample.leaf1; Sample.leaf2; Sample.leaf3] = Ok layers
    /\ nth_error layers 0 = Some a /\ nth_error layers 1 = Some b
    /\ Nat.odd (length a) = true
    /\ last b [] <> last a []
    /\ last b [] = Sample.keccak256 (Sample.leaf3 ++ Sample.leaf3).
Proof.
  eexists _, _, _.
  split; [vm_compute; reflexivity|].
  split; [reflexivity|]. split; [reflexivity|]. split; [reflexivity|].
  split; [vm_compute; discriminate | vm_compute; reflexivity].
Qed.

End LayerClaims.

(* ================================================================= *)
(** ** Roots and proofs *)

Section ProofClaims.

Import Web3 Spec.

Lemma init_spec (keccak : bytes -> bytes) (leaves : list bytes) :
  leaves <> [] ->
  BatchRoot.__init__ keccak leaves
  = Ok {| BatchRoot.leaves := leaves;
          BatchRoot.tree :=
            leaves :: layers_after (reduce_promote keccak) (length leaves) leaves |}.
Proof.
  intros Hne. unfold BatchRoot.__init__.
  rewrite build_tree_spec by exact Hne. reflexivity.
Qed.

(** For the batch tree the claim of C1 holds: every leaf verifies against
    the proof of its position and the root. *)
Theorem batch_proof_verifies (keccak : bytes -> bytes) (leaves : list bytes)
  (i : Z) :
  0 <= i < len leaves ->
  BatchRoot.is_valid keccak leaves i = Ok true.
Proof.
  intros Hi. unfold len in Hi.
  assert (Hne : leaves <> []) by (intros ->; simpl in Hi; lia).
  destruct (nth_error_lt leaves (Z.to_nat i)) as [x Hx]; [lia|].
  pose proof (layers_after_reduces (reduce_promote keccak)
                (reduce_promote_length keccak) _ leaves (le_n _)) as Hr.
  destruct (get_proof_loop_folds keccak _ leaves (Z.to_nat i) [] x Hr Hx)
    as (pf & Hpf & Hroot).
  rewrite Z2Nat.id in Hpf by lia.
  unfold BatchRoot.is_valid. rewrite (init_spec keccak leaves Hne). cbn [bind].
  rewrite <- (Z2Nat.id i) at 1 by lia.
  rewrite (getitem_nth _ _ _ Hx). cbn [bind].
  unfold BatchRoot.get_proof. cbn [BatchRoot.tree].
  rewrite Hpf. cbn [bind app].
  unfold BatchRoot.verify_proof. rewrite verify_loop_fold. cbn [bind].
  unfold BatchRoot.get_root. cbn [BatchRoot.tree].
  destruct (last (leaves :: layers_after (reduce_promote keccak) (length leaves) leaves) [])
    as [|root rest]; [discriminate|].
  injection Hroot as ->. now rewrite bytes_eqb_refl.
Qed.

Lemma batch_proof_verifies_sample :
  BatchRoot.is_valid Sample.keccak256 [Sample.leaf1; Sample.leaf2; Sample.leaf3] 2
  = Ok true.
Proof.
  apply (batch_proof_verifies Sample.keccak256
           [Sample.leaf1; Sample.leaf2; Sample.leaf3] 2).
  vm_compute. split; [discriminate|reflexivity].
Defined.

(** What the whitelist script computes for the third of three leaves: the
    proof holds the hash of the first two alone, so the check compares
    [combine c (combine a b)] with the root
    [combine (combine a b) (combine c c)]. *)
Lemma whitelist_third_leaf_check (keccak : bytes -> bytes) (a b c : bytes) :
  WhitelistRoot.build_tree keccak [a; b; c]
  = Ok [[a; b; c];
        [combine keccak a b; combine keccak c c];
        [combine keccak (combine keccak a b) (combine keccak c c)]]
  /\ WhitelistRoot.proof
       [[a; b; c];
        [combine keccak a b; combine keccak c c];
        [combine keccak (combine keccak a b) (combine keccak c c)]] 2
     = Ok [combine keccak a b]
  /\ WhitelistRoot.ok keccak [a; b; c] 2
     = Ok (bytes_eqb (combine keccak c (combine keccak a b))
             (combine keccak (combine keccak a b) (combine keccak c c))).
Proof.
  assert (Ht : WhitelistRoot.build_tree keccak [a; b; c]
               = Ok [[a; b; c];
                     [combine keccak a b; combine keccak c c];
                     [combine keccak (combine keccak a b) (combine keccak c c)]]).
  { rewrite whitelist_build_tree_spec. reflexivity. }
  split; [exact Ht|]. split; [reflexivity|].
  unfold WhitelistRoot.ok. rewrite Ht. cbn [bind].
  change (getitem [[a; b; c];
                   [combine keccak a b; combine keccak c c];
                   [combine keccak (combine keccak a b) (combine keccak c c)]] (-1))
    with (Ok [combine keccak (combine keccak a b) (combine keccak c c)]).
  cbn [bind].
  change (getitem [combine keccak (combine keccak a b) (combine keccak c c)] 0)
    with (Ok (combine keccak (combine keccak a b) (combine keccak c c))).
  cbn [bind].
  change (getitem [a; b; c] 2) with (Ok c). cbn [bind].
  change (WhitelistRoot.proof
            [[a; b; c];
             [combine keccak a b; combine keccak c c];
             [combine keccak (combine keccak a b) (combine keccak c c)]] 2)
    with (Ok [combine keccak a b]).
  cbn [bind]. unfold WhitelistRoot.verify_sorted.
  rewrite whitelist_verify_loop_fold. reflexivity.
Qed.

(** C1 at the failing input.  The whitelist script run on its own three
    addresses: [build_tree] pairs the unpaired third leaf with itself,
    [proof] leaves that sibling out, and [verify_sorted] rejects the third
    leaf; the first two verify. *)
Theorem whitelist_third_proof_rejected :
  (r <- WhitelistRoot.build_leaves Sample.keccak256 Sample.whitelist;;
   WhitelistRoot.ok Sample.keccak256 (fst r) 2) = Ok false
  /\ (r <- WhitelistRoot.build_leaves Sample.keccak256 Sample.whitelist;;
      WhitelistRoot.ok Sample.keccak256 (fst r) 0) = Ok true
  /\ (r <- WhitelistRoot.build_leaves Sample.keccak256 Sample.whitelist;;
      WhitelistRoot.ok Sample.keccak256 (fst r) 1) = Ok true.
Proof. split; [|split]; vm_compute; reflexivity. Qed.

(** C6 at the failing input.  From no leaves the batch [MerkleTree] is
    built without error and [get_root] returns 32 zero bytes, as the claim
    says.  The whitelist [merkle_tree] returns the one empty layer [[[]]]
    for no leaves: the guard [if tree] of [merkle_root] holds for it, and
    [tree[-1][0]] raises IndexError, where [get_root] tests [tree[-1]] as
    well. *)
Theorem whitelist_empty_tree_root_raises (keccak : bytes -> bytes) :
  (exists t, BatchRoot.__init__ keccak [] = Ok t
             /\ BatchRoot.get_root t = zeros 32
             /\ length (BatchRoot.get_root t) = 32%nat)
  /\ WhitelistRootDeploy.merkle_tree keccak [] = Ok [[]]
  /\ (tree <- WhitelistRootDeploy.merkle_tree keccak [];;
      WhitelistRootDeploy.merkle_root tree) = Raise IndexError.
Proof.
  split; [|split; reflexivity].
  eexists. split; [reflexivity|]. split; reflexivity.
Qed.

(** C7, amended.  No index is checked against the leaf range.  For every
    index from 0 up to and including the number of leaves the batch
    [get_proof] returns a list; when [get_proof] fails, it is with the
    IndexError of a list access; the whitelist [proof] returns a list for
    every index that is not negative, whatever the layers. *)
Theorem get_proof_unchecked_index (keccak : bytes -> bytes)
  (leaves : list bytes) (layers : list (list bytes)) (i : Z) :
  0 <= i <= len leaves ->
  exists t pf pf',
    BatchRoot.__init__ keccak leaves = Ok t
    /\ BatchRoot.get_proof t i = Ok pf
    /\ (forall j e, BatchRoot.get_proof t j = Raise e -> e = IndexError)
    /\ WhitelistRoot.proof layers i = Ok pf'.
Proof.
  intros Hi. unfold len in Hi.
  destruct (proof_loop_total (removelast layers) i [] (proj1 Hi)) as [pf' Hpf'].
  destruct leaves as [|x leaves].
  - exists {| BatchRoot.leaves := []; BatchRoot.tree := [[]] |}, [], pf'.
    split; [reflexivity|]. split; [reflexivity|]. split; [|exact Hpf'].
    intros j e H. discriminate.
  - pose proof (layers_after_reduces (reduce_promote keccak)
                  (reduce_promote_length keccak) _ (x :: leaves) (le_n _)) as Hr.
    destruct (get_proof_loop_total keccak _ (x :: leaves) (Z.to_nat i) [] Hr)
      as [pf Hpf]; [lia|].
    rewrite Z2Nat.id in Hpf by lia.
    eexists _, pf, pf'.
    split; [apply init_spec; discriminate|].
    split; [exact Hpf|]. split; [|exact Hpf'].
    intros j e H. eapply get_proof_loop_raise. exact H.
Qed.

Lemma get_proof_unchecked_index_witness :
  exists t pf pf',
    BatchRoot.__init__ Sample.keccak256 [Sample.leaf1; Sample.leaf2; Sample.leaf3]
    = Ok t
    /\ BatchRoot.get_proof t 3 = Ok pf
    /\ WhitelistRoot.proof [[Sample.leaf1; Sample.leaf2; Sample.leaf3]; []] 3
       = Ok pf'.
Proof.
  destruct (get_proof_unchecked_index Sample.keccak256
              [Sample.leaf1; Sample.leaf2; Sample.leaf3]
              [[Sample.leaf1; Sample.leaf2; Sample.leaf3]; []] 3)
    as (t & pf & pf' & Ht & Hpf & _ & Hpf').
  - vm_compute. split; discriminate.
  - exists t, pf, pf'. split; [exact Ht|]. split; [exact Hpf | exact Hpf'].
Defined.

(** C7 as stated fails: on the tree of two leaves, index 2 is outside
    [0, 2), yet both scripts return a proof value, the empty list. *)
Lemma index_past_the_end_gets_a_proof :
  exists t layers,
    BatchRoot.__init__ Sample.keccak256 [Sample.leaf1; Sample.leaf2] = Ok t
    /\ WhitelistRoot.build_tree Sample.keccak256 [Sample.leaf1; Sample.leaf2]
       = Ok layers
    /\ ~ (0 <= 2 < len [Sample.leaf1; Sample.leaf2])
    /\ BatchRoot.get_proof t 2 = Ok []
    /\ WhitelistRoot.proof layers 2 = Ok [].
Proof.
  eexists _, _.
  split; [vm_compute; reflexivity|]. split; [vm_compute; reflexivity|].
  split; [unfold len; simpl; lia|].
  split; vm_compute; reflexivity.
Qed.

End ProofClaims.

(* ================================================================= *)
(** ** Whitelist leaves *)

Section WhitelistLeafClaims.

Import Web3 Spec.

Lemma hex_digit_not_space (c : ascii) :
  is_hex_digit c = true -> is_space c = false.
Proof.
  destruct c as [[] [] [] [] [] [] [] []]; vm_compute; intros H;
    try discriminate H; reflexivity.
Qed.

Lemma lstrip_id (s : str) :
  Forall (fun c => is_space c = false) s -> lstrip s = s.
Proof.
  intros H. destruct H as [|c s Hc _]; [reflexivity|].
  cbn [lstrip]. now rewrite Hc.
Qed.

Lemma strip_id (s : str) :
  Forall (fun c => is_space c = false) s -> strip s = s.
Proof.
  intros H. unfold strip.
  rewrite (lstrip_id s H), (lstrip_id (rev s)) by (apply Forall_rev; exact H).
  apply rev_involutive.
Qed.

Lemma digits_not_space (s : str) :
  forallb is_hex_digit s = true -> Forall (fun c => is_space c = false) s.
Proof.
  induction s as [|c s IH]; intros H; [constructor|].
  cbn [forallb] in H. apply andb_prop in H as [Hc H].
  constructor; [apply hex_digit_not_space; exact Hc | apply IH; exact H].
Qed.

Lemma fromhex_ok_digits (s : str) (b : bytes) :
  fromhex s = Ok b ->
  forallb is_hex_digit s = true /\ length s = (2 * length b)%nat.
Proof.
  revert b. induction s as [| x | x y s IH] using pair_ind; intros b H.
  - injection H as <-. split; reflexivity.
  - discriminate.
  - cbn [fromhex] in H. cbn [forallb length]. unfold is_hex_digit.
    destruct (hex_val x); [|discriminate].
    destruct (hex_val y); [|discriminate].
    destruct (fromhex s) as [b'|] eqn:E; [|discriminate].
    injection H as <-. destruct (IH b' eq_refl) as [Hd Hl].
    cbn [andb length]. split; [exact Hd|lia].
Qed.

Lemma fromhex_lower (s : str) :
  forallb is_hex_digit s = true -> fromhex (lower s) = fromhex s.
Proof.
  intros H. apply fromhex_same_values.
  induction s as [|c s IH]; [constructor|].
  cbn [forallb] in H. apply andb_prop in H as [Hc H].
  cbn [lower map]. constructor; [|apply IH; exact H].
  destruct (hex_digit_cases c Hc) as [(_ & Hv & _) _]. exact Hv.
Qed.

Lemma startswith_0x_digits (s : str) :
  forallb is_hex_digit s = true -> startswith_0x s = false.
Proof.
  destruct s as [|a [|b s]]; try reflexivity.
  cbn [forallb startswith_0x]. intros H.
  apply andb_prop in H as [_ H]. apply andb_prop in H as [Hb _].
  destruct (Ascii.eqb_spec b "x") as [->|_]; [discriminate|].
  apply andb_false_r.
Qed.

Lemma normalize_prefixed (digits : str) :
  is_hex40 digits = true ->
  WhitelistRoot.normalize ("0"%char :: "x"%char :: digits)
  = Ok ("0"%char :: "x"%char :: lower digits).
Proof.
  intros H. pose proof H as H40. unfold is_hex40 in H.
  apply andb_prop in H as [_ Hd].
  unfold WhitelistRoot.normalize.
  rewrite strip_id.
  2:{ constructor; [reflexivity|]. constructor; [reflexivity|].
      apply digits_not_space; exact Hd. }
  change (startswith_0x ("0"%char :: "x"%char :: digits)) with true.
  cbv iota.
  assert (Ha : is_hex_address ("0"%char :: "x"%char :: digits) = true).
  { unfold is_hex_address. apply orb_true_iff. right.
    change (is_0x_prefixed ("0"%char :: "x"%char :: digits)) with true.
    exact H40. }
  rewrite Ha. reflexivity.
Qed.

Lemma normalize_bare (digits : str) :
  is_hex40 digits = true ->
  WhitelistRoot.normalize digits = Ok ("0"%char :: "x"%char :: lower digits).
Proof.
  intros H. rewrite <- (normalize_prefixed digits H).
  pose proof H as H40. unfold is_hex40 in H.
  apply andb_prop in H as [_ Hd].
  unfold WhitelistRoot.normalize at 1.
  rewrite (strip_id digits) by (apply digits_not_space; exact Hd).
  rewrite (startswith_0x_digits digits Hd).
  unfold WhitelistRoot.normalize.
  rewrite strip_id.
  2:{ constructor; [reflexivity|]. constructor; [reflexivity|].
      apply digits_not_space; exact Hd. }
  reflexivity.
Qed.

(** C9.  For every 20-byte address [b], written as 40 hexadecimal digits
    in any letter case, with or without [0x], the whitelist leaf hash is
    one keccak256 pass over the 32 bytes made of 12 zero bytes and [b];
    the address is put in lower case first.  In the deploy script the
    leaf of a TRON address that decodes to a version byte and 20 bytes is
    one keccak256 pass over 12 zero bytes and those 20 bytes. *)
Theorem whitelist_leaf_hash_padded (keccak : bytes -> bytes)
  (b58decode_check : str -> result bytes)
  (digits : str) (b : bytes) (tron_addr : str) (raw : bytes) :
  fromhex digits = Ok b -> length b = 20%nat ->
  b58decode_check tron_addr = Ok raw -> length raw = 21%nat ->
  WhitelistRoot.normalize ("0"%char :: "x"%char :: digits)
  = Ok ("0"%char :: "x"%char :: lower digits)
  /\ WhitelistRoot.leaf_hash keccak ("0"%char :: "x"%char :: digits)
     = Ok (keccak (zeros 12 ++ b))
  /\ WhitelistRoot.leaf_hash keccak digits = Ok (keccak (zeros 12 ++ b))
  /\ length (zeros 12 ++ b) = 32%nat
  /\ WhitelistRootDeploy.tron_to_evm_bytes32 b58decode_check tron_addr
     = Ok (zeros 12 ++ skipn 1 raw)
  /\ WhitelistRootDeploy.leaf keccak b58decode_check tron_addr
     = Ok (keccak (zeros 12 ++ skipn 1 raw))
  /\ length (zeros 12 ++ skipn 1 raw) = 32%nat.
Proof.
  intros Hb Hl Hraw Hlraw.
  destruct (fromhex_ok_digits digits b Hb) as [Hd Hlen].
  assert (H40 : is_hex40 digits = true).
  { unfold is_hex40. rewrite Hd, Hlen, Hl. reflexivity. }
  assert (Hleaf : forall a,
             WhitelistRoot.normalize a = Ok ("0"%char :: "x"%char :: lower digits) ->
             WhitelistRoot.leaf_hash keccak a = Ok (keccak (zeros 12 ++ b))).
  { intros a Ha. unfold WhitelistRoot.leaf_hash. rewrite Ha. cbn [bind skipn].
    rewrite (fromhex_lower digits Hd), Hb. reflexivity. }
  split; [apply normalize_prefixed; exact H40|].
  split; [apply Hleaf, normalize_prefixed; exact H40|].
  split; [apply Hleaf, normalize_bare; exact H40|].
  split; [rewrite length_app, Hl; reflexivity|].
  unfold WhitelistRootDeploy.leaf, WhitelistRootDeploy.tron_to_evm_bytes32.
  rewrite Hraw. cbn [bind].
  split; [reflexivity|]. split; [reflexivity|].
  rewrite length_app, length_skipn, Hlraw. reflexivity.
Qed.

Lemma whitelist_leaf_hash_padded_witness :
  WhitelistRoot.leaf_hash Sample.keccak256 Sample.user1
  = Ok (Sample.keccak256
          (zeros 12 ++ Sample.unhex "70997970c51812dc3a010c7d01b50e0d17dc79c8"))
  /\ WhitelistRootDeploy.leaf Sample.keccak256 Sample.b58decode_check
       Sample.TRON_SENDER
     = Ok (Sample.keccak256
             (zeros 12 ++ Sample.unhex "68b86ce0e9e72367e20a0e144bece5e2bb61f403")).
Proof.
  destruct (whitelist_leaf_hash_padded Sample.keccak256 Sample.b58decode_check
              (Sample.s "70997970C51812dc3A010C7d01b50e0d17dc79C8")
              (Sample.unhex "70997970c51812dc3a010c7d01b50e0d17dc79c8")
              Sample.TRON_SENDER
              (Sample.unhex "4168b86ce0e9e72367e20a0e144bece5e2bb61f403"))
    as (_ & H1 & _ & _ & _ & H2 & _).
  - vm_compute. reflexivity.
  - vm_compute. reflexivity.
  - vm_compute. reflexivity.
  - vm_compute. reflexivity.
  - split; [exact H1 | exact H2].
Defined.

End WhitelistLeafClaims.

(* ================================================================= *)
(** ** Further properties: the shape of trees and proofs *)

Section TreeProperties.

Import Web3 Spec.

Lemma reduces_depth (reduce : list bytes -> list bytes) :
  (forall l, (length l <= 2 * length (reduce l) <= length l + 1)%nat) ->
  forall rest prev,
    reduces reduce prev rest ->
    (length prev <= 2 ^ length rest)%nat
    /\ (rest <> [] -> (2 ^ (length rest - 1) < length prev)%nat).
Proof.
  intros Hred. induction rest as [|l rest IH]; intros prev Hr.
  - cbn in *. split; [lia|]. intros H. now elim H.
  - cbn [reduces] in Hr. destruct Hr as (H1 & -> & Hr).
    destruct (IH _ Hr) as [Hup Hlow].
    pose proof (Hred prev) as Hl.
    cbn [length]. rewrite Nat.pow_succ_r'. split; [lia|]. intros _.
    replace (S (length rest) - 1)%nat with (length rest) by lia.
    destruct rest as [|l' rest'].
    + cbn. lia.
    + specialize (Hlow ltac:(discriminate)).
      cbn [length] in *. replace (S (length rest') - 1)%nat with (length rest') in Hlow by lia.
      rewrite Nat.pow_succ_r'. lia.
Qed.

(** The number of layers is logarithmic in the number of leaves: a tree of
    [n >= 1] leaves with [d] layers has [n <= 2^(d-1)], and [2^(d-2) < n]
    when [n >= 2].  This holds under both rules for an unpaired node. *)
Theorem tree_depth_logarithmic (keccak : bytes -> bytes) (leaves : list bytes)
  (tree : list (list bytes)) :
  leaves <> [] ->
  BatchRoot._build_tree keccak leaves = Ok tree
  \/ WhitelistRoot.build_tree keccak leaves = Ok tree ->
  (length leaves <= 2 ^ (length tree - 1))%nat
  /\ ((2 <= length leaves)%nat -> (2 ^ (length tree - 2) < length leaves)%nat).
Proof.
  intros Hne Ht.
  assert (H : exists reduce,
             (forall l, (length l <= 2 * length (reduce l) <= length l + 1)%nat)
             /\ tree = leaves :: layers_after reduce (length leaves) leaves).
  { destruct Ht as [Ht|Ht].
    - exists (reduce_promote keccak). split; [apply reduce_promote_length|].
      rewrite build_tree_spec in Ht by exact Hne. congruence.
    - exists (reduce_duplicate keccak). split; [apply reduce_duplicate_length|].
      rewrite whitelist_build_tree_spec in Ht. congruence. }
  destruct H as (reduce & Hred & ->).
  pose proof (layers_after_reduces reduce Hred _ leaves (le_n _)) as Hr.
  destruct (reduces_depth reduce Hred _ _ Hr) as [Hup Hlow].
  cbn [length]. rewrite Nat.sub_succ, Nat.sub_0_r. split; [exact Hup|].
  intros H2.
  destruct (layers_after reduce (length leaves) leaves) as [|l rest] eqn:E.
  - cbn in Hr. lia.
  - specialize (Hlow ltac:(discriminate)). cbn [length] in *.
    rewrite Nat.sub_succ, Nat.sub_0_r in Hlow.
    replace (S (S (length rest)) - 2)%nat with (length rest) by lia.
    exact Hlow.
Qed.

Lemma tree_depth_logarithmic_witness :
  exists tree,
    BatchRoot._build_tree Sample.keccak256 [Sample.leaf1; Sample.leaf2; Sample.leaf3]
    = Ok tree
    /\ (3 <= 2 ^ (length tree - 1))%nat /\ (2 ^ (length tree - 2) < 3)%nat.
Proof.
  set (leaves := [Sample.leaf1; Sample.leaf2; Sample.leaf3]).
  assert (Hb : BatchRoot._build_tree Sample.keccak256 leaves
               = Ok (leaves :: layers_after (reduce_promote Sample.keccak256) 3 leaves)).
  { apply (build_tree_spec Sample.keccak256 leaves). discriminate. }
  eexists. split; [exact Hb|].
  destruct (tree_depth_logarithmic Sample.keccak256 leaves _ ltac:(discriminate)
              (or_introl Hb))
    as [Hup Hlow].
  split; [exact Hup | apply Hlow; simpl; lia].
Defined.

Lemma removelast_length {A : Type} (l : list A) :
  length (removelast l) = Nat.pred (length l).
Proof.
  rewrite removelast_firstn_len, length_firstn. lia.
Qed.

Lemma removelast_incl {A : Type} (l : list A) (x : A) :
  In x (removelast l) -> In x l.
Proof.
  induction l as [|y l IH]; [auto|].
  destruct l as [|z l]; [intros []|].
  change (removelast (y :: z :: l)) with (y :: removelast (z :: l)).
  intros [->|H]; [left; reflexivity|right; apply IH; exact H].
Qed.

Lemma getitem_in {A : Type} (l : list A) (i : Z) (x : A) :
  getitem l i = Ok x -> In x l.
Proof.
  unfold getitem. destruct (_ && _); [|discriminate].
  destruct (nth_error l _) eqn:E; [|discriminate].
  intros H. injection H as <-. eapply nth_error_In. exact E.
Qed.

Lemma get_proof_loop_extends (levels : list (list bytes)) :
  forall (idx : Z) (acc pf : list bytes),
    BatchRoot.get_proof_loop levels idx acc = Ok pf ->
    exists ext,
      pf = acc ++ ext /\ (length ext <= length levels)%nat
      /\ Forall (fun x => exists layer, In layer levels /\ In x layer) ext.
Proof.
  induction levels as [|curr levels IH]; intros idx acc pf H.
  - injection H as <-. exists []. rewrite app_nil_r. repeat split; [simpl; lia|constructor].
  - cbn [BatchRoot.get_proof_loop] in H.
    assert (Hstep : forall acc',
               BatchRoot.get_proof_loop levels (idx / 2) acc' = Ok pf ->
               (acc' = acc \/ exists x, In x curr /\ acc' = acc ++ [x]) ->
               exists ext,
                 pf = acc ++ ext /\ (length ext <= length (curr :: levels))%nat
                 /\ Forall (fun x => exists layer, In layer (curr :: levels) /\ In x layer) ext).
    { intros acc' Hrec Hacc.
      destruct (IH _ _ _ Hrec) as (ext & -> & Hlen & Hall).
      assert (Hall' : Forall (fun x => exists layer,
                                  In layer (curr :: levels) /\ In x layer) ext).
      { eapply Forall_impl; [|exact Hall].
        intros x (layer & Hin & Hx). exists layer. split; [right; exact Hin|exact Hx]. }
      destruct Hacc as [->|(x & Hx & ->)].
      - exists ext. split; [reflexivity|]. split; [simpl; lia|exact Hall'].
      - exists (x :: ext). rewrite <- app_assoc. split; [reflexivity|].
        split; [simpl; lia|].
        constructor; [|exact Hall']. exists curr. split; [left; reflexivity|exact Hx]. }
    destruct (idx mod 2 =? 0).
    + destruct (idx + 1 <? len curr).
      * destruct (getitem curr (idx + 1)) as [x|e] eqn:E; [|discriminate].
        cbn [bind] in H. apply (Hstep _ H). right. exists x.
        split; [eapply getitem_in; exact E|reflexivity].
      * cbn [bind] in H. apply (Hstep _ H). left. reflexivity.
    + destruct (getitem curr (idx - 1)) as [x|e] eqn:E; [|discriminate].
      cbn [bind] in H. apply (Hstep _ H). right. exists x.
      split; [eapply getitem_in; exact E|reflexivity].
Qed.

(** A proof is short: whatever the index, a proof that [get_proof] returns
    for a tree of [n >= 1] leaves has fewer than [log2 n + 1] elements
    ([2 ^ length < 2 n]), and each of them is a node of the tree. *)
Theorem proof_size_logarithmic (keccak : bytes -> bytes) (leaves : list bytes)
  (t : BatchRoot.MerkleTree) (index : Z) (proof : list bytes) :
  leaves <> [] ->
  BatchRoot.__init__ keccak leaves = Ok t ->
  BatchRoot.get_proof t index = Ok proof ->
  (2 ^ length proof < 2 * length leaves)%nat
  /\ Forall (fun x => exists layer, In layer (BatchRoot.tree t) /\ In x layer) proof.
Proof.
  intros Hne Ht Hp.
  rewrite (init_spec keccak leaves Hne) in Ht. injection Ht as <-.
  unfold BatchRoot.get_proof in Hp. cbn [BatchRoot.tree] in *.
  set (rest := layers_after (reduce_promote keccak) (length leaves) leaves) in *.
  pose proof (layers_after_reduces (reduce_promote keccak)
                (reduce_promote_length keccak) _ leaves (le_n _)) as Hr.
  fold rest in Hr.
  destruct (get_proof_loop_extends _ _ _ _ Hp) as (ext & -> & Hlen & Hall).
  cbn [app]. split.
  - destruct (reduces_depth _ (reduce_promote_length keccak) _ _ Hr) as [Hup Hlow].
    rewrite removelast_length in Hlen. cbn [length Nat.pred] in Hlen.
    assert (Hpow : (2 ^ length ext <= 2 ^ length rest)%nat)
      by (apply Nat.pow_le_mono_r; lia).
    destruct rest as [|l r].
    + assert (length ext = 0)%nat by (simpl in Hlen; lia).
      destruct leaves; [now elim Hne|]. rewrite H. simpl. lia.
    + specialize (Hlow ltac:(discriminate)). cbn [length] in *.
      rewrite Nat.sub_succ, Nat.sub_0_r in Hlow.
      rewrite Nat.pow_succ_r' in Hpow. lia.
  - eapply Forall_impl; [|exact Hall].
    intros x (layer & Hin & Hx). exists layer. split; [|exact Hx].
    eapply removelast_incl. exact Hin.
Qed.

Lemma proof_size_logarithmic_witness :
  exists t proof,
    BatchRoot.__init__ Sample.keccak256 [Sample.leaf1; Sample.leaf2; Sample.leaf3]
    = Ok t
    /\ BatchRoot.get_proof t 2 = Ok proof
    /\ (2 ^ length proof < 2 * 3)%nat.
Proof.
  pose (leaves := [Sample.leaf1; Sample.leaf2; Sample.leaf3]).
  pose (t := {| BatchRoot.leaves := leaves;
                BatchRoot.tree :=
                  leaves :: layers_after (reduce_promote Sample.keccak256)
                              (length leaves) leaves |}).
  pose (proof := [combine Sample.keccak256 Sample.leaf1 Sample.leaf2]).
  assert (Hne : leaves <> []) by discriminate.
  assert (Ht : BatchRoot.__init__ Sample.keccak256 leaves = Ok t)
    by (apply init_spec; exact Hne).
  assert (Hp : BatchRoot.get_proof t 2 = Ok proof) by (vm_compute; reflexivity).
  destruct (proof_size_logarithmic Sample.keccak256 leaves t 2 proof Hne Ht Hp)
    as [Hsize _].
  exists t, proof. split; [exact Ht|]. split; [exact Hp | exact Hsize].
Defined.

(** A negative index is not rejected either: for every tree of at least
    one leaf, [get_proof(-1)] returns a list with one element for each
    layer below the root. *)
Lemma get_proof_loop_minus_one (reduce : list bytes -> list bytes)
  (rest : list (list bytes)) :
  forall (cur : list bytes) (acc : list bytes),
    reduces reduce cur rest ->
    exists ext,
      BatchRoot.get_proof_loop (removelast (cur :: rest)) (-1) acc = Ok (acc ++ ext)
      /\ length ext = length rest.
Proof.
  induction rest as [|l rest IH]; intros cur acc Hr.
  - exists []. rewrite app_nil_r. split; reflexivity.
  - cbn [reduces] in Hr. destruct Hr as (H1 & -> & Hr).
    change (removelast (cur :: reduce cur :: rest))
      with (cur :: removelast (reduce cur :: rest)).
    cbn [BatchRoot.get_proof_loop].
    change (-1 mod 2 =? 0) with false. change (-1 / 2) with (-1). cbv iota.
    destruct (nth_error_lt cur (length cur - 2)) as [y Hy]; [lia|].
    assert (Hg : getitem cur (-1 - 1) = Ok y).
    { unfold getitem, len. change (-1 - 1 <? 0) with true. cbv iota.
      destruct (Z.leb_spec 0 (-1 - 1 + Z.of_nat (length cur))) as [_|]; [|lia].
      destruct (Z.ltb_spec (-1 - 1 + Z.of_nat (length cur)) (Z.of_nat (length cur)))
        as [_|]; [|lia].
      cbn [andb].
      replace (Z.to_nat (-1 - 1 + Z.of_nat (length cur))) with (length cur - 2)%nat
        by lia.
      rewrite Hy. reflexivity. }
    rewrite Hg. cbn [bind].
    destruct (IH _ (acc ++ [y]) Hr) as (ext & Hext & Hlen).
    exists (y :: ext). rewrite Hext, <- app_assoc.
    split; [reflexivity|]. simpl. now rewrite Hlen.
Qed.

(** Python's negative indexing makes [get_proof] accept the index [-1]:
    on a tree of non-empty leaves it returns a list instead of raising, one
    element for each layer below the top. *)
Theorem get_proof_minus_one (keccak : bytes -> bytes) (leaves : list bytes)
  (t : BatchRoot.MerkleTree) :
  leaves <> [] ->
  BatchRoot.__init__ keccak leaves = Ok t ->
  exists proof,
    BatchRoot.get_proof t (-1) = Ok proof
    /\ length proof = (length (BatchRoot.tree t) - 1)%nat.
Proof.
  intros Hne Ht.
  rewrite (init_spec keccak leaves Hne) in Ht. injection Ht as <-.
  unfold BatchRoot.get_proof. cbn [BatchRoot.tree].
  pose proof (layers_after_reduces (reduce_promote keccak)
                (reduce_promote_length keccak) _ leaves (le_n _)) as Hr.
  destruct (get_proof_loop_minus_one _ _ leaves [] Hr) as (ext & Hext & Hlen).
  exists ext. split; [exact Hext|].
  cbn [length]. rewrite Hlen. lia.
Qed.

Lemma get_proof_minus_one_witness :
  exists t proof,
    BatchRoot.__init__ Sample.keccak256 [Sample.leaf1; Sample.leaf2; Sample.leaf3]
    = Ok t
    /\ BatchRoot.get_proof t (-1) = Ok proof
    /\ length proof = 2%nat.
Proof.
  pose (leaves := [Sample.leaf1; Sample.leaf2; Sample.leaf3]).
  pose (t := {| BatchRoot.leaves := leaves;
                BatchRoot.tree :=
                  leaves :: layers_after (reduce_promote Sample.keccak256)
                              (length leaves) leaves |}).
  assert (Hne : leaves <> []) by discriminate.
  assert (Ht : BatchRoot.__init__ Sample.keccak256 leaves = Ok t)
    by (apply init_spec; exact Hne).
  destruct (get_proof_minus_one Sample.keccak256 leaves t Hne Ht)
    as (proof & Hp & Hl).
  exists t, proof. split; [exact Ht|]. split; [exact Hp | exact Hl].
Defined.

Lemma reduce_promote_swap (keccak : bytes -> bytes) (l1 l2 : list bytes)
  (a b : bytes) :
  Nat.even (length l1) = true ->
  reduce_promote keccak (l1 ++ a :: b :: l2)
  = reduce_promote keccak (l1 ++ b :: a :: l2).
Proof.
  induction l1 as [| x | x y l1 IH] using pair_ind; intros He.
  - cbn [app reduce_promote]. now rewrite (combine_comm keccak a b).
  - discriminate.
  - cbn [app reduce_promote]. f_equal. apply IH. exact He.
Qed.

Lemma reduce_duplicate_swap (keccak : bytes -> bytes) (l1 l2 : list bytes)
  (a b : bytes) :
  Nat.even (length l1) = true ->
  reduce_duplicate keccak (l1 ++ a :: b :: l2)
  = reduce_duplicate keccak (l1 ++ b :: a :: l2).
Proof.
  induction l1 as [| x | x y l1 IH] using pair_ind; intros He.
  - cbn [app reduce_duplicate]. now rewrite (combine_comm keccak a b).
  - discriminate.
  - cbn [app reduce_duplicate]. f_equal. apply IH. exact He.
Qed.

Lemma layers_after_same (reduce : list bytes -> list bytes) (n : nat)
  (l l' : list bytes) :
  length l = length l' -> reduce l = reduce l' ->
  layers_after reduce n l = layers_after reduce n l'.
Proof.
  intros Hl Hr. destruct n as [|n]; [reflexivity|].
  cbn [layers_after]. now rewrite Hl, Hr.
Qed.

(** The root does not tell the two nodes of a pair apart: exchanging the
    leaves at positions [2k] and [2k+1] changes layer 0 only, so every
    layer above it and the root stay the same, in the batch tree and in the
    whitelist tree. *)
Theorem sibling_swap_keeps_root (keccak : bytes -> bytes)
  (l1 l2 : list bytes) (a b : bytes) :
  Nat.even (length l1) = true ->
  exists upper wupper t t',
    BatchRoot._build_tree keccak (l1 ++ a :: b :: l2)
    = Ok ((l1 ++ a :: b :: l2) :: upper)
    /\ BatchRoot._build_tree keccak (l1 ++ b :: a :: l2)
       = Ok ((l1 ++ b :: a :: l2) :: upper)
    /\ BatchRoot.__init__ keccak (l1 ++ a :: b :: l2) = Ok t
    /\ BatchRoot.__init__ keccak (l1 ++ b :: a :: l2) = Ok t'
    /\ BatchRoot.get_root t = BatchRoot.get_root t'
    /\ WhitelistRoot.build_tree keccak (l1 ++ a :: b :: l2)
       = Ok ((l1 ++ a :: b :: l2) :: wupper)
    /\ WhitelistRoot.build_tree keccak (l1 ++ b :: a :: l2)
       = Ok ((l1 ++ b :: a :: l2) :: wupper).
Proof.
  intros He.
  set (L := l1 ++ a :: b :: l2). set (L' := l1 ++ b :: a :: l2).
  assert (Hlen : length L = length L').
  { unfold L, L'. rewrite !length_app. reflexivity. }
  assert (HL : L <> []) by (unfold L; destruct l1; discriminate).
  assert (HL' : L' <> []) by (unfold L'; destruct l1; discriminate).
  assert (H2 : (2 <= length L)%nat).
  { unfold L. rewrite length_app. simpl. lia. }
  exists (layers_after (reduce_promote keccak) (length L) L),
         (layers_after (reduce_duplicate keccak) (length L) L).
  assert (Hup : layers_after (reduce_promote keccak) (length L') L'
                = layers_after (reduce_promote keccak) (length L) L).
  { rewrite <- Hlen. symmetry. apply layers_after_same; [exact Hlen|].
    apply reduce_promote_swap. exact He. }
  assert (Hwup : layers_after (reduce_duplicate keccak) (length L') L'
                 = layers_after (reduce_duplicate keccak) (length L) L).
  { rewrite <- Hlen. symmetry. apply layers_after_same; [exact Hlen|].
    apply reduce_duplicate_swap. exact He. }
  eexists _, _.
  split; [apply build_tree_spec; exact HL|].
  split; [rewrite build_tree_spec by exact HL'; now rewrite Hup|].
  split; [apply init_spec; exact HL|].
  split; [apply init_spec; exact HL'|].
  split.
  - unfold BatchRoot.get_root. cbn [BatchRoot.tree]. rewrite Hup.
    destruct (layers_after (reduce_promote keccak) (length L) L) as [|x u] eqn:E.
    + exfalso. destruct (length L) as [|[|n]] eqn:En; try lia.
      cbn [layers_after] in E. rewrite En in E.
      change (1 <? S (S n))%nat with true in E. discriminate.
    + reflexivity.
  - split; [apply whitelist_build_tree_spec|].
    rewrite whitelist_build_tree_spec. now rewrite Hwup.
Qed.

Lemma sibling_swap_keeps_root_witness :
  exists upper,
    BatchRoot._build_tree Sample.keccak256 [Sample.leaf1; Sample.leaf2; Sample.leaf3]
    = Ok ([Sample.leaf1; Sample.leaf2; Sample.leaf3] :: upper)
    /\ BatchRoot._build_tree Sample.keccak256 [Sample.leaf2; Sample.leaf1; Sample.leaf3]
       = Ok ([Sample.leaf2; Sample.leaf1; Sample.leaf3] :: upper).
Proof.
  destruct (sibling_swap_keeps_root Sample.keccak256 [] [Sample.leaf3]
              Sample.leaf1 Sample.leaf2 eq_refl)
    as (upper & _ & _ & _ & H1 & H2 & _).
  exists upper. split; [exact H1 | exact H2].
Defined.

(** A tree of one leaf is that leaf: under both rules the only layer is
    the leaf itself, which is the root, not hashed; its proof is empty and
    verifies, in the batch script and in each of the two whitelist
    scripts. *)
Theorem single_leaf_is_root (keccak : bytes -> bytes) (x : bytes) :
  BatchRoot._build_tree keccak [x] = Ok [[x]]
  /\ BatchRoot.get_root {| BatchRoot.leaves := [x]; BatchRoot.tree := [[x]] |} = x
  /\ BatchRoot.get_proof {| BatchRoot.leaves := [x]; BatchRoot.tree := [[x]] |} 0
     = Ok []
  /\ BatchRoot.is_valid keccak [x] 0 = Ok true
  /\ WhitelistRoot.build_tree keccak [x] = Ok [[x]]
  /\ WhitelistRoot.proof [[x]] 0 = Ok []
  /\ WhitelistRoot.verify_sorted keccak x [] x = true
  /\ WhitelistRoot.ok keccak [x] 0 = Ok true
  /\ WhitelistRootDeploy.merkle_tree keccak [x] = Ok [[x]]
  /\ WhitelistRootDeploy.merkle_root [[x]] = Ok (Some x)
  /\ WhitelistRootDeploy.merkle_proof [[x]] 0 = Ok []
  /\ WhitelistRootDeploy.verify_proof keccak x [] x = true.
Proof.
  split; [reflexivity|]. split; [reflexivity|]. split; [reflexivity|].
  split.
  { unfold BatchRoot.is_valid. cbn.
    unfold BatchRoot.verify_proof. cbn. now rewrite bytes_eqb_refl. }
  split; [reflexivity|]. split; [reflexivity|].
  split.
  { unfold WhitelistRoot.verify_sorted. cbn. apply bytes_eqb_refl. }
  split.
  { unfold WhitelistRoot.ok. cbn.
    unfold WhitelistRoot.verify_sorted. cbn. now rewrite bytes_eqb_refl. }
  split; [reflexivity|]. split; [reflexivity|]. split; [reflexivity|].
  unfold WhitelistRootDeploy.verify_proof. cbn. apply bytes_eqb_refl.
Qed.

End TreeProperties.

(* ================================================================= *)
(** ** Further properties: the scripts compared *)

Section CrossScriptProperties.

Import Web3 Spec.

Lemma deploy_verify_loop_fold (keccak : bytes -> bytes) (leaf : bytes)
  (proof : list bytes) :
  WhitelistRootDeploy.verify_loop keccak leaf proof = fold_proof keccak leaf proof.
Proof.
  revert leaf. induction proof as [|p proof IH]; intros leaf; [reflexivity|].
  cbn [WhitelistRootDeploy.verify_loop].
  replace (if bytes_gt leaf p then keccak (p ++ leaf) else keccak (leaf ++ p))
    with (combine keccak leaf p); [apply IH|].
  rewrite <- deploy_combined_pair_combine.
  unfold WhitelistRootDeploy.combined_pair. destruct (bytes_gt leaf p); reflexivity.
Qed.

(** The three verifiers are one predicate: on every leaf, proof and root
    they give the same answer, namely whether folding the sorted-pair hash
    over the proof, starting from the leaf, ends in the root. *)
Theorem verifiers_agree (keccak : bytes -> bytes) (t : BatchRoot.MerkleTree)
  (leaf : bytes) (proof : list bytes) (root : bytes) :
  BatchRoot.verify_proof keccak t leaf proof root
  = Ok (WhitelistRoot.verify_sorted keccak leaf proof root)
  /\ WhitelistRootDeploy.verify_proof keccak leaf proof root
     = WhitelistRoot.verify_sorted keccak leaf proof root
  /\ (WhitelistRoot.verify_sorted keccak leaf proof root = true
      <-> fold_left (fun h p => keccak (bytes_min h p ++ bytes_max h p)) proof leaf
          = root).
Proof.
  unfold BatchRoot.verify_proof, WhitelistRootDeploy.verify_proof,
    WhitelistRoot.verify_sorted.
  rewrite verify_loop_fold, deploy_verify_loop_fold, whitelist_verify_loop_fold.
  cbn [bind]. split; [reflexivity|]. split; [reflexivity|].
  apply bytes_eqb_eq.
Qed.

Lemma lxor_1_even (k : Z) : Z.lxor (2 * k) 1 = 2 * k + 1.
Proof.
  symmetry. apply Z.add_nocarry_lxor.
  change 1 with (Z.ones 1). rewrite Z.land_ones by lia.
  change (2 ^ 1) with 2. rewrite Z.mul_comm. apply Z.mod_mul. lia.
Qed.

Lemma lxor_1_odd (k : Z) : Z.lxor (2 * k + 1) 1 = 2 * k.
Proof.
  rewrite <- (lxor_1_even k), Z.lxor_assoc, Z.lxor_nilpotent.
  apply Z.lxor_0_r.
Qed.

Lemma lxor_1_cases (idx : Z) :
  (idx mod 2 = 0 /\ Z.lxor idx 1 = idx + 1)
  \/ (idx mod 2 = 1 /\ Z.lxor idx 1 = idx - 1).
Proof.
  pose proof (Z.div_mod idx 2 ltac:(lia)) as Hd.
  pose proof (Z.mod_pos_bound idx 2 ltac:(lia)) as Hm.
  assert (Hc : idx mod 2 = 0 \/ idx mod 2 = 1) by lia.
  destruct Hc as [Hc|Hc]; [left|right]; (split; [exact Hc|]);
    rewrite Hc in Hd; rewrite Hd at 1.
  - rewrite Z.add_0_r, lxor_1_even. lia.
  - rewrite lxor_1_odd. lia.
Qed.

Lemma getitem_ok_range {A : Type} (l : list A) (i : Z) (x : A) :
  0 <= i -> getitem l i = Ok x -> i < len l.
Proof.
  intros Hi. unfold getitem.
  destruct (Z.ltb_spec i 0); [lia|].
  destruct (Z.leb_spec 0 i); [|lia].
  destruct (Z.ltb_spec i (len l)); [lia|]. discriminate.
Qed.

Lemma proof_loop_of_get_proof_loop (levels : list (list bytes)) :
  forall (idx : Z) (acc pf : list bytes),
    0 <= idx ->
    BatchRoot.get_proof_loop levels idx acc = Ok pf ->
    WhitelistRoot.proof_loop levels idx acc = Ok pf.
Proof.
  induction levels as [|curr levels IH]; intros idx acc pf Hidx H; [exact H|].
  cbn [BatchRoot.get_proof_loop] in H. cbn [WhitelistRoot.proof_loop].
  assert (Hd : 0 <= idx / 2) by (apply Z.div_pos; lia).
  destruct (lxor_1_cases idx) as [[Hm ->]|[Hm ->]]; rewrite Hm in H.
  - change (0 =? 0) with true in H. cbv iota in H.
    destruct (idx + 1 <? len curr).
    + destruct (getitem curr (idx + 1)) as [x|e]; [|discriminate].
      cbn [bind] in *. apply IH; assumption.
    + cbn [bind] in *. apply IH; assumption.
  - change (1 =? 0) with false in H. cbv iota in H.
    destruct (getitem curr (idx - 1)) as [x|e] eqn:E; [|discriminate].
    assert (Hlt : idx - 1 < len curr).
    { assert (idx <> 0) by (intros ->; discriminate Hm).
      apply (getitem_ok_range curr (idx - 1) x); [lia|exact E]. }
    destruct (Z.ltb_spec (idx - 1) (len curr)); [|lia].
    cbn [bind] in *. apply IH; assumption.
Qed.

(** The two proof generators read the same siblings: on any layers and any
    index that is not negative, when the batch [get_proof] returns a list
    the whitelist [proof] returns that list. *)
Theorem whitelist_proof_matches_batch (t : BatchRoot.MerkleTree) (index : Z)
  (proof : list bytes) :
  0 <= index ->
  BatchRoot.get_proof t index = Ok proof ->
  WhitelistRoot.proof (BatchRoot.tree t) index = Ok proof.
Proof.
  intros Hi H. apply proof_loop_of_get_proof_loop; assumption.
Qed.

Lemma whitelist_proof_matches_batch_witness :
  WhitelistRoot.proof
    [[Sample.leaf1; Sample.leaf2]; [combine Sample.keccak256 Sample.leaf1 Sample.leaf2]] 0
  = Ok [Sample.leaf2].
Proof.
  apply (whitelist_proof_matches_batch
           {| BatchRoot.leaves := [Sample.leaf1; Sample.leaf2];
              BatchRoot.tree :=
                [[Sample.leaf1; Sample.leaf2];
                 [combine Sample.keccak256 Sample.leaf1 Sample.leaf2]] |} 0).
  - discriminate.
  - reflexivity.
Defined.

Lemma merkle_proof_loop_in_range (keccak : bytes -> bytes)
  (reduce : list bytes -> list bytes) :
  (forall l, (length l <= 2 * length (reduce l) <= length l + 1)%nat) ->
  forall (rest : list (list bytes)) (cur : list bytes) (i : nat) (acc : list bytes),
    reduces reduce cur rest ->
    (i < length cur)%nat ->
    WhitelistRootDeploy.merkle_proof_loop (removelast (cur :: rest)) (Z.of_nat i) acc
    = WhitelistRoot.proof_loop (removelast (cur :: rest)) (Z.of_nat i) acc.
Proof.
  intros Hred. induction rest as [|l rest IH]; intros cur i acc Hr Hi.
  - reflexivity.
  - cbn [reduces] in Hr. destruct Hr as (H1 & -> & Hr).
    change (removelast (cur :: reduce cur :: rest))
      with (cur :: removelast (reduce cur :: rest)).
    cbn [WhitelistRootDeploy.merkle_proof_loop WhitelistRoot.proof_loop].
    assert (Hrec : forall acc',
               WhitelistRootDeploy.merkle_proof_loop
                 (removelast (reduce cur :: rest)) (Z.of_nat i / 2) acc'
               = WhitelistRoot.proof_loop
                   (removelast (reduce cur :: rest)) (Z.of_nat i / 2) acc').
    { intros acc'. change 2 with (Z.of_nat 2). rewrite <- Nat2Z.inj_div.
      apply IH; [exact Hr|].
      pose proof (Hred cur). pose proof (Nat.div_mod_eq i 2).
      pose proof (Nat.mod_upper_bound i 2 ltac:(lia)). lia. }
    destruct (Z.lxor (Z.of_nat i) 1 <? len cur).
    + destruct (getitem cur (Z.lxor (Z.of_nat i) 1)) as [s|e]; cbn [bind];
        [|reflexivity].
      destruct (nth_error_lt cur i Hi) as [x Hx].
      rewrite (getitem_nth _ _ _ Hx). cbn [bind]. apply Hrec.
    + cbn [bind]. apply Hrec.
Qed.

(** The two whitelist scripts agree: from the same leaves they build the
    same tree, and for every index in range they return the same proof. *)
Theorem whitelist_scripts_agree (keccak : bytes -> bytes) (leaves : list bytes)
  (i : Z) :
  0 <= i < len leaves ->
  exists tree pf,
    WhitelistRoot.build_tree keccak leaves = Ok tree
    /\ WhitelistRootDeploy.merkle_tree keccak leaves = Ok tree
    /\ WhitelistRoot.proof tree i = Ok pf
    /\ WhitelistRootDeploy.merkle_proof tree i = Ok pf.
Proof.
  intros Hi. unfold len in Hi.
  pose proof (layers_after_reduces (reduce_duplicate keccak)
                (reduce_duplicate_length keccak) _ leaves (le_n _)) as Hr.
  destruct (proof_loop_total
              (removelast (leaves :: layers_after (reduce_duplicate keccak)
                                       (length leaves) leaves)) i [] (proj1 Hi))
    as [pf Hpf].
  eexists _, pf.
  split; [apply whitelist_build_tree_spec|].
  split; [apply merkle_tree_spec|].
  split; [exact Hpf|].
  unfold WhitelistRootDeploy.merkle_proof.
  rewrite <- (Z2Nat.id i) by lia.
  rewrite (merkle_proof_loop_in_range keccak _ (reduce_duplicate_length keccak)
             _ leaves (Z.to_nat i) [] Hr) by lia.
  rewrite Z2Nat.id by lia. exact Hpf.
Qed.

Lemma whitelist_scripts_agree_witness :
  exists tree pf,
    WhitelistRoot.build_tree Sample.keccak256 [Sample.leaf1; Sample.leaf2; Sample.leaf3]
    = Ok tree
    /\ WhitelistRootDeploy.merkle_tree Sample.keccak256
         [Sample.leaf1; Sample.leaf2; Sample.leaf3] = Ok tree
    /\ WhitelistRoot.proof tree 2 = Ok pf
    /\ WhitelistRootDeploy.merkle_proof tree 2 = Ok pf.
Proof.
  apply (whitelist_scripts_agree Sample.keccak256
           [Sample.leaf1; Sample.leaf2; Sample.leaf3] 2).
  vm_compute. split; [discriminate|reflexivity].
Defined.

(** Past the end the two whitelist scripts part: for an odd number
    [n >= 3] of leaves, [merkle_proof(tree, n)] raises IndexError on its
    read of [layer[index]], where [proof(layers, n)] returns a list. *)
Theorem merkle_proof_index_error (keccak : bytes -> bytes) (leaves : list bytes)
  (tree : list (list bytes)) :
  Nat.odd (length leaves) = true -> (3 <= length leaves)%nat ->
  WhitelistRootDeploy.merkle_tree keccak leaves = Ok tree ->
  WhitelistRootDeploy.merkle_proof tree (len leaves) = Raise IndexError
  /\ exists pf, WhitelistRoot.proof tree (len leaves) = Ok pf.
Proof.
  intros Ho H3 Ht. rewrite merkle_tree_spec in Ht. injection Ht as <-.
  split.
  - unfold WhitelistRootDeploy.merkle_proof.
    assert (Hla : exists r,
               layers_after (reduce_duplicate keccak) (length leaves) leaves
               = reduce_duplicate keccak leaves :: r).
    { destruct (length leaves) as [|n] eqn:En; [lia|].
      cbn [layers_after]. rewrite En.
      destruct (Nat.ltb_spec 1 (S n)); [eauto|lia]. }
    destruct Hla as [r ->].
    change (removelast (leaves :: reduce_duplicate keccak leaves :: r))
      with (leaves :: removelast (reduce_duplicate keccak leaves :: r)).
    cbn [WhitelistRootDeploy.merkle_proof_loop].
    apply Nat.odd_spec in Ho. destruct Ho as [k Hk].
    unfold len.
    assert (Hx : Z.lxor (Z.of_nat (length leaves)) 1 = Z.of_nat (2 * k)).
    { replace (Z.of_nat (length leaves)) with (2 * Z.of_nat k + 1) by lia.
      rewrite lxor_1_odd. lia. }
    rewrite Hx.
    destruct (Z.ltb_spec (Z.of_nat (2 * k)) (Z.of_nat (length leaves))); [|lia].
    destruct (nth_error_lt leaves (2 * k)) as [y Hy]; [lia|].
    rewrite (getitem_nth _ _ _ Hy). cbn [bind].
    assert (Hg : getitem leaves (Z.of_nat (length leaves)) = @Raise bytes IndexError).
    { unfold getitem, len.
      destruct (Z.ltb_spec (Z.of_nat (length leaves)) 0); [lia|].
      destruct (Z.leb_spec 0 (Z.of_nat (length leaves))); [|lia].
      destruct (Z.ltb_spec (Z.of_nat (length leaves)) (Z.of_nat (length leaves)));
        [lia|].
      reflexivity. }
    rewrite Hg. reflexivity.
  - apply proof_loop_total. unfold len. lia.
Qed.

Lemma merkle_proof_index_error_witness :
  exists tree,
    WhitelistRootDeploy.merkle_tree Sample.keccak256
      [Sample.leaf1; Sample.leaf2; Sample.leaf3] = Ok tree
    /\ WhitelistRootDeploy.merkle_proof tree 3 = Raise IndexError.
Proof.
  pose (leaves := [Sample.leaf1; Sample.leaf2; Sample.leaf3]).
  pose (tree := leaves :: layers_after (reduce_duplicate Sample.keccak256)
                            (length leaves) leaves).
  assert (Ht : WhitelistRootDeploy.merkle_tree Sample.keccak256 leaves = Ok tree)
    by apply merkle_tree_spec.
  assert (H3 : (3 <= length leaves)%nat) by (simpl; lia).
  destruct (merkle_proof_index_error Sample.keccak256 leaves tree eq_refl H3 Ht)
    as [Hraise _].
  exists tree. split; [exact Ht | exact Hraise].
Defined.

End CrossScriptProperties.

(* ================================================================= *)
(** ** Further properties: trees of a power of two leaves *)

Section PowerOfTwoProperties.

Import Web3 Spec.

Lemma reduce_duplicate_even (keccak : bytes -> bytes) (l : list bytes) :
  Nat.even (length l) = true ->
  reduce_duplicate keccak l = reduce_promote keccak l.
Proof.
  induction l as [| x | x y l IH] using pair_ind; intros He.
  - reflexivity.
  - discriminate.
  - cbn [reduce_duplicate reduce_promote]. f_equal. apply IH. exact He.
Qed.

Lemma layers_after_pow2 (keccak : bytes -> bytes) (n : nat) :
  forall (k : nat) (l : list bytes),
    length l = (2 ^ k)%nat ->
    layers_after (reduce_duplicate keccak) n l
    = layers_after (reduce_promote keccak) n l.
Proof.
  induction n as [|n IH]; intros k l Hl; [reflexivity|].
  cbn [layers_after]. destruct (Nat.ltb_spec 1 (length l)) as [H1|H1]; [|reflexivity].
  destruct k as [|k]; [simpl in Hl; lia|].
  assert (He : Nat.even (length l) = true).
  { rewrite Hl, Nat.pow_succ_r', Nat.even_mul. reflexivity. }
  rewrite (reduce_duplicate_even keccak l He). f_equal.
  apply (IH k).
  pose proof (reduce_promote_length keccak l) as Hb.
  rewrite Hl, Nat.pow_succ_r' in Hb.
  assert (Hodd : Nat.even (2 * 2 ^ k + 1) = false).
  { rewrite Nat.even_add, Nat.even_mul. reflexivity. }
  lia.
Qed.

Lemma getitem_last {A : Type} (l : list A) (d : A) :
  l <> [] -> getitem l (-1) = Ok (last l d).
Proof.
  intros Hne. unfold getitem, len. change (-1 <? 0) with true. cbv iota.
  assert (Hlen : (0 < length l)%nat) by (destruct l; [now elim Hne|simpl; lia]).
  destruct (Z.leb_spec 0 (-1 + Z.of_nat (length l))); [|lia].
  destruct (Z.ltb_spec (-1 + Z.of_nat (length l)) (Z.of_nat (length l))); [|lia].
  cbn [andb].
  replace (Z.to_nat (-1 + Z.of_nat (length l))) with (length l - 1)%nat by lia.
  rewrite (app_removelast_last d Hne) at 1 2.
  rewrite length_app, nth_error_app2 by (simpl; lia).
  replace (length (removelast l) + length [last l d] - 1 - length (removelast l))%nat
    with 0%nat by (simpl; lia).
  reflexivity.
Qed.

(** With a power of two leaves no layer is odd, so the two rules for an
    unpaired node never apply: the batch scripts and the whitelist scripts
    build the same tree and the same root. *)
Theorem power_of_two_same_tree (keccak : bytes -> bytes) (leaves : list bytes)
  (k : nat) :
  length leaves = (2 ^ k)%nat ->
  exists tree root,
    BatchRoot._build_tree keccak leaves = Ok tree
    /\ WhitelistRoot.build_tree keccak leaves = Ok tree
    /\ WhitelistRootDeploy.merkle_tree keccak leaves = Ok tree
    /\ BatchRoot.get_root {| BatchRoot.leaves := leaves; BatchRoot.tree := tree |}
       = root
    /\ WhitelistRootDeploy.merkle_root tree = Ok (Some root).
Proof.
  intros Hl.
  assert (Hne : leaves <> []).
  { intros ->. simpl in Hl. pose proof (Nat.pow_nonzero 2 k). lia. }
  pose proof (layers_after_reduces (reduce_promote keccak)
                (reduce_promote_length keccak) _ leaves (le_n _)) as Hr.
  pose proof (reduces_last _ (reduce_promote_length keccak) _ _ Hr Hne) as Hlast.
  set (tree := leaves :: layers_after (reduce_promote keccak) (length leaves) leaves)
    in *.
  destruct (last tree []) as [|root [|? ?]] eqn:E; try discriminate.
  exists tree, root.
  split; [apply build_tree_spec; exact Hne|].
  split; [rewrite whitelist_build_tree_spec, (layers_after_pow2 keccak _ k) by exact Hl;
          reflexivity|].
  split; [rewrite merkle_tree_spec, (layers_after_pow2 keccak _ k) by exact Hl;
          reflexivity|].
  split.
  - unfold BatchRoot.get_root. cbn [BatchRoot.tree]. fold tree. rewrite E.
    reflexivity.
  - unfold WhitelistRootDeploy.merkle_root. fold tree.
    change (match tree with [] => Ok None | _ :: _ =>
              top <- getitem tree (-1);; root0 <- getitem top 0;; Ok (Some root0) end)
      with (top <- getitem tree (-1);; root0 <- getitem top 0;; Ok (Some root0)).
    rewrite (getitem_last tree []) by discriminate. rewrite E. reflexivity.
Qed.

Lemma power_of_two_same_tree_witness :
  exists tree,
    BatchRoot._build_tree Sample.keccak256 [Sample.leaf1; Sample.leaf2] = Ok tree
    /\ WhitelistRoot.build_tree Sample.keccak256 [Sample.leaf1; Sample.leaf2] = Ok tree.
Proof.
  destruct (power_of_two_same_tree Sample.keccak256 [Sample.leaf1; Sample.leaf2] 1
              eq_refl)
    as (tree & root & Hb & Hw & _).
  exists tree. split; [exact Hb | exact Hw].
Defined.

(** What the whitelist scripts compute on a power of two leaves, for a
    position in range: the tree is the promoted one, and the siblings
    collected for the position fold to its single top node. *)
Lemma power_of_two_proof_facts (keccak : bytes -> bytes) (leaves : list bytes)
  (k : nat) (i : Z) :
  length leaves = (2 ^ k)%nat ->
  0 <= i < len leaves ->
  exists tree x pf,
    WhitelistRoot.build_tree keccak leaves = Ok tree
    /\ WhitelistRootDeploy.merkle_tree keccak leaves = Ok tree
    /\ getitem leaves i = Ok x
    /\ getitem tree (-1) = Ok (last tree [])
    /\ getitem (last tree []) 0 = Ok (fold_proof keccak x pf)
    /\ WhitelistRoot.proof tree i = Ok pf
    /\ WhitelistRootDeploy.merkle_proof tree i = Ok pf
    /\ WhitelistRootDeploy.merkle_root tree = Ok (Some (fold_proof keccak x pf)).
Proof.
  intros Hl Hi. unfold len in Hi.
  assert (Hne : leaves <> []) by (intros ->; simpl in Hi; lia).
  destruct (nth_error_lt leaves (Z.to_nat i)) as [x Hx]; [lia|].
  pose proof (layers_after_reduces (reduce_promote keccak)
                (reduce_promote_length keccak) _ leaves (le_n _)) as Hr.
  destruct (get_proof_loop_folds keccak _ leaves (Z.to_nat i) [] x Hr Hx)
    as (pf & Hpf & Hroot).
  rewrite Z2Nat.id in Hpf by lia. cbn [app] in Hpf.
  apply proof_loop_of_get_proof_loop in Hpf; [|lia].
  assert (Hm : WhitelistRootDeploy.merkle_proof_loop
                 (removelast (leaves :: layers_after (reduce_promote keccak)
                                          (length leaves) leaves)) i []
               = Ok pf).
  { rewrite <- (Z2Nat.id i) by lia.
    rewrite (merkle_proof_loop_in_range keccak _ (reduce_promote_length keccak)
               _ leaves (Z.to_nat i) [] Hr) by lia.
    rewrite Z2Nat.id by lia. exact Hpf. }
  set (tree := leaves :: layers_after (reduce_promote keccak) (length leaves) leaves)
    in *.
  assert (Htop : getitem tree (-1) = Ok (last tree [])).
  { apply getitem_last. discriminate. }
  assert (Hrt : getitem (last tree []) 0 = Ok (fold_proof keccak x pf)).
  { apply (getitem_nth _ 0). exact Hroot. }
  exists tree, x, pf.
  split.
  { rewrite whitelist_build_tree_spec, (layers_after_pow2 keccak _ k) by exact Hl.
    reflexivity. }
  split.
  { rewrite merkle_tree_spec, (layers_after_pow2 keccak _ k) by exact Hl.
    reflexivity. }
  split.
  { rewrite <- (Z2Nat.id i) by lia. apply getitem_nth. exact Hx. }
  split; [exact Htop|]. split; [exact Hrt|]. split; [exact Hpf|].
  split; [exact Hm|].
  unfold WhitelistRootDeploy.merkle_root.
  change (match tree with [] => Ok None | _ :: _ =>
            top <- getitem tree (-1);; root0 <- getitem top 0;; Ok (Some root0) end)
    with (top <- getitem tree (-1);; root0 <- getitem top 0;; Ok (Some root0)).
  rewrite Htop. cbn [bind]. rewrite Hrt. reflexivity.
Qed.

(** With a power of two leaves the whitelist scripts are sound: every leaf
    verifies against its own proof and the root, in generateRoot.py and in
    generateWhitelistRootDeploy.py. *)
Theorem power_of_two_whitelist_verifies (keccak : bytes -> bytes)
  (leaves : list bytes) (k : nat) (i : Z) :
  length leaves = (2 ^ k)%nat ->
  0 <= i < len leaves ->
  WhitelistRoot.ok keccak leaves i = Ok true
  /\ exists tree root leaf proof,
       WhitelistRootDeploy.merkle_tree keccak leaves = Ok tree
       /\ WhitelistRootDeploy.merkle_root tree = Ok (Some root)
       /\ getitem leaves i = Ok leaf
       /\ WhitelistRootDeploy.merkle_proof tree i = Ok proof
       /\ WhitelistRootDeploy.verify_proof keccak leaf proof root = true.
Proof.
  intros Hl Hi.
  destruct (power_of_two_proof_facts keccak leaves k i Hl Hi)
    as (tree & x & pf & Hw & Hm & Hgx & Htop & Hrt & Hpf & Hmp & Hroot).
  split.
  - unfold WhitelistRoot.ok. rewrite Hw. cbn [bind].
    rewrite Htop. cbn [bind]. rewrite Hrt. cbn [bind]. rewrite Hgx. cbn [bind].
    rewrite Hpf. cbn [bind].
    unfold WhitelistRoot.verify_sorted.
    rewrite whitelist_verify_loop_fold. now rewrite bytes_eqb_refl.
  - exists tree, (fold_proof keccak x pf), x, pf.
    split; [exact Hm|]. split; [exact Hroot|]. split; [exact Hgx|].
    split; [exact Hmp|].
    unfold WhitelistRootDeploy.verify_proof.
    rewrite deploy_verify_loop_fold. apply bytes_eqb_refl.
Qed.

Lemma power_of_two_whitelist_verifies_witness :
  WhitelistRoot.ok Sample.keccak256
    [Sample.leaf1; Sample.leaf2; Sample.leaf3; Sample.leaf1] 2 = Ok true.
Proof.
  assert (Hi : 0 <= 2 < len [Sample.leaf1; Sample.leaf2; Sample.leaf3; Sample.leaf1])
    by (vm_compute; split; [discriminate|reflexivity]).
  destruct (power_of_two_whitelist_verifies Sample.keccak256
              [Sample.leaf1; Sample.leaf2; Sample.leaf3; Sample.leaf1] 2 2
              eq_refl Hi) as [Hok _].
  exact Hok.
Defined.

End PowerOfTwoProperties.

(* ================================================================= *)
(** ** Further properties: whitelist addresses *)

Section AddressProperties.

Import Web3 Spec.

Lemma startswith_0x_split (s : str) :
  startswith_0x s = true -> exists d, s = "0"%char :: "x"%char :: d.
Proof.
  destruct s as [|a [|b d]]; try discriminate.
  cbn [startswith_0x]. intros H. apply andb_prop in H as [Ha Hb].
  apply Ascii.eqb_eq in Ha, Hb. subst. eauto.
Qed.

Lemma lower_digits (d : str) :
  forallb is_hex_digit d = true ->
  forallb is_hex_digit (lower d) = true /\ lower (lower d) = lower d.
Proof.
  induction d as [|c d IH]; intros H; [split; reflexivity|].
  cbn [forallb] in H. apply andb_prop in H as [Hc H].
  destruct (IH H) as [Hd Hl].
  destruct (hex_digit_cases c Hc) as [(Hh & _ & Hll) _].
  cbn [lower map forallb]. fold (lower d). fold (lower (lower d)).
  rewrite Hh, Hd, Hl, Hll. split; reflexivity.
Qed.

(** What [normalize] returns: [0x] and 40 lowercase hexadecimal digits. *)
Lemma normalize_shape (addr n : str) :
  WhitelistRoot.normalize addr = Ok n ->
  exists d, is_hex40 d = true /\ n = "0"%char :: "x"%char :: lower d.
Proof.
  unfold WhitelistRoot.normalize. intros H.
  set (a := if startswith_0x (strip addr) then strip addr
            else "0"%char :: "x"%char :: strip addr) in H.
  assert (Hs : startswith_0x a = true).
  { unfold a. destruct (startswith_0x (strip addr)) eqn:E; [exact E|reflexivity]. }
  destruct (startswith_0x_split a Hs) as [d Hd].
  destruct (is_hex_address a) eqn:Ha; [|discriminate].
  cbn [negb] in H. injection H as <-.
  exists d. rewrite Hd in Ha |- *.
  apply is_hex_address_body in Ha.
  split; [exact Ha | reflexivity].
Qed.

Lemma lower_hex40 (d : str) : is_hex40 d = true -> is_hex40 (lower d) = true.
Proof.
  unfold is_hex40. intros H. apply andb_prop in H as [Hlen Hd].
  unfold lower at 1. rewrite length_map, Hlen.
  exact (proj1 (lower_digits d Hd)).
Qed.

(** On a normalized address [leaf_hash] cannot fail. *)
Lemma leaf_hash_normalized (keccak : bytes -> bytes) (d : str) :
  is_hex40 d = true ->
  exists b,
    fromhex (lower d) = Ok b /\ length b = 20%nat
    /\ WhitelistRoot.leaf_hash keccak ("0"%char :: "x"%char :: lower d)
       = Ok (keccak (zeros 12 ++ b)).
Proof.
  intros H40. pose proof (lower_hex40 d H40) as H40l.
  pose proof H40 as H. unfold is_hex40 in H. apply andb_prop in H as [Hlen Hd].
  apply Nat.eqb_eq in Hlen.
  destruct (lower_digits d Hd) as [Hld Hll].
  destruct (fromhex_digits (lower d) Hld) as (b & Hb & Hl).
  { unfold lower. rewrite length_map, Hlen. reflexivity. }
  unfold lower in Hl. rewrite length_map, Hlen in Hl.
  exists b. split; [exact Hb|]. split; [lia|].
  unfold WhitelistRoot.leaf_hash.
  rewrite (normalize_prefixed (lower d) H40l), Hll. cbn [bind skipn].
  rewrite Hb. reflexivity.
Qed.

(** [normalize] is idempotent, and its result is 42 characters long: [0x]
    and 40 lowercase hexadecimal digits. *)
Theorem normalize_idempotent (addr n : str) :
  WhitelistRoot.normalize addr = Ok n ->
  WhitelistRoot.normalize n = Ok n
  /\ length n = 42%nat
  /\ startswith_0x n = true
  /\ forallb is_hex_digit (skipn 2 n) = true
  /\ lower n = n.
Proof.
  intros H. destruct (normalize_shape addr n H) as (d & H40 & ->).
  pose proof H40 as H40'. unfold is_hex40 in H40'.
  apply andb_prop in H40' as [Hlen Hd]. apply Nat.eqb_eq in Hlen.
  destruct (lower_digits d Hd) as [Hld Hll].
  pose proof (lower_hex40 d H40) as H40l.
  split; [rewrite (normalize_prefixed (lower d) H40l), Hll; reflexivity|].
  split; [cbn [length]; unfold lower; rewrite length_map, Hlen; reflexivity|].
  split; [reflexivity|].
  split; [exact Hld|].
  cbn [lower map]. fold (lower (lower d)). rewrite Hll. reflexivity.
Qed.

Lemma normalize_idempotent_witness :
  WhitelistRoot.normalize (Sample.s "0x70997970c51812dc3a010c7d01b50e0d17dc79c8")
  = Ok (Sample.s "0x70997970c51812dc3a010c7d01b50e0d17dc79c8").
Proof.
  exact (proj1 (normalize_idempotent Sample.user1
                  (Sample.s "0x70997970c51812dc3a010c7d01b50e0d17dc79c8")
                  eq_refl)).
Defined.

(** The leaf of an address does not depend on how the address is written:
    when [normalize] accepts it, [leaf_hash] returns a leaf (the decoding of
    the digits cannot fail), the same leaf as for the normalized form. *)
Theorem leaf_hash_of_normalized (keccak : bytes -> bytes) (addr n : str) :
  WhitelistRoot.normalize addr = Ok n ->
  exists b,
    fromhex (skipn 2 n) = Ok b /\ length b = 20%nat
    /\ WhitelistRoot.leaf_hash keccak addr = Ok (keccak (zeros 12 ++ b))
    /\ WhitelistRoot.leaf_hash keccak n = Ok (keccak (zeros 12 ++ b)).
Proof.
  intros H. destruct (normalize_shape addr n H) as (d & H40 & ->).
  destruct (leaf_hash_normalized keccak d H40) as (b & Hb & Hl & Hleaf).
  exists b. split; [exact Hb|]. split; [exact Hl|]. split; [|exact Hleaf].
  unfold WhitelistRoot.leaf_hash. rewrite H. cbn [bind skipn].
  rewrite Hb. reflexivity.
Qed.

Lemma leaf_hash_of_normalized_witness :
  WhitelistRoot.leaf_hash Sample.keccak256 Sample.user1
  = WhitelistRoot.leaf_hash Sample.keccak256
      (Sample.s "0x70997970c51812dc3a010c7d01b50e0d17dc79c8").
Proof.
  destruct (leaf_hash_of_normalized Sample.keccak256 Sample.user1
              (Sample.s "0x70997970c51812dc3a010c7d01b50e0d17dc79c8") eq_refl)
    as (b & _ & _ & H1 & H2).
  rewrite H1, H2. reflexivity.
Defined.

(** An address written with the prefix [0X] is a hexadecimal address for
    [is_hex_address], yet [normalize] rejects it: it only looks for [0x],
    puts a second prefix in front and fails on the result. *)
Theorem normalize_rejects_0X (digits : str) :
  is_hex40 digits = true ->
  is_hex_address ("0"%char :: "X"%char :: digits) = true
  /\ WhitelistRoot.normalize ("0"%char :: "X"%char :: digits)
     = Raise (ValueError
                ("Invalid address: "
                 ++ string_of_list_ascii
                      ("0"%char :: "x"%char :: "0"%char :: "X"%char :: digits))).
Proof.
  intros H40. pose proof H40 as H. unfold is_hex40 in H.
  apply andb_prop in H as [Hlen Hd]. apply Nat.eqb_eq in Hlen.
  split.
  - unfold is_hex_address. apply orb_true_iff. right.
    change (is_0x_prefixed ("0"%char :: "X"%char :: digits)) with true.
    exact H40.
  - unfold WhitelistRoot.normalize.
    rewrite strip_id.
    2:{ constructor; [reflexivity|]. constructor; [reflexivity|].
        apply digits_not_space; exact Hd. }
    change (startswith_0x ("0"%char :: "X"%char :: digits)) with false. cbv iota.
    assert (Ha : is_hex_address
                   ("0"%char :: "x"%char :: "0"%char :: "X"%char :: digits) = false).
    { unfold is_hex_address, is_hex40. cbn [length skipn]. rewrite Hlen.
      reflexivity. }
    rewrite Ha. reflexivity.
Qed.

Lemma normalize_rejects_0X_witness :
  exists msg,
    WhitelistRoot.normalize (Sample.s "0X70997970C51812dc3A010C7d01b50e0d17dc79C8")
    = Raise (ValueError msg).
Proof.
  eexists.
  exact (proj2 (normalize_rejects_0X
                  (Sample.s "70997970C51812dc3A010C7d01b50e0d17dc79C8") eq_refl)).
Defined.

End AddressProperties.

(* ================================================================= *)
(** ** Further properties: the sorted whitelist *)

Section SortedWhitelistProperties.

Import Web3 Spec.



Lemma str_compare_antisym (a b : str) :
  str_compare b a = CompOpp (str_compare a b).
Proof.
  revert b. induction a as [|x a IH]; intros [|y b]; simpl; try reflexivity.
  rewrite (Nat.compare_antisym (code x) (code y)).
  destruct (Nat.compare (code x) (code y)); simpl; auto.
Qed.

Lemma str_le_total (a b : str) : str_le a b \/ str_le b a.
Proof.
  unfold str_le. rewrite (str_compare_antisym a b).
  destruct (str_compare a b); simpl; [left|left|right]; discriminate.
Qed.



Lemma insert_sorted_perm (x : str) (l : list str) :
  Permutation (insert_sorted x l) (x :: l).
Proof.
  induction l as [|y l IH]; [reflexivity|].
  cbn [insert_sorted]. destruct (str_compare x y); try reflexivity;
    (etransitivity; [apply perm_skip; exact IH | apply perm_swap]).
Qed.

Lemma insert_sorted_sorted (x : str) (l : list str) :
  Sorted str_le l -> Sorted str_le (insert_sorted x l).
Proof.
  induction l as [|y l IH]; intros Hs.
  - repeat constructor.
  - inversion Hs as [|? ? Hs' Hhd]; subst. cbn [insert_sorted].
    assert (Hyx : str_compare x y <> Lt -> str_le y x).
    { intros Hne. unfold str_le. rewrite (str_compare_antisym x y).
      destruct (str_compare x y); simpl; try discriminate. now elim Hne. }
    assert (Hins : str_le y x -> Sorted str_le (y :: insert_sorted x l)).
    { intros Hle. constructor; [apply IH; exact Hs'|].
      destruct l as [|z l]; cbn [insert_sorted].
      - constructor. exact Hle.
      - inversion Hhd; subst. destruct (str_compare x z); constructor; assumption. }
    destruct (str_compare x y) eqn:E.
    + apply Hins, Hyx. discriminate.
    + constructor; [exact Hs|]. constructor. unfold str_le. rewrite E. discriminate.
    + apply Hins, Hyx. discriminate.
Qed.

Lemma sorted_fold (l acc : list str) :
  Sorted str_le acc ->
  Sorted str_le (fold_left (fun a x => insert_sorted x a) l acc)
  /\ Permutation (fold_left (fun a x => insert_sorted x a) l acc) (l ++ acc).
Proof.
  revert acc. induction l as [|x l IH]; intros acc Hs.
  - split; [exact Hs|reflexivity].
  - cbn [fold_left].
    destruct (IH (insert_sorted x acc) (insert_sorted_sorted x acc Hs)) as [H1 H2].
    split; [exact H1|].
    rewrite H2, (insert_sorted_perm x acc).
    symmetry. apply Permutation_middle.
Qed.

Lemma sorted_spec (l : list str) :
  Sorted str_le (sorted l) /\ Permutation (sorted l) l.
Proof.
  unfold sorted. destruct (sorted_fold l [] (Sorted_nil _)) as [H1 H2].
  split; [exact H1|]. now rewrite app_nil_r in H2.
Qed.



Lemma map_result_forall2 {A B : Type} (f : A -> result B) (l : list A) (r : list B) :
  map_result f l = Ok r <-> Forall2 (fun x y => f x = Ok y) l r.
Proof.
  revert r. induction l as [|x l IH]; intros r; cbn [map_result].
  - split; [intros H; injection H as <-; constructor|].
    intros H. inversion H. reflexivity.
  - destruct (f x) as [y|e] eqn:E.
    + destruct (map_result f l) as [ys|e'] eqn:E'; cbn [bind].
      * split.
        { intros H. injection H as <-. constructor; [exact E|]. now apply IH. }
        { intros H. inversion H as [|? y' ? ys' Hy Hys]; subst.
          apply IH in Hys. congruence. }
      * split; [discriminate|].
        intros H. inversion H as [|? y' ? ys' Hy Hys]; subst.
        apply IH in Hys. discriminate.
    + split; [discriminate|].
      intros H. inversion H; subst. congruence.
Qed.





(** [build_leaves] succeeds whenever every address normalizes; the
    addresses it returns are in ascending order and are a permutation of the
    normalized inputs (duplicates are kept), and the leaf at each position
    is [leaf_hash] of the address at that position. *)
Theorem build_leaves_sorted (keccak : bytes -> bytes) (addrs normalized : list str) :
  map_result WhitelistRoot.normalize addrs = Ok normalized ->
  exists leaves addrs_sorted,
    WhitelistRoot.build_leaves keccak addrs = Ok (leaves, addrs_sorted)
    /\ Sorted str_le addrs_sorted
    /\ Permutation addrs_sorted normalized
    /\ length leaves = length addrs
    /\ Forall2 (fun a l => WhitelistRoot.leaf_hash keccak a = Ok l)
         addrs_sorted leaves.
Proof.
  intros Hn. unfold WhitelistRoot.build_leaves. rewrite Hn. cbn [bind].
  destruct (sorted_spec normalized) as [Hs Hp].
  assert (Hall : Forall (fun n => exists a, WhitelistRoot.normalize a = Ok n)
                   (sorted normalized)).
  { apply map_result_forall2 in Hn.
    assert (Hnorm : Forall (fun n => exists a, WhitelistRoot.normalize a = Ok n)
                      normalized).
    { clear Hs Hp. induction Hn; constructor; eauto. }
    rewrite Forall_forall in Hnorm |- *. intros n Hin. apply Hnorm.
    eapply Permutation_in; eassumption. }
  assert (Hleaves : exists leaves,
             Forall2 (fun a l => WhitelistRoot.leaf_hash keccak a = Ok l)
               (sorted normalized) leaves).
  { clear Hs Hp. induction Hall as [|n ns (a & Ha) _ (ls & IH)].
    - exists []. constructor.
    - destruct (normalize_shape a n Ha) as (d & H40 & ->).
      destruct (leaf_hash_normalized keccak d H40) as (b & _ & _ & Hl).
      eexists (_ :: ls). constructor; [exact Hl|exact IH]. }
  destruct Hleaves as (leaves & Hl).
  exists leaves, (sorted normalized).
  rewrite (proj2 (map_result_forall2 _ _ _) Hl). cbn [bind].
  split; [reflexivity|]. split; [exact Hs|]. split; [exact Hp|].
  split; [|exact Hl].
  rewrite <- (Forall2_length Hl), (Permutation_length Hp).
  apply map_result_forall2 in Hn. symmetry. exact (Forall2_length Hn).
Qed.

Lemma sample_whitelist_normalizes :
  map_result WhitelistRoot.normalize Sample.whitelist
  = Ok [Sample.s "0x70997970c51812dc3a010c7d01b50e0d17dc79c8";
        Sample.s "0xbd26367c4b23a6d3713a1e1a50b2d67e8748cb98";
        Sample.s "0xf39fd6e51aad88f6f4ce6ab8827279cfffb92266"].
Proof. vm_compute. reflexivity. Defined.

Lemma build_leaves_sorted_witness :
  exists leaves addrs_sorted,
    WhitelistRoot.build_leaves Sample.keccak256 Sample.whitelist
    = Ok (leaves, addrs_sorted)
    /\ Sorted str_le addrs_sorted
    /\ length leaves = 3%nat.
Proof.
  destruct (build_leaves_sorted Sample.keccak256 Sample.whitelist _
              sample_whitelist_normalizes)
    as (leaves & addrs_sorted & Hb & Hs & _ & Hl & _).
  exists leaves, addrs_sorted. split; [exact Hb|]. split; [exact Hs | exact Hl].
Defined.

End SortedWhitelistProperties.

(* ================================================================= *)
(** ** Further properties: transfer leaves *)

Section TransferProperties.

Import Web3 Spec.

Lemma deploy_bounds_checked_witness :
  BatchRootDeploy.calculate_tx_hash Sample.keccak256
    (Sample.deploy_transfer (2 ^ 64) 40)
  = Raise (ValueError "nonce exceeds uint64").
Proof.
  apply (proj1 (deploy_bounds_checked Sample.keccak256
                  (Sample.deploy_transfer (2 ^ 64) 40))).
  unfold in_uint. cbn [BatchRootDeploy.nonce Sample.deploy_transfer]. lia.
Defined.

Lemma ensure_uint_bounds_ok (nonce timestamp recipient_count : Z) :
  in_uint 64 nonce -> in_uint 48 timestamp -> in_uint 32 recipient_count ->
  BatchRootDeploy.ensure_uint_bounds nonce timestamp recipient_count = Ok tt.
Proof.
  unfold in_uint, BatchRootDeploy.ensure_uint_bounds. intros Hn Hts Hrc.
  destruct (Z.leb_spec 0 nonce); [|lia].
  destruct (Z.leb_spec nonce (2 ^ 64 - 1)); [|lia].
  destruct (Z.leb_spec 0 timestamp); [|lia].
  destruct (Z.leb_spec timestamp (2 ^ 48 - 1)); [|lia].
  destruct (Z.leb_spec 0 recipient_count); [|lia].
  destruct (Z.leb_spec recipient_count (2 ^ 32 - 1)); [|lia].
  reflexivity.
Qed.

(** Within the three checked bounds the deploy script computes the leaf of
    the test script: the bounds check is all that sets the two
    [calculate_tx_hash] apart. *)
Theorem deploy_hash_is_batch_hash (keccak : bytes -> bytes)
  (from_ to_ tron_from tron_to : str)
  (amount nonce timestamp recipient_count batch_id tx_type batch_salt : Z) :
  in_uint 64 nonce -> in_uint 48 timestamp -> in_uint 32 recipient_count ->
  BatchRootDeploy.calculate_tx_hash keccak
    (BatchRootDeploy.Build_TransferData from_ to_ tron_from tron_to amount
       nonce timestamp recipient_count batch_id tx_type batch_salt)
  = BatchRoot.calculate_tx_hash keccak
      (BatchRoot.Build_TransferData from_ to_ amount nonce timestamp
         recipient_count batch_id tx_type batch_salt).
Proof.
  intros Hn Hts Hrc.
  unfold BatchRootDeploy.calculate_tx_hash, BatchRoot.calculate_tx_hash.
  cbn [BatchRootDeploy.from_address BatchRootDeploy.to_address
       BatchRootDeploy.amount BatchRootDeploy.nonce BatchRootDeploy.timestamp
       BatchRootDeploy.recipient_count BatchRootDeploy.tx_type
       BatchRootDeploy.batch_salt
       BatchRoot.from_address BatchRoot.to_address BatchRoot.amount
       BatchRoot.nonce BatchRoot.timestamp BatchRoot.recipient_count
       BatchRoot.tx_type BatchRoot.batch_salt].
  rewrite (ensure_uint_bounds_ok nonce timestamp recipient_count Hn Hts Hrc).
  reflexivity.
Qed.

Lemma deploy_hash_is_batch_hash_witness :
  BatchRootDeploy.calculate_tx_hash Sample.keccak256
    (BatchRootDeploy.Build_TransferData Sample.SENDER Sample.RECIPIENT_1 [] []
       (100 * Sample.ONE_TRX) 1 Sample.base_timestamp 1 1 BatchRoot.DELAYED 1)
  = BatchRoot.calculate_tx_hash Sample.keccak256 (Sample.transfer 1 1).
Proof.
  apply (deploy_hash_is_batch_hash Sample.keccak256 Sample.SENDER Sample.RECIPIENT_1
           [] [] (100 * Sample.ONE_TRX) 1 Sample.base_timestamp 1 1
           BatchRoot.DELAYED 1);
    unfold in_uint; split; vm_compute; (discriminate || reflexivity).
Defined.

Lemma calculate_tx_hash_packed (keccak : bytes -> bytes) (tx : BatchRoot.TransferData) :
  (forall m, length (keccak m) = 32%nat) ->
  batch_record tx ->
  BatchRoot.calculate_tx_hash keccak tx = Ok (keccak (packed_batch tx)).
Proof.
  intros Hk (Hf & Ht & Ha & Hn & Hts & Hrc & Hty & Hs).
  destruct (to_checksum_address_spec keccak Hk _ Hf) as (rf & Ef & _).
  destruct (to_checksum_address_spec keccak Hk _ Ht) as (rt & Et & _).
  unfold BatchRoot.calculate_tx_hash. rewrite Ef, Et. cbn [bind].
  apply (solidity_keccak_transfer keccak Hk (BatchRoot.from_address tx)
           (BatchRoot.to_address tx)); assumption.
Qed.

(** The leaf depends on the 20 bytes of an address, not on how the address
    is written: two records whose address strings denote the same bytes
    (checksummed or lower case, with or without [0x]) and whose numbers
    agree have the same leaf. *)
Theorem transfer_hash_ignores_address_writing (keccak : bytes -> bytes)
  (tx tx' : BatchRoot.TransferData) :
  (forall m, length (keccak m) = 32%nat) ->
  batch_record tx -> batch_record tx' ->
  address20 (BatchRoot.from_address tx) = address20 (BatchRoot.from_address tx') ->
  address20 (BatchRoot.to_address tx) = address20 (BatchRoot.to_address tx') ->
  BatchRoot.amount tx = BatchRoot.amount tx' ->
  BatchRoot.nonce tx = BatchRoot.nonce tx' ->
  BatchRoot.timestamp tx = BatchRoot.timestamp tx' ->
  BatchRoot.recipient_count tx = BatchRoot.recipient_count tx' ->
  BatchRoot.tx_type tx = BatchRoot.tx_type tx' ->
  BatchRoot.batch_salt tx = BatchRoot.batch_salt tx' ->
  BatchRoot.calculate_tx_hash keccak tx = BatchRoot.calculate_tx_hash keccak tx'.
Proof.
  intros Hk Hr Hr' Hf Ht Ha Hn Hts Hrc Hty Hs.
  rewrite (calculate_tx_hash_packed keccak tx Hk Hr),
    (calculate_tx_hash_packed keccak tx' Hk Hr').
  unfold packed_batch, packed_transfer.
  now rewrite Hf, Ht, Ha, Hn, Hts, Hrc, Hty, Hs.
Qed.

Lemma lowercase_transfer_record :
  batch_record
    (BatchRoot.Build_TransferData
       (Sample.s "f39fd6e51aad88f6f4ce6ab8827279cfffb92266")
       (Sample.s "0x70997970c51812dc3a010c7d01b50e0d17dc79c8")
       (100 * Sample.ONE_TRX) 1 Sample.base_timestamp 1 7 BatchRoot.DELAYED 1).
Proof.
  unfold batch_record, transfer_record, in_uint.
  split; [vm_compute; reflexivity|]. split; [vm_compute; reflexivity|].
  repeat (split; [split; [vm_compute; discriminate | vm_compute; reflexivity]|]).
  split; [vm_compute; discriminate | vm_compute; reflexivity].
Defined.

Lemma transfer_hash_ignores_address_writing_witness :
  BatchRoot.calculate_tx_hash Sample.keccak256 (Sample.transfer 1 1)
  = BatchRoot.calculate_tx_hash Sample.keccak256
      (BatchRoot.Build_TransferData
         (Sample.s "f39fd6e51aad88f6f4ce6ab8827279cfffb92266")
         (Sample.s "0x70997970c51812dc3a010c7d01b50e0d17dc79c8")
         (100 * Sample.ONE_TRX) 1 Sample.base_timestamp 1 7 BatchRoot.DELAYED 1).
Proof.
  apply (transfer_hash_ignores_address_writing Sample.keccak256
           (Sample.transfer 1 1) _ keccak256_length sample_transfer_record
           lowercase_transfer_record); vm_compute; reflexivity.
Defined.

Lemma be_hex_digits (n : nat) (v : Z) : forallb is_hex_digit (be_hex n v) = true.
Proof.
  induction n as [|n IH]; [reflexivity|].
  cbn [be_hex forallb]. rewrite IH, is_hex_digit_hex_char; [reflexivity|].
  apply Z.mod_pos_bound. lia.
Qed.

Lemma zfill_digits (w : nat) (h : str) :
  forallb is_hex_digit h = true -> forallb is_hex_digit (zfill w h) = true.
Proof.
  intros H. unfold zfill. rewrite forallb_app, H, andb_true_r.
  induction (w - length h)%nat as [|n IH]; [reflexivity|].
  cbn [repeat forallb]. rewrite IH. reflexivity.
Qed.

Lemma hex_encode_uint_any (keccak : bytes -> bytes) (bits : nat) (v : Z) :
  0 <= v ->
  exists h, hex_encode_abi_type keccak (uint bits) (PInt v) = Ok h
            /\ forallb is_hex_digit h = true.
Proof.
  intros Hv. cbn [hex_encode_abi_type].
  destruct (Z.leb_spec 0 v); [|lia].
  eexists. split; [reflexivity|].
  apply zfill_digits, be_hex_digits.
Qed.

Lemma to_bytes_hexstr_digits (h : str) :
  forallb is_hex_digit h = true -> exists b, to_bytes_hexstr h = Ok b.
Proof.
  intros H. unfold to_bytes_hexstr.
  destruct (Nat.odd (length h)) eqn:E.
  - destruct (fromhex_digits ("0"%char :: h)) as (b & Hb & _).
    + cbn [forallb]. rewrite H. reflexivity.
    + cbn [length]. rewrite Nat.even_succ. exact E.
    + eauto.
  - destruct (fromhex_digits h H) as (b & Hb & _).
    + rewrite <- Nat.negb_odd, E. reflexivity.
    + eauto.
Qed.

(** Apart from the three checks of the deploy script nothing bounds the
    numbers: with two hexadecimal addresses and numbers that are not
    negative, of whatever size, [calculate_tx_hash] of generateBatchRoot.py
    returns a hash, and so does that of generateBatchRootDeploy.py when
    nonce, timestamp and recipient_count are in range; amount, tx_type and
    batch_salt are never checked against uint256, uint8 and uint64. *)
Theorem transfer_hash_never_checks_widths (keccak : bytes -> bytes)
  (from_ to_ tron_from tron_to : str)
  (amount nonce timestamp recipient_count batch_id tx_type batch_salt : Z) :
  (forall m, length (keccak m) = 32%nat) ->
  is_hex_address from_ = true -> is_hex_address to_ = true ->
  0 <= amount -> 0 <= nonce -> 0 <= timestamp -> 0 <= recipient_count ->
  0 <= tx_type -> 0 <= batch_salt ->
  exists h,
    BatchRoot.calculate_tx_hash keccak
      (BatchRoot.Build_TransferData from_ to_ amount nonce timestamp
         recipient_count batch_id tx_type batch_salt) = Ok h
    /\ (in_uint 64 nonce -> in_uint 48 timestamp -> in_uint 32 recipient_count ->
        BatchRootDeploy.calculate_tx_hash keccak
          (BatchRootDeploy.Build_TransferData from_ to_ tron_from tron_to amount
             nonce timestamp recipient_count batch_id tx_type batch_salt) = Ok h).
Proof.
  intros Hk Hf Ht Ha Hn Hts Hrc Hty Hs.
  destruct (to_checksum_address_spec keccak Hk from_ Hf) as (rf & Ef & Rf & Lf).
  destruct (to_checksum_address_spec keccak Hk to_ Ht) as (rt & Et & Rt & Lt).
  destruct (hex_encode_uint_any keccak 256 amount Ha) as (h1 & E1 & D1).
  destruct (hex_encode_uint_any keccak 64 nonce Hn) as (h2 & E2 & D2).
  destruct (hex_encode_uint_any keccak 48 timestamp Hts) as (h3 & E3 & D3).
  destruct (hex_encode_uint_any keccak 32 recipient_count Hrc) as (h4 & E4 & D4).
  destruct (hex_encode_uint_any keccak 8 tx_type Hty) as (h5 & E5 & D5).
  destruct (hex_encode_uint_any keccak 64 batch_salt Hs) as (h6 & E6 & D6).
  destruct (to_bytes_hexstr_digits
              (rf ++ rt ++ h1 ++ h2 ++ h3 ++ h4 ++ h5 ++ h6 ++ []))
    as (b & Hb).
  { rewrite !forallb_app, (same_digit_digits _ _ Rf), (same_digit_digits _ _ Rt),
      D1, D2, D3, D4, D5, D6. reflexivity. }
  assert (Hbatch : BatchRoot.calculate_tx_hash keccak
                     (BatchRoot.Build_TransferData from_ to_ amount nonce timestamp
                        recipient_count batch_id tx_type batch_salt)
                   = Ok (keccak b)).
  { unfold BatchRoot.calculate_tx_hash.
    cbn [BatchRoot.from_address BatchRoot.to_address BatchRoot.amount
         BatchRoot.nonce BatchRoot.timestamp BatchRoot.recipient_count
         BatchRoot.tx_type BatchRoot.batch_salt].
    rewrite Ef, Et. cbn [bind]. unfold solidity_keccak.
    cbn [length Nat.eqb hex_encode_all].
    rewrite (hex_encode_checksummed keccak from_ rf Hf Ef Rf Lf).
    rewrite (hex_encode_checksummed keccak to_ rt Ht Et Rt Lt).
    rewrite E1, E2, E3, E4, E5, E6. cbn [bind]. rewrite Hb. reflexivity. }
  exists (keccak b). split; [exact Hbatch|].
  intros Bn Bts Brc. unfold BatchRootDeploy.calculate_tx_hash.
  cbn [BatchRootDeploy.from_address BatchRootDeploy.to_address
       BatchRootDeploy.amount BatchRootDeploy.nonce BatchRootDeploy.timestamp
       BatchRootDeploy.recipient_count BatchRootDeploy.tx_type
       BatchRootDeploy.batch_salt].
  rewrite (ensure_uint_bounds_ok nonce timestamp recipient_count Bn Bts Brc).
  exact Hbatch.
Qed.

Lemma transfer_hash_never_checks_widths_witness :
  exists h,
    BatchRoot.calculate_tx_hash Sample.keccak256
      (BatchRoot.Build_TransferData Sample.SENDER Sample.RECIPIENT_1
         (2 ^ 256) 1 Sample.base_timestamp 1 1 256 (2 ^ 64)) = Ok h.
Proof.
  assert (H1 : is_hex_address Sample.SENDER = true) by (vm_compute; reflexivity).
  assert (H2 : is_hex_address Sample.RECIPIENT_1 = true) by (vm_compute; reflexivity).
  assert (H3 : 0 <= 2 ^ 256) by (apply Z.pow_nonneg; lia).
  assert (H4 : 0 <= Sample.base_timestamp) by (unfold Sample.base_timestamp; lia).
  assert (H5 : 0 <= 2 ^ 64) by (apply Z.pow_nonneg; lia).
  destruct (transfer_hash_never_checks_widths Sample.keccak256
              Sample.SENDER Sample.RECIPIENT_1 [] []
              (2 ^ 256) 1 Sample.base_timestamp 1 1 256 (2 ^ 64) keccak256_length
              H1 H2 H3 ltac:(lia) H4 ltac:(lia) ltac:(lia) H5)
    as (h & Hh & _).
  exists h. exact Hh.
Defined.

End TransferProperties.

(* ================================================================= *)
(** ** Further properties: TRON addresses *)

Section TronProperties.

Import Web3 Spec.

Lemma hex_of_bytes_hex40 (b : bytes) :
  length b = 20%nat -> is_hex40 (hex_of_bytes b) = true.
Proof.
  intros Hl. unfold is_hex40. rewrite length_hex_of_bytes, Hl. cbn [Nat.mul Nat.add Nat.eqb andb].
  apply forallb_forall. intros c Hc.
  pose proof (hex_of_bytes_digits b) as H. rewrite Forall_forall in H. auto.
Qed.

Lemma is_hex_address_prefixed (d : str) :
  is_hex_address ("0"%char :: "x"%char :: d) = is_hex40 d.
Proof.
  unfold is_hex_address.
  change (is_0x_prefixed ("0"%char :: "x"%char :: d)) with true.
  cbn [skipn andb].
  destruct (is_hex40 d) eqn:E; [apply orb_true_r|].
  rewrite orb_false_r. unfold is_hex40. cbn [forallb].
  change (is_hex_digit "x") with false. cbn [andb].
  now rewrite !andb_false_r.
Qed.

(** A checksummed address is a fixed point of [to_checksum_address]. *)
Lemma to_checksum_address_fixed (keccak : bytes -> bytes) (s c : str) :
  (forall m, length (keccak m) = 32%nat) ->
  is_hex_address s = true ->
  to_checksum_address keccak s = Ok c ->
  is_hex_address c = true /\ to_checksum_address keccak c = Ok c
  /\ address20 c = address20 s.
Proof.
  intros Hk Hs Hc.
  destruct (to_checksum_address_spec keccak Hk s Hs) as (r & Er & Rr & Lr).
  rewrite Hc in Er. injection Er as ->.
  assert (Ha : is_hex_address ("0"%char :: "x"%char :: r) = true).
  { rewrite is_hex_address_prefixed. unfold is_hex40.
    rewrite Lr, (same_digit_digits _ _ Rr). reflexivity. }
  assert (Hr : remove_0x_prefix ("0"%char :: "x"%char :: r) = r) by reflexivity.
  split; [exact Ha|]. split.
  - rewrite (to_checksum_address_unfold keccak _ Ha), Hr, (same_digit_lower _ _ Rr).
    rewrite (to_checksum_address_unfold keccak _ Hs) in Hc. exact Hc.
  - unfold address20. rewrite Hr, (same_digit_fromhex _ _ Rr). reflexivity.
Qed.

Lemma tron_decoded_ok (keccak : bytes -> bytes)
  (b58decode_check : str -> result bytes) (tron_addr : str) (b20 : bytes) :
  b58decode_check tron_addr = Ok (x41 :: b20) -> length b20 = 20%nat ->
  BatchRootDeploy.tron_to_evm_address keccak b58decode_check tron_addr
  = to_checksum_address keccak ("0"%char :: "x"%char :: hex_of_bytes b20).
Proof.
  intros Hd Hl. unfold BatchRootDeploy.tron_to_evm_address.
  rewrite Hd. cbn [bind]. unfold len. cbn [length]. rewrite Hl.
  reflexivity.
Qed.

(** [tron_to_evm_address] turns a TRON address whose payload is the
    version byte 0x41 and 20 bytes into the checksummed hexadecimal address
    of these 20 bytes. *)
Theorem tron_to_evm_address_payload (keccak : bytes -> bytes)
  (b58decode_check : str -> result bytes) (tron_addr : str) (b20 : bytes) :
  (forall m, length (keccak m) = 32%nat) ->
  b58decode_check tron_addr = Ok (x41 :: b20) -> length b20 = 20%nat ->
  exists c,
    BatchRootDeploy.tron_to_evm_address keccak b58decode_check tron_addr = Ok c
    /\ is_hex_address c = true
    /\ startswith_0x c = true
    /\ address20 c = b20
    /\ to_checksum_address keccak c = Ok c.
Proof.
  intros Hk Hd Hl.
  rewrite (tron_decoded_ok keccak b58decode_check tron_addr b20 Hd Hl).
  assert (Hs : is_hex_address ("0"%char :: "x"%char :: hex_of_bytes b20) = true).
  { rewrite is_hex_address_prefixed. apply hex_of_bytes_hex40. exact Hl. }
  destruct (to_checksum_address_spec keccak Hk _ Hs) as (r & Er & _).
  destruct (to_checksum_address_fixed keccak _ _ Hk Hs Er) as (Ha & Hfix & H20).
  exists ("0"%char :: "x"%char :: r).
  split; [exact Er|]. split; [exact Ha|]. split; [reflexivity|].
  split; [|exact Hfix].
  rewrite H20. unfold address20.
  change (remove_0x_prefix ("0"%char :: "x"%char :: hex_of_bytes b20))
    with (hex_of_bytes b20).
  now rewrite fromhex_hex_of_bytes.
Qed.

Lemma tron_to_evm_address_payload_witness :
  exists c,
    BatchRootDeploy.tron_to_evm_address Sample.keccak256 Sample.b58decode_check
      Sample.TRON_SENDER = Ok c
    /\ address20 c = Sample.unhex "68b86ce0e9e72367e20a0e144bece5e2bb61f403".
Proof.
  destruct (tron_to_evm_address_payload Sample.keccak256 Sample.b58decode_check
              Sample.TRON_SENDER
              (Sample.unhex "68b86ce0e9e72367e20a0e144bece5e2bb61f403")
              keccak256_length)
    as (c & Hc & _ & _ & H20 & _).
  - vm_compute. reflexivity.
  - vm_compute. reflexivity.
  - exists c. split; [exact Hc | exact H20].
Defined.

(** What [tron_to_evm_address] rejects: a payload shorter than 21 bytes or
    not starting with 0x41 raises "Invalid Tron address"; a payload that
    starts with 0x41 and is longer than 21 bytes passes that check, and
    the result is that of [to_checksum_address] on its hexadecimal form,
    a ValueError (the text of the library's message is left open); an
    error of the decoder is passed on. *)
Theorem tron_to_evm_address_rejects (keccak : bytes -> bytes)
  (b58decode_check : str -> result bytes) (tron_addr : str) :
  (forall decoded,
      b58decode_check tron_addr = Ok decoded ->
      (length decoded < 21)%nat \/ hd x00 decoded <> x41 ->
      BatchRootDeploy.tron_to_evm_address keccak b58decode_check tron_addr
      = Raise (ValueError ("Invalid Tron address: " ++ string_of_list_ascii tron_addr)))
  /\ (forall rest,
         b58decode_check tron_addr = Ok (x41 :: rest) ->
         (20 < length rest)%nat ->
         BatchRootDeploy.tron_to_evm_address keccak b58decode_check tron_addr
         = to_checksum_address keccak ("0"%char :: "x"%char :: hex_of_bytes rest)
         /\ exists msg,
              to_checksum_address keccak ("0"%char :: "x"%char :: hex_of_bytes rest)
              = Raise (ValueError msg))
  /\ (forall e,
         b58decode_check tron_addr = Raise e ->
         BatchRootDeploy.tron_to_evm_address keccak b58decode_check tron_addr
         = Raise e).
Proof.
  split; [|split].
  - intros decoded Hd Hbad. unfold BatchRootDeploy.tron_to_evm_address.
    rewrite Hd. cbn [bind]. unfold len.
    destruct (Z.ltb_spec (Z.of_nat (length decoded)) 21) as [|Hge]; [reflexivity|].
    destruct Hbad as [Hlt|Hne]; [lia|].
    destruct decoded as [|first rest]; [simpl in Hge; lia|].
    cbn [hd] in Hne. cbn [orb].
    destruct (Z.eqb_spec (Z_of_byte first) 65) as [E|E]; [|reflexivity].
    exfalso. apply Hne. rewrite <- (byte_of_Z_of_byte first), E. reflexivity.
  - intros rest Hd Hlen. split.
    + unfold BatchRootDeploy.tron_to_evm_address.
      rewrite Hd. cbn [bind]. unfold len. cbn [length].
      destruct (Z.ltb_spec (Z.of_nat (S (length rest))) 21); [lia|].
      reflexivity.
    + unfold to_checksum_address, to_normalized_address.
      rewrite is_hex_address_prefixed. unfold is_hex40.
      rewrite length_hex_of_bytes.
      destruct (Nat.eqb_spec (2 * length rest) 40); [lia|].
      eexists. reflexivity.
  - intros e Hd. unfold BatchRootDeploy.tron_to_evm_address. rewrite Hd.
    reflexivity.
Qed.

Lemma tron_to_evm_address_rejects_witness :
  BatchRootDeploy.tron_to_evm_address Sample.keccak256
    (fun _ => Ok (x42 :: Sample.unhex "68b86ce0e9e72367e20a0e144bece5e2bb61f403"))
    Sample.TRON_SENDER
  = Raise (ValueError "Invalid Tron address: TKWvD71EMFTpFVGZyqqX9fC6MQgcR9H76M").
Proof.
  apply (proj1 (tron_to_evm_address_rejects Sample.keccak256
                  (fun _ => Ok (x42 :: Sample.unhex
                                         "68b86ce0e9e72367e20a0e144bece5e2bb61f403"))
                  Sample.TRON_SENDER)
           (x42 :: Sample.unhex "68b86ce0e9e72367e20a0e144bece5e2bb61f403")
           eq_refl).
  right. discriminate.
Defined.

Lemma leaf_hash_prefixed_digits (keccak : bytes -> bytes) (digits : str) (b : bytes) :
  fromhex digits = Ok b -> length b = 20%nat ->
  WhitelistRoot.leaf_hash keccak ("0"%char :: "x"%char :: digits)
  = Ok (keccak (zeros 12 ++ b)).
Proof.
  intros Hb Hl. destruct (fromhex_ok_digits digits b Hb) as [Hd Hlen].
  assert (H40 : is_hex40 digits = true).
  { unfold is_hex40. rewrite Hd, Hlen, Hl. reflexivity. }
  unfold WhitelistRoot.leaf_hash.
  rewrite (normalize_prefixed digits H40). cbn [bind skipn].
  rewrite (fromhex_lower digits Hd), Hb. reflexivity.
Qed.

(** The scripts agree on the leaf of an account: the whitelist leaf that
    generateWhitelistRootDeploy.py computes from a TRON address is the leaf
    that generateRoot.py computes from the EVM address that
    generateBatchRootDeploy.py derives from the same TRON address. *)
Theorem tron_leaf_is_evm_leaf (keccak : bytes -> bytes)
  (b58decode_check : str -> result bytes) (tron_addr : str) (b20 : bytes) :
  (forall m, length (keccak m) = 32%nat) ->
  b58decode_check tron_addr = Ok (x41 :: b20) -> length b20 = 20%nat ->
  exists evm,
    BatchRootDeploy.tron_to_evm_address keccak b58decode_check tron_addr = Ok evm
    /\ WhitelistRootDeploy.leaf keccak b58decode_check tron_addr
       = Ok (keccak (zeros 12 ++ b20))
    /\ WhitelistRoot.leaf_hash keccak evm = Ok (keccak (zeros 12 ++ b20)).
Proof.
  intros Hk Hd Hl.
  rewrite (tron_decoded_ok keccak b58decode_check tron_addr b20 Hd Hl).
  assert (Hs : is_hex_address ("0"%char :: "x"%char :: hex_of_bytes b20) = true).
  { rewrite is_hex_address_prefixed. apply hex_of_bytes_hex40. exact Hl. }
  destruct (to_checksum_address_spec keccak Hk _ Hs) as (r & Er & Rr & Lr).
  exists ("0"%char :: "x"%char :: r). split; [exact Er|]. split.
  - unfold WhitelistRootDeploy.leaf, WhitelistRootDeploy.tron_to_evm_bytes32.
    rewrite Hd. reflexivity.
  - apply leaf_hash_prefixed_digits; [|exact Hl].
    rewrite (same_digit_fromhex _ _ Rr).
    change (remove_0x_prefix ("0"%char :: "x"%char :: hex_of_bytes b20))
      with (hex_of_bytes b20).
    apply fromhex_hex_of_bytes.
Qed.

Lemma tron_leaf_is_evm_leaf_witness :
  exists evm,
    BatchRootDeploy.tron_to_evm_address Sample.keccak256 Sample.b58decode_check
      Sample.TRON_SENDER = Ok evm
    /\ WhitelistRootDeploy.leaf Sample.keccak256 Sample.b58decode_check
         Sample.TRON_SENDER
       = WhitelistRoot.leaf_hash Sample.keccak256 evm.
Proof.
  destruct (tron_leaf_is_evm_leaf Sample.keccak256 Sample.b58decode_check
              Sample.TRON_SENDER
              (Sample.unhex "68b86ce0e9e72367e20a0e144bece5e2bb61f403")
              keccak256_length)
    as (evm & He & H1 & H2).
  - vm_compute. reflexivity.
  - vm_compute. reflexivity.
  - exists evm. split; [exact He|]. rewrite H1, H2. reflexivity.
Defined.

End TronProperties.

(* ================================================================= *)
(** ** Further properties: the batch data and the whitelist look-up *)

Section DataProperties.

Import Web3 Spec.

Local Abbreviation hexstr := (fun b : bytes => "0"%char :: "x"%char :: hex_of_bytes b).

Lemma batch_entry_valid (keccak : bytes -> bytes) (leaves : list bytes)
  (n : nat) (x : bytes) :
  nth_error leaves n = Some x ->
  exists pf,
    BatchRoot.get_proof (batch_tree_of keccak leaves) (Z.of_nat n) = Ok pf
    /\ BatchRoot.verify_proof keccak (batch_tree_of keccak leaves) x pf
         (BatchRoot.get_root (batch_tree_of keccak leaves)) = Ok true.
Proof.
  intros Hx.
  pose proof (layers_after_reduces (reduce_promote keccak)
                (reduce_promote_length keccak) _ leaves (le_n _)) as Hr.
  destruct (get_proof_loop_folds keccak _ leaves n [] x Hr Hx)
    as (pf & Hpf & Hroot).
  exists ([] ++ pf). split.
  - unfold BatchRoot.get_proof, batch_tree_of. cbn [BatchRoot.tree]. exact Hpf.
  - cbn [app]. unfold BatchRoot.verify_proof. rewrite verify_loop_fold. cbn [bind].
    unfold BatchRoot.get_root, batch_tree_of. cbn [BatchRoot.tree].
    destruct (last (leaves :: layers_after (reduce_promote keccak) (length leaves) leaves) [])
      as [|root rest]; [discriminate|].
    injection Hroot as ->. now rewrite bytes_eqb_refl.
Qed.

Lemma proofs_data_loop_valid (keccak : bytes -> bytes)
  (txs : list BatchRoot.TransferData) :
  forall pre post : list bytes,
    length txs = length post ->
    exists entries,
      BatchRoot.proofs_data_loop keccak (batch_tree_of keccak (pre ++ post))
        (BatchRoot.get_root (batch_tree_of keccak (pre ++ post)))
        (pre ++ post) (len pre) txs = Ok entries
      /\ map BatchRoot.entry_transaction entries = txs
      /\ map BatchRoot.entry_tx_hash entries = map hexstr post
      /\ map BatchRoot.entry_index entries
         = map Z.of_nat (seq (length pre) (length txs))
      /\ Forall (fun e => BatchRoot.entry_valid e = true) entries.
Proof.
  induction txs as [|tx txs IH]; intros pre post Hlen.
  - destruct post; [|discriminate]. exists []. cbn. repeat split; constructor.
  - destruct post as [|x post]; [discriminate|].
    injection Hlen as Hlen.
    assert (Hx : nth_error (pre ++ x :: post) (length pre) = Some x).
    { rewrite nth_error_app2 by lia. now rewrite Nat.sub_diag. }
    destruct (batch_entry_valid keccak _ _ _ Hx) as (pf & Hpf & Hv).
    destruct (IH (pre ++ [x]) post Hlen) as (rest & Hrest & Ht & Hh & Hi & Hok).
    rewrite <- app_assoc in Hrest. cbn [app] in Hrest.
    unfold len in Hrest. rewrite length_app in Hrest. cbn [length] in Hrest.
    replace (Z.of_nat (length pre + 1)) with (Z.of_nat (length pre) + 1) in Hrest by lia.
    rewrite length_app in Hi. cbn [length] in Hi.
    replace (length pre + 1)%nat with (S (length pre)) in Hi by lia.
    cbn [BatchRoot.proofs_data_loop]. unfold len.
    rewrite (getitem_nth _ _ _ Hx). cbn [bind].
    rewrite Hpf. cbn [bind]. rewrite Hv. cbn [bind].
    rewrite Hrest. cbn [bind].
    eexists. split; [reflexivity|].
    cbn [map BatchRoot.entry_transaction BatchRoot.entry_tx_hash
         BatchRoot.entry_index BatchRoot.entry_valid length seq].
    rewrite Ht, Hh, Hi.
    split; [reflexivity|]. split; [reflexivity|]. split; [reflexivity|].
    constructor; [reflexivity | exact Hok].
Qed.

Lemma map_result_map {A B : Type} (f : A -> result B) (g : A -> B) (l : list A) :
  Forall (fun x => f x = Ok (g x)) l -> map_result f l = Ok (map g l).
Proof.
  induction 1 as [|x l Hx _ IH]; [reflexivity|].
  cbn [map_result map]. rewrite Hx, IH. reflexivity.
Qed.

(** [generate_merkle_data] on transfer records: it returns, with one leaf
    and one proof entry per transaction in the order of the input, the
    leaf being the hash of the packed fields, the entry numbered by its
    position, and every entry's [is_valid] true; on no transactions the
    root is the 64-zero sentinel. *)
Theorem generate_merkle_data_valid (keccak : bytes -> bytes)
  (transactions : list BatchRoot.TransferData) :
  (forall m, length (keccak m) = 32%nat) ->
  Forall batch_record transactions ->
  exists d,
    BatchRoot.generate_merkle_data keccak transactions = Ok d
    /\ BatchRoot.data_leaves d
       = map (fun tx => hexstr (keccak (packed_batch tx))) transactions
    /\ map BatchRoot.entry_transaction (BatchRoot.data_proofs_data d) = transactions
    /\ map BatchRoot.entry_tx_hash (BatchRoot.data_proofs_data d)
       = BatchRoot.data_leaves d
    /\ map BatchRoot.entry_index (BatchRoot.data_proofs_data d)
       = map Z.of_nat (seq 0 (length transactions))
    /\ Forall (fun e => BatchRoot.entry_valid e = true) (BatchRoot.data_proofs_data d)
    /\ (transactions = [] ->
        BatchRoot.data_merkle_root d = hexstr (zeros 32)).
Proof.
  intros Hk Hrec.
  assert (Hleaves : map_result (BatchRoot.calculate_tx_hash keccak) transactions
                    = Ok (map (fun tx => keccak (packed_batch tx)) transactions)).
  { apply map_result_map. eapply Forall_impl; [|exact Hrec].
    intros tx Htx. now apply calculate_tx_hash_packed. }
  unfold BatchRoot.generate_merkle_data. rewrite Hleaves. cbn [bind].
  destruct transactions as [|tx txs].
  - eexists. split; [reflexivity|]. cbn.
    repeat split; constructor.
  - set (leaves := map (fun tx => keccak (packed_batch tx)) (tx :: txs)).
    assert (Hne : leaves <> []) by discriminate.
    rewrite (init_spec keccak leaves Hne). cbn [bind].
    destruct (proofs_data_loop_valid keccak (tx :: txs) [] leaves)
      as (entries & He & Ht & Hh & Hi & Hok).
    { unfold leaves. now rewrite length_map. }
    cbn [app] in He. change (len []) with 0 in He.
    unfold batch_tree_of in He. rewrite He. cbn [bind].
    eexists. split; [reflexivity|].
    cbn [BatchRoot.data_leaves BatchRoot.data_proofs_data BatchRoot.data_merkle_root].
    split; [unfold leaves; now rewrite map_map|].
    split; [exact Ht|]. split; [exact Hh|]. split; [exact Hi|].
    split; [exact Hok|]. discriminate.
Qed.

Lemma generate_merkle_data_valid_witness :
  exists d,
    BatchRoot.generate_merkle_data Sample.keccak256
      [Sample.transfer 1 1; Sample.transfer 2 1; Sample.transfer 3 1] = Ok d
    /\ Forall (fun e => BatchRoot.entry_valid e = true) (BatchRoot.data_proofs_data d).
Proof.
  assert (Hrec : forall n, n = 1 \/ n = 2 \/ n = 3 -> batch_record (Sample.transfer n 1)).
  { intros n Hn. unfold batch_record, transfer_record, in_uint.
    cbn [Sample.transfer BatchRoot.from_address BatchRoot.to_address BatchRoot.amount
         BatchRoot.nonce BatchRoot.timestamp BatchRoot.recipient_count
         BatchRoot.tx_type BatchRoot.batch_salt].
    split; [vm_compute; reflexivity|]. split; [vm_compute; reflexivity|].
    split; [split; [vm_compute; discriminate | vm_compute; reflexivity]|].
    split; [change (2 ^ 64) with 18446744073709551616; lia|].
    repeat (split; [split; [vm_compute; discriminate | vm_compute; reflexivity]|]).
    split; [vm_compute; discriminate | vm_compute; reflexivity]. }
  destruct (generate_merkle_data_valid Sample.keccak256
              [Sample.transfer 1 1; Sample.transfer 2 1; Sample.transfer 3 1]
              keccak256_length)
    as (d & Hd & _ & _ & _ & _ & Hok & _).
  - constructor; [apply Hrec; lia|]. constructor; [apply Hrec; lia|].
    constructor; [apply Hrec; lia|]. constructor.
  - exists d. split; [exact Hd | exact Hok].
Defined.

Lemma list_index_in (l : list bytes) (x : bytes) :
  In x l -> exists n, list_index l x = Ok (Z.of_nat n) /\ nth_error l n = Some x.
Proof.
  induction l as [|y l IH]; intros Hin; [destruct Hin|].
  cbn [list_index]. destruct (bytes_eqb y x) eqn:E.
  - apply bytes_eqb_eq in E. subst y. exists 0%nat. split; reflexivity.
  - destruct Hin as [->|Hin]; [rewrite bytes_eqb_refl in E; discriminate|].
    destruct (IH Hin) as (n & Hn & Hx). exists (S n). rewrite Hn. cbn [bind].
    split; [f_equal; lia | exact Hx].
Qed.

Lemma list_index_not_in (l : list bytes) (x : bytes) :
  ~ In x l -> list_index l x = Raise (ValueError "x is not in list").
Proof.
  induction l as [|y l IH]; intros Hn; [reflexivity|].
  cbn [list_index]. destruct (bytes_eqb y x) eqn:E.
  - apply bytes_eqb_eq in E. subst y. elim Hn. now left.
  - rewrite IH; [reflexivity|]. intros H. apply Hn. now right.
Qed.

Lemma merkle_root_nonempty (keccak : bytes -> bytes) (leaves : list bytes) :
  leaves <> [] ->
  exists root,
    WhitelistRootDeploy.merkle_root
      (leaves :: layers_after (reduce_duplicate keccak) (length leaves) leaves)
    = Ok (Some root).
Proof.
  intros Hne.
  pose proof (layers_after_reduces (reduce_duplicate keccak)
                (reduce_duplicate_length keccak) _ leaves (le_n _)) as Hr.
  pose proof (reduces_last (reduce_duplicate keccak) (reduce_duplicate_length keccak)
                _ _ Hr Hne) as Hl.
  unfold WhitelistRootDeploy.merkle_root.
  rewrite (getitem_last _ []) by discriminate. cbn [bind].
  destruct (last _ []) as [|root rest]; [discriminate|].
  exists root. reflexivity.
Qed.

(** An address whose leaf is not among the leaves has no proof:
    [get_proof_for_address] returns [(None, None)] whatever the tree, and
    the script reports the address as not in the whitelist. *)
Theorem unlisted_address_has_no_proof (keccak : bytes -> bytes)
  (b58decode_check : str -> result bytes) (whitelist : list str)
  (leaves : list bytes) (addr : str) (l : bytes) :
  map_result (WhitelistRootDeploy.leaf keccak b58decode_check) whitelist = Ok leaves ->
  WhitelistRootDeploy.leaf keccak b58decode_check addr = Ok l ->
  ~ In l leaves ->
  (forall tree,
      WhitelistRootDeploy.get_proof_for_address keccak b58decode_check leaves tree addr
      = Ok (None, None))
  /\ (whitelist <> [] ->
      WhitelistRootDeploy.is_whitelisted keccak b58decode_check whitelist addr
      = Ok None).
Proof.
  intros Hl Ha Hn.
  assert (Hg : forall tree,
             WhitelistRootDeploy.get_proof_for_address keccak b58decode_check
               leaves tree addr = Ok (None, None)).
  { intros tree. unfold WhitelistRootDeploy.get_proof_for_address.
    rewrite Ha. cbn [bind]. now rewrite (list_index_not_in leaves l Hn). }
  split; [exact Hg|]. intros Hw.
  assert (Hne : leaves <> []).
  { apply map_result_forall2 in Hl. intros ->. inversion Hl. now subst. }
  destruct (merkle_root_nonempty keccak leaves Hne) as (root & Hroot).
  unfold WhitelistRootDeploy.is_whitelisted.
  rewrite Hl. cbn [bind]. rewrite merkle_tree_spec. cbn [bind].
  rewrite Hroot. cbn [bind]. rewrite Hg. reflexivity.
Qed.

Lemma unlisted_address_has_no_proof_witness :
  WhitelistRootDeploy.is_whitelisted Sample.keccak256 Sample.b58decode_check
    [Sample.TRON_SENDER] (Sample.s "TVKAAcqpQxz3J4waayePr8dQjSQ2XHkdbF")
  = Ok None.
Proof.
  pose (leaves := [Sample.keccak256
                     (zeros 12 ++ Sample.unhex "68b86ce0e9e72367e20a0e144bece5e2bb61f403")]).
  pose (l := Sample.keccak256
               (zeros 12 ++ Sample.unhex "d43057aa40d69cf6281db374f1acaafd904329c1")).
  apply (proj2 (unlisted_address_has_no_proof Sample.keccak256 Sample.b58decode_check
                  [Sample.TRON_SENDER] leaves
                  (Sample.s "TVKAAcqpQxz3J4waayePr8dQjSQ2XHkdbF") l
                  ltac:(vm_compute; reflexivity) ltac:(vm_compute; reflexivity)
                  ltac:(intros [H|[]]; apply bytes_eqb_eq in H;
                        vm_compute in H; discriminate H))).
  discriminate.
Defined.

(** On a whitelist of a power of two addresses, every listed address is
    reported as whitelisted. *)
Theorem listed_address_is_whitelisted (keccak : bytes -> bytes)
  (b58decode_check : str -> result bytes) (whitelist : list str)
  (leaves : list bytes) (addr : str) (k : nat) :
  map_result (WhitelistRootDeploy.leaf keccak b58decode_check) whitelist = Ok leaves ->
  length whitelist = (2 ^ k)%nat ->
  In addr whitelist ->
  WhitelistRootDeploy.is_whitelisted keccak b58decode_check whitelist addr
  = Ok (Some true).
Proof.
  intros Hl Hk Hin.
  pose proof (proj1 (map_result_forall2 _ _ _) Hl) as Hf.
  assert (Hlen : length leaves = (2 ^ k)%nat).
  { rewrite <- Hk. symmetry. eapply Forall2_length. exact Hf. }
  assert (Hleaf : exists l, WhitelistRootDeploy.leaf keccak b58decode_check addr = Ok l
                            /\ In l leaves).
  { clear Hl Hk Hlen. induction Hf as [|a y wl ls Hy _ IH]; [destruct Hin|].
    destruct Hin as [->|Hin].
    - exists y. split; [exact Hy | now left].
    - destruct (IH Hin) as (l & Hl & Hi). exists l. split; [exact Hl | now right]. }
  destruct Hleaf as (l & Ha & Hi).
  destruct (list_index_in leaves l Hi) as (n & Hn & Hx).
  assert (Hrange : 0 <= Z.of_nat n < len leaves).
  { unfold len. assert (n < length leaves)%nat by (apply nth_error_Some; congruence).
    lia. }
  destruct (power_of_two_proof_facts keccak leaves k (Z.of_nat n) Hlen Hrange)
    as (tree & x & pf & _ & Htree & Hget & _ & _ & _ & Hpf & Hroot).
  rewrite (getitem_nth _ _ _ Hx) in Hget. injection Hget as <-.
  unfold WhitelistRootDeploy.is_whitelisted.
  rewrite Hl. cbn [bind]. rewrite Htree. cbn [bind]. rewrite Hroot. cbn [bind].
  unfold WhitelistRootDeploy.get_proof_for_address.
  rewrite Ha. cbn [bind]. rewrite Hn, Hpf. cbn [bind].
  unfold WhitelistRootDeploy.verify_proof.
  rewrite deploy_verify_loop_fold. now rewrite bytes_eqb_refl.
Qed.

Lemma listed_address_is_whitelisted_witness :
  WhitelistRootDeploy.is_whitelisted Sample.keccak256 Sample.b58decode_check
    [Sample.TRON_SENDER; Sample.s "TVKAAcqpQxz3J4waayePr8dQjSQ2XHkdbF"]
    (Sample.s "TVKAAcqpQxz3J4waayePr8dQjSQ2XHkdbF")
  = Ok (Some true).
Proof.
  pose (leaves := [Sample.keccak256
                     (zeros 12 ++ Sample.unhex "68b86ce0e9e72367e20a0e144bece5e2bb61f403");
                   Sample.keccak256
                     (zeros 12 ++ Sample.unhex "d43057aa40d69cf6281db374f1acaafd904329c1")]).
  apply (listed_address_is_whitelisted Sample.keccak256 Sample.b58decode_check
           [Sample.TRON_SENDER; Sample.s "TVKAAcqpQxz3J4waayePr8dQjSQ2XHkdbF"]
           leaves (Sample.s "TVKAAcqpQxz3J4waayePr8dQjSQ2XHkdbF") 1).
  - vm_compute. reflexivity.
  - reflexivity.
  - right. left. reflexivity.
Defined.

End DataProperties.
